(** * buildtest.executors.setup: the [BuildExecutor] orchestrator

    A shallow embedding of [src/buildtest/executors/setup.py].  The object
    state of a [BuildExecutor] is a record; every statement of [run] and
    [poll] that mutates one of its containers is a primitive of a small
    trace monad, so that properties can be stated about every intermediate
    state and not only about the state in which a method returns. *)

From Stdlib Require Import ZArith String Ascii List Lia.
From stdpp Require Import gmap strings list fin_maps.

Local Open Scope string_scope.
Local Open Scope list_scope.

(** ** Python values *)

(** Truth value of an integer: [0] is falsy. *)
Definition truthy (n : Z) : bool := negb (n =? 0)%Z.

(** [a or b] over optional integers ([None] and [0] are falsy); the value
    of the expression is the first truthy operand, else the last one. *)
Definition py_or (a b : option Z) : option Z :=
  match a with
  | Some n => if truthy n then Some n else b
  | None => b
  end.

(** [s or ""] for an optional string. *)
Definition str_or_empty (s : option string) : string :=
  match s with
  | Some t => t
  | None => ""
  end.

(** ["\n"] *)
Definition nl : string := String (Ascii.ascii_of_nat 10) EmptyString.

(** [sep.join(l)] *)
Fixpoint join (sep : string) (l : list string) : string :=
  match l with
  | [] => ""
  | [x] => x
  | x :: rest => x +:+ sep +:+ join sep rest
  end.

(** [l.remove(x)]: drops the first element equal to [x]; [None] stands for
    the [ValueError] Python raises when there is none. *)
Fixpoint list_remove `{EqDecision A} (x : A) (l : list A) : option (list A) :=
  match l with
  | [] => None
  | y :: l' => if decide (x = y) then Some l' else cons y <$> list_remove x l'
  end.

(** Insertion-ordered dictionaries with string keys. *)
Section dict.
Context {V : Type}.

Fixpoint dict_get (k : string) (d : list (string * V)) : option V :=
  match d with
  | [] => None
  | (k', v) :: d' => if decide (k = k') then Some v else dict_get k d'
  end.

(** [d[k] = v]: an existing key keeps its position. *)
Fixpoint dict_set (k : string) (v : V) (d : list (string * V)) : list (string * V) :=
  match d with
  | [] => [(k, v)]
  | (k', v') :: d' =>
      if decide (k = k') then (k, v) :: d' else (k', v') :: dict_set k v d'
  end.

(** [list(d.keys())] *)
Definition dict_keys (d : list (string * V)) : list string := d.*1.
End dict.

(** [posixpath.join] *)
Definition starts_with_sep (s : string) : bool :=
  match s with
  | String c _ => bool_decide (c = "/"%char)
  | EmptyString => false
  end.

Fixpoint ends_with_sep (s : string) : bool :=
  match s with
  | EmptyString => false
  | String c EmptyString => bool_decide (c = "/"%char)
  | String _ rest => ends_with_sep rest
  end.

Definition path_join2 (path b : string) : string :=
  if starts_with_sep b then b
  else if bool_decide (path = "") || ends_with_sep path then path +:+ b
  else path +:+ "/" +:+ b.

Definition path_join (a : string) (p : list string) : string :=
  foldl path_join2 a p.

(** ** Data model *)

(** A builder object: its identity and the name of its target executor.
    The mutable rest of a builder (job handle, state, timer, result) lives
    in the external world, see [W] below.  The class of the builders
    defines no comparison, so [list.remove] and the sets compare builders
    by identity: [bid] is that identity, and two builders are equal when
    they are the same object.  The pool hands back a copy of the builder
    it was given; the model writes the copy as the builder itself, which
    is exact as long as a builder is submitted once, and makes the two
    copies of a builder that is submitted twice one object. *)
Record Builder := mkBuilder { bid : nat; executor : string }.

Global Instance Builder_eq_dec : EqDecision Builder.
Proof. solve_decision. Defined.

Global Instance Builder_countable : Countable Builder.
Proof.
  refine (inj_countable' (λ b, (bid b, executor b))
                         (λ p, mkBuilder p.1 p.2) _).
  by intros [].
Defined.

(** Exceptions that can leave [run] and [poll]. [ExecutorError] is the one
    this module raises itself; [ConfigurationError] is the other exception
    class of [buildtest.exceptions] the specification refers to; the
    others are raised by the built-in and library functions the module
    calls. *)
Inductive exn :=
| ExecutorError (msg : string)
| ConfigurationError (msg : string)
| ValueError (msg : string)
| TypeError (msg : string)
| AttributeError (msg : string)
| OverflowError (msg : string)
| OSError (msg : string).

Global Instance exn_eq_dec : EqDecision exn.
Proof. solve_decision. Defined.

(** The unit of work handed to the pool: [executor.run] or
    [executor.dispatch]. *)
Inductive Work := RunWork | DispatchWork.

Global Instance Work_eq_dec : EqDecision Work.
Proof. solve_decision. Defined.

(** A [multiprocessing.pool.AsyncResult]: [rid] is its identity, [ready_at]
    the time (in units of the [0.1]s timeout of [get]) from which [get]
    returns, and [task] what the worker returned. *)
Record AsyncResult := mkResult { rid : nat; ready_at : nat; task : option Builder }.

Global Instance AsyncResult_eq_dec : EqDecision AsyncResult.
Proof. solve_decision. Defined.

(** Result of a computation: a value, an exception, or the model's loop
    budget exhausted (the Python loop would still be running). *)
Inductive Res (A : Type) :=
| Done (a : A)
| Raise (e : exn)
| OutOfFuel.
Arguments Done {A} a.
Arguments Raise {A} e.
Arguments OutOfFuel {A}.

Section Model.

(** The value of the [module] key of an executor's settings. *)
Context {ModuleSetting : Type}.

(** Settings of one executor: the keys [setup] reads. *)
Record Settings := mkSettings {
  module_setting : option ModuleSetting;   (* settings.get("module") *)
  before_script : option string;           (* settings.get("before_script") *)
}.

(** An executor object.  [type] is the class attribute of the executor
    classes ("local", "slurm", "lsf", "pbs", "cobalt"); [ex_builders] is
    the list [add_builder] appends to. *)
Record Executor := mkExecutor {
  name : string;
  type : string;
  _settings : Settings;
  account : option string;
  maxpendtime : option Z;
  ex_builders : list Builder;
}.

(** [site_config.target_config]: [numprocs] is
    [target_config.get("numprocs")], [defaults_pollinterval] is
    [deep_get(target_config, "executors", "defaults", "pollinterval")]. *)
Record TargetConfig := mkTargetConfig {
  numprocs : option Z;
  defaults_pollinterval : option Z;
}.

(** [site_config.valid_executors]: per executor kind, name -> setting. *)
Record ValidExecutors := mkValidExecutors {
  ve_local : list (string * Settings);
  ve_slurm : list (string * Settings);
  ve_lsf : list (string * Settings);
  ve_pbs : list (string * Settings);
  ve_cobalt : list (string * Settings);
}.

Record SiteConfiguration := mkSiteConfiguration {
  target_config : TargetConfig;
  valid_executors : ValidExecutors;
}.

(** *** The object state *)

Record BuildExecutor := mkBuildExecutor {
  builders : list Builder;
  configuration : SiteConfiguration;
  pollinterval : Z;
  _completed : gset Builder;
  _cancelled : gset Builder;
  _pending : list Builder;
  _validbuilders : list Builder;
  executors : list (string * Executor);
}.

(** *** The file system [setup] writes to *)

Record FS := mkFS { dirs : gset string; files : gmap string string }.

(** Modelled from the spec: [buildtest.utils.file.create_dir] is not part
    of the sources; "directory creation is a no-op if present". *)
Definition create_dir (d : string) (fs : FS) : FS :=
  {| dirs := {[d]} ∪ dirs fs; files := files fs |}.

(** Modelled from the spec: [buildtest.utils.file.write_file] is not part
    of the sources; "file write overwrites deterministically". *)
Definition write_file (f content : string) (fs : FS) : FS :=
  {| dirs := dirs fs; files := <[f := content]> (files fs) |}.

(** *** Mutations of the tracking containers, and traces *)

Inductive Event :=
| Start
| AddBuilder (key : string) (b : Builder)     (* self.executors[key].add_builder(b) *)
| BuildersAppend (b : Builder)                (* self.builders.append(builder) *)
| PoolCreate (n : Z)                          (* mp.Pool(num_workers) *)
| ApplyAsync (wk : Work) (ex : string) (b : Builder)   (* workers.apply_async *)
| ValidAppend (b : Builder)                   (* self._validbuilders.append(task) *)
| PendingAppend (b : Builder)                 (* self._pending.append(builder) *)
| PendingRemove (b : Builder)                 (* self._pending.remove(builder) *)
| CompletedAdd (b : Builder)                  (* self._completed.add(builder) *)
| CancelledAdd (b : Builder)                  (* self._cancelled.add(builder) *)
| ValidRemove (b : Builder).                  (* self._validbuilders.remove(builder) *)

Global Instance Event_eq_dec : EqDecision Event.
Proof. solve_decision. Defined.

Definition set_builders l (s : BuildExecutor) :=
  mkBuildExecutor l (configuration s) (pollinterval s) (_completed s)
    (_cancelled s) (_pending s) (_validbuilders s) (executors s).
Definition set_completed c (s : BuildExecutor) :=
  mkBuildExecutor (builders s) (configuration s) (pollinterval s) c
    (_cancelled s) (_pending s) (_validbuilders s) (executors s).
Definition set_cancelled c (s : BuildExecutor) :=
  mkBuildExecutor (builders s) (configuration s) (pollinterval s)
    (_completed s) c (_pending s) (_validbuilders s) (executors s).
Definition set_pending l (s : BuildExecutor) :=
  mkBuildExecutor (builders s) (configuration s) (pollinterval s)
    (_completed s) (_cancelled s) l (_validbuilders s) (executors s).
Definition set_validbuilders l (s : BuildExecutor) :=
  mkBuildExecutor (builders s) (configuration s) (pollinterval s)
    (_completed s) (_cancelled s) (_pending s) l (executors s).
Definition set_executors d (s : BuildExecutor) :=
  mkBuildExecutor (builders s) (configuration s) (pollinterval s)
    (_completed s) (_cancelled s) (_pending s) (_validbuilders s) d.

(** Modelled from the spec: [BaseExecutor.add_builder] is not part of the
    sources; "record the builder under that backend". *)
Definition add_builder_to (b : Builder) (ex : Executor) : Executor :=
  mkExecutor (name ex) (type ex) (_settings ex) (account ex)
    (maxpendtime ex) (ex_builders ex ++ [b]).

Definition remove_error : exn := ValueError "list.remove(x): x not in list".

(** The effect of one mutation on the object state. *)
Definition apply_event (e : Event) (s : BuildExecutor) : exn + BuildExecutor :=
  match e with
  | Start | PoolCreate _ | ApplyAsync _ _ _ => inr s
  | AddBuilder k b =>
      match dict_get k (executors s) with
      | Some ex => inr (set_executors (dict_set k (add_builder_to b ex) (executors s)) s)
      | None => inr s
      end
  | BuildersAppend b => inr (set_builders (builders s ++ [b]) s)
  | ValidAppend b => inr (set_validbuilders (_validbuilders s ++ [b]) s)
  | PendingAppend b => inr (set_pending (_pending s ++ [b]) s)
  | PendingRemove b =>
      match list_remove b (_pending s) with
      | Some l => inr (set_pending l s)
      | None => inl remove_error
      end
  | CompletedAdd b => inr (set_completed ({[b]} ∪ _completed s) s)
  | CancelledAdd b => inr (set_cancelled ({[b]} ∪ _cancelled s) s)
  | ValidRemove b =>
      match list_remove b (_validbuilders s) with
      | Some l => inr (set_validbuilders l s)
      | None => inl remove_error
      end
  end.

(** One entry of a trace: the mutation and the state it leaves. *)
Record Entry := mkEntry { ev : Event; post : BuildExecutor }.

(** The state after a trace that started in [s]. *)
Definition final (s : BuildExecutor) (l : list Entry) : BuildExecutor :=
  post (List.last l (mkEntry Start s)).

(** Computations over the object state that record every mutation. *)
Definition M (A : Type) : Type := BuildExecutor → Res A * list Entry.

Definition ret {A} (a : A) : M A := λ _, (Done a, []).

Definition bind {A B} (m : M A) (f : A → M B) : M B :=
  λ s, match m s with
       | (Done a, l) => let '(r, l') := f a (final s l) in (r, l ++ l')
       | (Raise e, l) => (Raise e, l)
       | (OutOfFuel, l) => (OutOfFuel, l)
       end.

Definition raise {A} (e : exn) : M A := λ _, (Raise e, []).
Definition out_of_fuel {A} : M A := λ _, (OutOfFuel, []).
Definition get_self : M BuildExecutor := λ s, (Done s, []).

Definition emit (e : Event) : M unit :=
  λ s, match apply_event e s with
       | inr s' => (Done tt, [mkEntry e s'])
       | inl x => (Raise x, [])
       end.

Fixpoint for_each {A} (l : list A) (f : A → M unit) : M unit :=
  match l with
  | [] => ret tt
  | x :: l' => bind (f x) (λ _, for_each l' f)
  end.

End Model.

Notation "'let*' x := m 'in' k" := (bind m (λ x, k))
  (at level 10, x pattern, m at level 100, k at level 200).
Notation "m >> k" := (bind m (λ _, k))
  (at level 100, k at level 200, right associativity).

(** ** The methods of [BuildExecutor] *)

Section Orchestrator.

(** *** External collaborators *)

Context {ModuleSetting : Type}.
Local Abbreviation Settings := (@Settings ModuleSetting).
Local Abbreviation Executor := (@Executor ModuleSetting).
Local Abbreviation SiteConfiguration := (@SiteConfiguration ModuleSetting).
Local Abbreviation BuildExecutor := (@BuildExecutor ModuleSetting).
Local Abbreviation M := (@M ModuleSetting).

(** [buildtest.tools.modules.get_module_commands] *)
Variable get_module_commands : option ModuleSetting → list string.

(** [buildtest.defaults.BUILDTEST_EXECUTOR_DIR] *)
Variable BUILDTEST_EXECUTOR_DIR : string.

(** [os.cpu_count()]; [None] when it cannot be determined. *)
Variable cpu_count : option Z.

(** The state of the external world: scheduler queues and the mutable
    fields of the builders. *)
Context {W : Type}.

(** What [executor.run(builder)] / [executor.dispatch(builder)] return in
    the worker: the builder, or [None] when no job was produced. *)
Variable worker : Work → Executor → Builder → option Builder.

(** Time at which the [i]-th submitted unit of work has finished. *)
Variable latency : nat → nat.

(** [builder.is_batch_job()], [executor.poll(builder)],
    [builder.is_complete()], [builder.is_failure()]. *)
Variable is_batch_job : W → Builder → bool.
Variable exec_poll : Executor → Builder → W → W.
Variable is_complete : W → Builder → bool.
Variable is_failure : W → Builder → bool.

(** [names]: the executor names, in registration order. *)
Definition names (self : BuildExecutor) : list string :=
  dict_keys (executors self).

(** [get]: [self.executors.get(name)]. *)
Definition get (self : BuildExecutor) (nm : string) : option Executor :=
  dict_get nm (executors self).

Definition get_validbuilders (self : BuildExecutor) := _validbuilders self.
Definition cancelled (self : BuildExecutor) := _cancelled self.
Definition completed (self : BuildExecutor) := _completed self.

Definition not_an_executor : exn :=
  ExecutorError
    "None is not a valid executor because it is not of type BaseExecutor class.".

(** [_choose_executor]: every value of the registry is an instance of a
    subclass of [BaseExecutor], so the [isinstance] test fails exactly when
    [get] returned [None]. *)
Definition _choose_executor (builder : Builder) : M Executor :=
  let* self := get_self in
  match get self (executor builder) with
  | Some ex => ret ex
  | None => raise not_an_executor
  end.

(** The text [setup] writes for an executor with the given settings. *)
Definition script_content (executor_settings : Settings) : string :=
  let module_cmds := get_module_commands (module_setting executor_settings) in
  let content := "#!/bin/bash" +:+ nl in
  let content :=
    match module_cmds with
    | [] => content
    | _ => content +:+ join nl module_cmds +:+ nl
    end in
  content +:+ str_or_empty (before_script executor_settings).

Definition executor_dir (executor_name : string) : string :=
  path_join BUILDTEST_EXECUTOR_DIR [executor_name].

Definition script_path (executor_name : string) : string :=
  path_join BUILDTEST_EXECUTOR_DIR [executor_name; "before_script.sh"].

(** The body of the loop of [setup]. *)
Definition setup_step (self : BuildExecutor) (fs : FS) (executor_name : string) : FS :=
  match dict_get executor_name (executors self) with
  | Some ex =>
      let fs := create_dir (executor_dir executor_name) fs in
      let executor_settings := _settings ex in
      let file := script_path executor_name in
      write_file file (script_content executor_settings) fs
  | None => fs
  end.

(** [setup] *)
Definition setup (self : BuildExecutor) (fs : FS) : FS :=
  foldl (setup_step self) fs (names self).

(** One [for name in valid_executors[kind]] loop of [__init__], guarded by
    the truth value of the dictionary. *)
Definition register_kind (ty : string) (acct : option string) (mpt : option Z)
    (cfg : list (string * Settings)) (d : list (string * Executor)) :
    list (string * Executor) :=
  match cfg with
  | [] => d
  | _ => foldl (λ d kv, dict_set kv.1 (mkExecutor kv.1 ty kv.2 acct mpt []) d) d cfg
  end.

Definition default_interval : Z := 30.

(** The [pollinterval or deep_get(...) or default_interval] of [__init__]. *)
Definition choose_pollinterval (arg cfg : option Z) : Z :=
  match py_or (py_or arg cfg) (Some default_interval) with
  | Some n => n
  | None => default_interval
  end.

(** [__init__], up to the call of [setup]. *)
Definition init_state (site_config : SiteConfiguration)
    (account_arg : option string) (maxpendtime_arg pollinterval_arg : option Z) :
    BuildExecutor :=
  let ve := valid_executors site_config in
  let d := register_kind "local" None None (ve_local ve) [] in
  let d := register_kind "slurm" account_arg maxpendtime_arg (ve_slurm ve) d in
  let d := register_kind "lsf" account_arg maxpendtime_arg (ve_lsf ve) d in
  let d := register_kind "pbs" account_arg maxpendtime_arg (ve_pbs ve) d in
  let d := register_kind "cobalt" account_arg maxpendtime_arg (ve_cobalt ve) d in
  {| builders := [];
     configuration := site_config;
     pollinterval :=
       choose_pollinterval pollinterval_arg
         (defaults_pollinterval (target_config site_config));
     _completed := ∅;
     _cancelled := ∅;
     _pending := [];
     _validbuilders := [];
     executors := d |}.

(** [__init__]: the new object and the file system after [setup]. *)
Definition init (site_config : SiteConfiguration)
    (account_arg : option string) (maxpendtime_arg pollinterval_arg : option Z)
    (fs : FS) : BuildExecutor * FS :=
  let self := init_state site_config account_arg maxpendtime_arg pollinterval_arg in
  (self, setup self fs).

(** The two statements of [run] that compute the width of the pool.
    Without a count of the host, [min] compares [None] with the configured
    count, or with [None] when none is configured. *)
Definition compute_num_workers (cfg : TargetConfig) : exn + Z :=
  match py_or (numprocs cfg) cpu_count, cpu_count with
  | Some n, Some c => inr (Z.min n c)
  | Some _, None =>
      inl (TypeError "'<' not supported between instances of 'NoneType' and 'int'")
  | None, _ =>
      inl (TypeError
             "'<' not supported between instances of 'NoneType' and 'NoneType'")
  end.

(** [mp.Pool(processes)] refuses a width below one. *)
Definition Pool (processes : Z) : M unit :=
  if (processes <? 1)%Z
  then raise (ValueError "Number of processes must be at least 1")
  else emit (PoolCreate processes).

(** [workers.apply_async(f, args=(builder,))] for the [i]-th submission. *)
Definition apply_async (wk : Work) (ex : Executor) (builder : Builder) (i : nat) :
    M AsyncResult :=
  emit (ApplyAsync wk (name ex) builder) >>
  ret (mkResult i (latency i) (worker wk ex builder)).

(** First loop of [run]. *)
Definition assign (bs : list Builder) : M unit :=
  for_each bs (λ builder,
    let* ex := _choose_executor builder in
    emit (AddBuilder (executor builder) builder) >>
    emit (BuildersAppend builder)).

(** Second loop of [run]: one unit of work per builder. *)
Fixpoint submit (bs : list Builder) (results : list AsyncResult) :
    M (list AsyncResult) :=
  match bs with
  | [] => ret results
  | builder :: bs' =>
      let* ex := _choose_executor builder in
      let wk := if decide (type ex = "local") then RunWork else DispatchWork in
      let* result := apply_async wk ex builder (length results) in
      submit bs' (results ++ [result])
  end.

(** One pass of the [for result in results] loop: [result.get(0.1)] returns
    the task when the result is ready and raises [TimeoutError] otherwise;
    [clock] advances by one for every [get] that times out. *)
Fixpoint collect_pass (rs : list AsyncResult) (clock : nat)
    (async_results_ready : list AsyncResult) : M (nat * list AsyncResult) :=
  match rs with
  | [] => ret (clock, async_results_ready)
  | result :: rs' =>
      if decide (ready_at result ≤ clock)%nat then
        (match task result with
         | Some t => emit (ValidAppend t)
         | None => ret tt
         end) >>
        collect_pass rs' clock (async_results_ready ++ [result])
      else collect_pass rs' (S clock) async_results_ready
  end.

(** [for result in async_results_ready: results.remove(result)] *)
Fixpoint remove_ready (ready results : list AsyncResult) : exn + list AsyncResult :=
  match ready with
  | [] => inr results
  | r :: ready' =>
      match list_remove r results with
      | Some results' => remove_ready ready' results'
      | None => inl remove_error
      end
  end.

(** The [while results] loop. *)
Fixpoint collect (fuel : nat) (clock : nat) (results : list AsyncResult) : M unit :=
  match results with
  | [] => ret tt
  | _ =>
      match fuel with
      | 0 => out_of_fuel
      | S fuel' =>
          let* cr := collect_pass results clock [] in
          match remove_ready cr.2 results with
          | inr results' => collect fuel' cr.1 results'
          | inl e => raise e
          end
      end
  end.

(** Last loop of [run]: batch jobs become pending. *)
Definition partition (w : W) : M unit :=
  let* self := get_self in
  for_each (_validbuilders self) (λ builder,
    if is_batch_job w builder then emit (PendingAppend builder) else ret tt).

(** [run] *)
Definition run (w : W) (fuel : nat) (bs : list Builder) : M unit :=
  assign bs >>
  let* self := get_self in
  match compute_num_workers (target_config (configuration self)) with
  | inl e => raise e
  | inr num_workers =>
      Pool num_workers >>
      let* self := get_self in
      let* results := submit (builders self) [] in
      collect fuel 0 results >>
      partition w
  end.

(** The [for builder in self._pending] loop of [poll]: polls every pending
    builder and sorts it into [completed] or [cancelled]. *)
Fixpoint poll_scan (self : BuildExecutor) (bs : list Builder) (w : W)
    (cancelled completed : list Builder) :
    exn + (W * list Builder * list Builder) :=
  match bs with
  | [] => inr (w, cancelled, completed)
  | builder :: bs' =>
      match get self (executor builder) with
      | None => inl (AttributeError "'NoneType' object has no attribute 'poll'")
      | Some ex =>
          let w := exec_poll ex builder w in
          if is_complete w builder then
            poll_scan self bs' w cancelled (completed ++ [builder])
          else if is_failure w builder then
            poll_scan self bs' w (cancelled ++ [builder]) completed
          else poll_scan self bs' w cancelled completed
      end
  end.

(** Body of the [while self._pending] loop, after its [time.sleep] (for
    the sleep see [sleep_then_poll]).  The [print] and [print_pending_jobs]
    read the state and leave it as it is. *)
Definition poll_iteration (w : W) : M W :=
  let* self := get_self in
  match poll_scan self (_pending self) w [] [] with
  | inl e => raise e
  | inr (w', cancelled, completed) =>
      (match completed with
       | [] => ret tt
       | _ => for_each completed (λ builder,
                emit (PendingRemove builder) >>
                emit (CompletedAdd builder))
       end) >>
      (match cancelled with
       | [] => ret tt
       | _ => for_each cancelled (λ builder,
                emit (PendingRemove builder) >>
                emit (CancelledAdd builder) >>
                emit (ValidRemove builder))
       end) >>
      ret w'
  end.

(** The [while self._pending] loop. *)
Fixpoint poll_loop (fuel : nat) (w : W) : M W :=
  let* self := get_self in
  match _pending self with
  | [] => ret w
  | _ =>
      match fuel with
      | 0 => out_of_fuel
      | S fuel' => let* w' := poll_iteration w in poll_loop fuel' w'
      end
  end.

(** [poll]; the value is what the final [print] shows: the cancelled
    builders, when there are any. *)
Definition poll (fuel : nat) (w : W) : M (option (list Builder)) :=
  poll_loop fuel w >>
  let* self := get_self in
  ret (if decide (_cancelled self = ∅) then None
       else Some (elements (_cancelled self))).

(** A [run] followed by a [poll], as the callers of this class do. *)
Definition run_then_poll (w : W) (fuel : nat) (bs : list Builder)
    (fuel' : nat) (w' : W) : M (option (list Builder)) :=
  run w fuel bs >> poll fuel' w'.

(** The world in which [poll_scan] evaluates the predicates of [b]: the
    one left by the poll of [b], after the polls of the builders before
    it. *)
Fixpoint polled_world (self : BuildExecutor) (bs : list Builder) (w : W)
    (b : Builder) : option W :=
  match bs with
  | [] => None
  | builder :: bs' =>
      match get self (executor builder) with
      | None => None
      | Some ex =>
          let w := exec_poll ex builder w in
          if decide (builder = b) then Some w else polled_world self bs' w b
      end
  end.

End Orchestrator.

(** ** [poll] with its [time.sleep] *)

Section Sleeping.
Context {ModuleSetting W : Type}.
Local Abbreviation Executor := (@Executor ModuleSetting).
Local Abbreviation M := (@M ModuleSetting).
Variable cpu_count : option Z.
Variable worker : Work → Executor → Builder → option Builder.
Variable latency : nat → nat.
Variable is_batch_job : W → Builder → bool.
Variable exec_poll : Executor → Builder → W → W.
Variable is_complete : W → Builder → bool.
Variable is_failure : W → Builder → bool.

(** The lengths, in seconds, that the clock of the host refuses: a
    deadline it cannot represent makes the system call fail. *)
Variable host_refuses : Z → bool.

(** The largest number of nanoseconds the interpreter's 64-bit time
    holds. *)
Definition PyTime_MAX : Z := 9223372036854775807.

(** [time.sleep(secs)] for a whole number of seconds: a negative length is
    a [ValueError]; a length whose nanoseconds do not fit the interpreter's
    time is an [OverflowError]; a length the host refuses is an
    [OSError]; any other length is slept. *)
Definition sleep (secs : Z) : M unit :=
  if (secs <? 0)%Z
  then raise (ValueError "sleep length must be non-negative")
  else if (PyTime_MAX <? secs * 1000000000)%Z
  then raise (OverflowError "timestamp too large to convert to C _PyTime_t")
  else if host_refuses secs
  then raise (OSError "[Errno 22] Invalid argument")
  else ret tt.

(** The body of the [while self._pending] loop, with the [time.sleep] it
    starts with. *)
Definition sleep_then_poll (w : W) : M W :=
  let* self := get_self in
  sleep (pollinterval self) >>
  poll_iteration exec_poll is_complete is_failure w.

(** The [while self._pending] loop, with its [time.sleep]. *)
Fixpoint poll_loop_sleeping (fuel : nat) (w : W) : M W :=
  let* self := get_self in
  match _pending self with
  | [] => ret w
  | _ =>
      match fuel with
      | 0 => out_of_fuel
      | S fuel' => let* w' := sleep_then_poll w in poll_loop_sleeping fuel' w'
      end
  end.

(** [poll], with its [time.sleep]. *)
Definition poll_sleeping (fuel : nat) (w : W) : M (option (list Builder)) :=
  poll_loop_sleeping fuel w >>
  let* self := get_self in
  ret (if decide (_cancelled self = ∅) then None
       else Some (elements (_cancelled self))).

(** A [run] followed by a [poll] with its [time.sleep]. *)
Definition run_then_poll_sleeping (w : W) (fuel : nat) (bs : list Builder)
    (fuel' : nat) (w' : W) : M (option (list Builder)) :=
  run cpu_count worker latency is_batch_job w fuel bs >> poll_sleeping fuel' w'.

(** The world and the state with which iteration [k] of the
    [while self._pending] loop starts, when the loop started with [w] in
    [s] gets that far. *)
Fixpoint iteration_head (k : nat) (w : W) (s : @BuildExecutor ModuleSetting) :
    option (W * @BuildExecutor ModuleSetting) :=
  match k with
  | 0 => Some (w, s)
  | S k' =>
      match _pending s with
      | [] => None
      | _ =>
          match sleep_then_poll w s with
          | (Done w', l) => iteration_head k' w' (final s l)
          | _ => None
          end
      end
  end.
End Sleeping.

(** ** Specification vocabulary *)

Section Vocabulary.
Context {ModuleSetting : Type}.
Local Abbreviation BuildExecutor := (@BuildExecutor ModuleSetting).
Local Abbreviation Entry := (@Entry ModuleSetting).
Local Abbreviation M := (@M ModuleSetting).

(** The entry that stands for the state [s] before anything happened. *)
Definition start (s : BuildExecutor) : Entry := mkEntry Start s.

(** The last entry of a trace that extends [e]. *)
Definition last_entry (e : Entry) (l : list Entry) : Entry := List.last l e.

(** Every two consecutive entries of [e :: l] are related by [R]. *)
Fixpoint chain (R : Entry → Entry → Prop) (e : Entry) (l : list Entry) : Prop :=
  match l with
  | [] => True
  | e' :: l' => R e e' ∧ chain R e' l'
  end.

(** Partial correctness of a computation, with a relation [R] that every
    step of its trace satisfies, a set [E] of exceptions it may raise, and a
    condition [X] on the entry at which it stops when it does not return. *)
Definition triple {A} (R : Entry → Entry → Prop) (E : exn → Prop)
    (X : Entry → Prop) (P : Entry → Prop) (m : M A) (Q : A → Entry → Prop) : Prop :=
  ∀ e, P e →
    chain R e (m (post e)).2 ∧
    match (m (post e)).1 with
    | Done a => Q a (last_entry e (m (post e)).2)
    | Raise x => E x ∧ X (last_entry e (m (post e)).2)
    | OutOfFuel => X (last_entry e (m (post e)).2)
    end.

(** A builder is in at most one of the three tracking sets. *)
Definition at_most_one (s : BuildExecutor) (b : Builder) : Prop :=
  ¬ (b ∈ _pending s ∧ b ∈ _completed s) ∧
  ¬ (b ∈ _pending s ∧ b ∈ _cancelled s) ∧
  ¬ (b ∈ _completed s ∧ b ∈ _cancelled s).

(** A builder is in none of the tracking containers. *)
Definition untracked (s : BuildExecutor) (b : Builder) : Prop :=
  (b ∉ _validbuilders s) ∧ (b ∉ _pending s) ∧ (b ∉ _completed s) ∧ (b ∉ _cancelled s).

(** The pending list of [e'] is the one of [e] with some members dropped. *)
Definition pending_shrinks (e e' : Entry) : Prop :=
  _pending (post e') `sublist_of` _pending (post e).

(** The membership changes one step may make: [completed] and [cancelled]
    only grow; a builder enters [pending] only from outside the three sets;
    it leaves [pending] with a [remove] (and is then in none of the sets);
    it enters [completed] or [cancelled] only in the step after the
    [remove] that took it out of [pending]. *)
Definition lifecycle_step (e e' : Entry) : Prop :=
  let s := post e in
  let s' := post e' in
  (∀ b, b ∈ _completed s → b ∈ _completed s') ∧
  (∀ b, b ∈ _cancelled s → b ∈ _cancelled s') ∧
  (∀ b, b ∈ _pending s' → b ∉ _pending s →
        ev e' = PendingAppend b ∧ (b ∉ _completed s) ∧ (b ∉ _cancelled s)) ∧
  (∀ b, b ∈ _pending s → b ∉ _pending s' →
        ev e' = PendingRemove b ∧ (b ∉ _completed s') ∧ (b ∉ _cancelled s')) ∧
  (∀ b, ev e = PendingRemove b →
        ev e' = CompletedAdd b ∨ ev e' = CancelledAdd b) ∧
  (∀ b, b ∈ _completed s' → b ∉ _completed s →
        ev e' = CompletedAdd b ∧ ev e = PendingRemove b) ∧
  (∀ b, b ∈ _cancelled s' → b ∉ _cancelled s →
        ev e' = CancelledAdd b ∧ ev e = PendingRemove b).

(** No move of a builder is under way after this event. *)
Definition quiescent (e : Event) : Prop :=
  match e with
  | PendingRemove _ | CancelledAdd _ => False
  | _ => True
  end.

(** Which event may follow which: [remove] from pending is followed by the
    [add] to one of the sets, the [add] to cancelled by the [remove] from
    the valid builders, and these three occur nowhere else. *)
Definition follows (a b : Event) : Prop :=
  match a with
  | PendingRemove x => b = CompletedAdd x ∨ b = CancelledAdd x
  | CancelledAdd x => b = ValidRemove x
  | _ => match b with
         | CompletedAdd _ | CancelledAdd _ | ValidRemove _ => False
         | _ => True
         end
  end.

(** The invariant of the tracking containers. *)
Definition Inv (s : BuildExecutor) : Prop :=
  NoDup (_validbuilders s) ∧
  NoDup (_pending s) ∧
  (∀ b, b ∈ _pending s → b ∈ _validbuilders s) ∧
  (∀ b, at_most_one s b).

(** One well-behaved step: it is the effect of its event, keeps the
    invariant, respects the order of events, and appends to [pending] only
    a builder that is in no tracking set. *)
Definition good_step (e e' : Entry) : Prop :=
  apply_event (ev e') (post e) = inr (post e') ∧
  Inv (post e) ∧
  Inv (post e') ∧
  follows (ev e) (ev e') ∧
  (∀ b, ev e' = PendingAppend b →
        (b ∉ _pending (post e)) ∧ (b ∉ _completed (post e)) ∧ (b ∉ _cancelled (post e))).

(** Number of times an event occurs in a trace. *)
Definition occurrences (x : Event) (l : list Entry) : nat :=
  length (filter (λ e, ev e = x) l).


(** *** Conditions used by the proofs *)

(** A step that is not an append to [pending] and leaves it a sublist. *)
Definition shrink_step (e e' : Entry) : Prop :=
  pending_shrinks e e' ∧ ∀ b, ev e' ≠ PendingAppend b.

(** No condition on an exception, on an entry. *)
Definition any_exn (x : exn) : Prop := True.
Definition anywhere (e : Entry) : Prop := True.

(** No exception, no entry. *)
Definition never_exn (x : exn) : Prop := False.
Definition nowhere (e : Entry) : Prop := False.

(** May be raised: anything but the [ValueError] of a failed [remove]. *)
Definition no_remove_error (x : exn) : Prop := x ≠ remove_error.

(** Between two moves, with the invariant. *)
Definition stable (e : Entry) : Prop := quiescent (ev e) ∧ Inv (post e).

(** The same tracking containers. *)
Definition same_tracking (s s' : BuildExecutor) : Prop :=
  _validbuilders s' = _validbuilders s ∧ _pending s' = _pending s ∧
  _completed s' = _completed s ∧ _cancelled s' = _cancelled s.

(** The contract of the backends: a unit of work returns the builder it
    was given, or nothing. *)
Definition returns_own_builder
    (worker : Work → @Executor ModuleSetting → Builder → option Builder) : Prop :=
  ∀ wk ex b t, worker wk ex b = Some t → t = b.

(** Nothing is pending, completed or cancelled. *)
Definition unpolled (s : BuildExecutor) : Prop :=
  _pending s = [] ∧ _completed s = ∅ ∧ _cancelled s = ∅.

(** No builder is tracked at all. *)
Definition fresh_tracking (s : BuildExecutor) : Prop :=
  unpolled s ∧ _validbuilders s = [].

(** Events that leave the tracking containers alone. *)
Definition neutral (x : Event) : Prop :=
  match x with
  | Start | AddBuilder _ _ | BuildersAppend _ | PoolCreate _ | ApplyAsync _ _ _ => True
  | _ => False
  end.

(** The events of the first loop of [run]. *)
Definition assignment (c : Event) : Prop :=
  match c with
  | AddBuilder _ _ | BuildersAppend _ => True
  | _ => False
  end.

(** The executor of [b], if registered, is not the local one. *)
Definition asynchronous (b : Builder) (s : BuildExecutor) : Prop :=
  ∀ ex, get s (executor b) = Some ex → type ex ≠ "local".

Definition untracked_step (b : Builder) (e e' : Entry) : Prop :=
  untracked (post e') b.
Definition untracked_at (b : Builder) (e : Entry) : Prop :=
  untracked (post e) b.
Definition dropped_at (b : Builder) (e : Entry) : Prop :=
  untracked (post e) b ∧ asynchronous b (post e).

(** The builder an event puts into a tracking container. *)
Definition added (c : Event) : option Builder :=
  match c with
  | ValidAppend x | PendingAppend x | CompletedAdd x | CancelledAdd x => Some x
  | _ => None
  end.

(** The width [run] computes for the configuration [tc]: the configured
    or default count [k], the count [c] of the host, and their minimum. *)
Definition width_of (cpu_count : option Z) (tc : TargetConfig) (n : Z) : Prop :=
  ∃ k c, py_or (numprocs tc) cpu_count = Some k ∧ cpu_count = Some c ∧
         n = Z.min k c.

(** A step that creates a pool creates it with the computed width, which
    is at least one; no step changes the configuration. *)
Definition pool_step (cpu_count : option Z) (e e' : Entry) : Prop :=
  configuration (post e') = configuration (post e) ∧
  ∀ n, ev e' = PoolCreate n →
       width_of cpu_count (target_config (configuration (post e))) n ∧ (1 ≤ n)%Z.

(** Writing a list of bindings in order: the last one wins. *)
Definition write_all `{Countable K} {V : Type} (m : gmap K V) (ws : list (K * V)) :
    gmap K V :=
  foldl (λ m kv, <[kv.1 := kv.2]> m) m ws.

(** The script of the specification: the shebang line, the module
    commands, one per line, when there are any, and the text of
    [before_script], empty when absent. *)
Definition shebang_modules_before
    (get_module_commands : option ModuleSetting → list string)
    (st : @Settings ModuleSetting) : string :=
  ("#!/bin/bash" +:+ nl) +:+
  (match get_module_commands (module_setting st) with
   | [] => ""
   | cmds => join nl cmds +:+ nl
   end) +:+
  str_or_empty (before_script st).

(** What [setup] writes, and which directories it creates, for a list of
    names. *)
Definition writes (get_module_commands : option ModuleSetting → list string)
    (dir : string) (s : BuildExecutor) (ns : list string) : list (string * string) :=
  omap (λ nm, (λ ex, (script_path dir nm,
                      script_content get_module_commands (_settings ex)))
                <$> dict_get nm (executors s)) ns.

Definition created (dir : string) (s : BuildExecutor) (ns : list string) :
    list string :=
  omap (λ nm, (λ _, executor_dir dir nm) <$> dict_get nm (executors s)) ns.

(** The lengths [time.sleep] sleeps: not negative, within the
    interpreter's time, and not refused by the host. *)
Definition sleepable (host_refuses : Z → bool) (secs : Z) : Prop :=
  (0 ≤ secs)%Z ∧ (secs * 1000000000 ≤ PyTime_MAX)%Z ∧ host_refuses secs = false.

(** A state from which an iteration of the loop of [poll] goes well: the
    invariant holds, the executors of the pending builders are registered,
    and the poll interval is slept. *)
Definition ready (host_refuses : Z → bool) (s : BuildExecutor) : Prop :=
  Inv s ∧ (∀ x, x ∈ _pending s → is_Some (get s (executor x))) ∧
  sleepable host_refuses (pollinterval s).

(** The computation returns or raises in [s]: the budget of the model's
    loops was enough. *)
Definition returns {A} (m : M A) (s : BuildExecutor) : Prop :=
  (m s).1 ≠ OutOfFuel.

(** What is left to wait for at time [clock]: for every result one [get],
    and the time until it is ready. *)
Definition waiting (clock : nat) (rs : list AsyncResult) : nat :=
  sum_list_with (λ r, S (ready_at r - clock)) rs.

(** A budget that is enough to collect [n] submissions. *)
Definition run_fuel (latency : nat → nat) (n : nat) : nat :=
  S (sum_list_with (λ i, S (latency i)) (seq 0 n)).

(** *** The registry, the submissions and the moves of [poll] *)

(** The five registration loops of [__init__], in the order in which they
    run: the [type] of the executor class, the [account] and [maxpendtime]
    its constructor is given, and the executors configured for the kind. *)
Definition kinds (site_config : @SiteConfiguration ModuleSetting)
    (account_arg : option string) (maxpendtime_arg : option Z) :
    list (string * option string * option Z * list (string * @Settings ModuleSetting)) :=
  let ve := valid_executors site_config in
  [("local"%string, None, None, ve_local ve);
   ("slurm"%string, account_arg, maxpendtime_arg, ve_slurm ve);
   ("lsf"%string, account_arg, maxpendtime_arg, ve_lsf ve);
   ("pbs"%string, account_arg, maxpendtime_arg, ve_pbs ve);
   ("cobalt"%string, account_arg, maxpendtime_arg, ve_cobalt ve)].

(** The names a kind configures. *)
Definition kind_names
    (k : string * option string * option Z * list (string * @Settings ModuleSetting)) :
    list string := k.2.*1.

(** One registration loop, for a kind given as a tuple. *)
Definition register
    (d : list (string * @Executor ModuleSetting))
    (k : string * option string * option Z * list (string * @Settings ModuleSetting)) :
    list (string * Executor) :=
  register_kind k.1.1.1 k.1.1.2 k.1.2 k.2 d.

(** The unit of work [run] submits for a builder of the executor [ex]:
    [executor.run] for a local executor, [executor.dispatch] otherwise. *)
Definition work_of (ex : @Executor ModuleSetting) : Work :=
  if decide (type ex = "local"%string) then RunWork else DispatchWork.

(** The submissions a trace records, in order. *)
Definition submissions (l : list Entry) : list (Work * string * Builder) :=
  omap (λ e, match ev e with
             | ApplyAsync wk k b => Some (wk, k, b)
             | _ => None
             end) l.

(** What the unit of work of [b] returns in the worker, with the registry
    of [s]. *)
Definition outcome (worker : Work → @Executor ModuleSetting → Builder → option Builder)
    (s : BuildExecutor) (b : Builder) : option Builder :=
  match get s (executor b) with
  | Some ex => worker (work_of ex) ex b
  | None => None
  end.

(** A step that leaves the configuration, the poll interval and the names
    of the registry as they are. *)
Definition settings_step (e e' : Entry) : Prop :=
  configuration (post e') = configuration (post e) ∧
  pollinterval (post e') = pollinterval (post e) ∧
  names (post e') = names (post e).

(** The events of [poll]. *)
Definition move (c : Event) : Prop :=
  match c with
  | PendingRemove _ | CompletedAdd _ | CancelledAdd _ | ValidRemove _ => True
  | _ => False
  end.

(** A well-behaved step of [poll]. *)
Definition poll_step (e e' : Entry) : Prop :=
  good_step e e' ∧ move (ev e').

(** The builder [b] is at rest, in the containers that [v], [c] and [k]
    say: it is not pending and no move of it is under way. *)
Definition settled (b : Builder) (v c k : Prop) (e : Entry) : Prop :=
  (b ∉ _pending (post e)) ∧
  ev e ≠ PendingRemove b ∧ ev e ≠ CancelledAdd b ∧
  (b ∈ _validbuilders (post e) ↔ v) ∧
  (b ∈ _completed (post e) ↔ c) ∧
  (b ∈ _cancelled (post e) ↔ k).

(** The stages of a builder that was pending: still pending; removed from
    the pending ones; completed; added to the cancelled ones; cancelled. *)
Definition stage (b : Builder) (e : Entry) : Prop :=
  (b ∈ _pending (post e) ∧ b ∈ _validbuilders (post e) ∧
   (b ∉ _completed (post e)) ∧ (b ∉ _cancelled (post e))) ∨
  (ev e = PendingRemove b ∧ (b ∉ _pending (post e)) ∧
   b ∈ _validbuilders (post e) ∧
   (b ∉ _completed (post e)) ∧ (b ∉ _cancelled (post e))) ∨
  settled b True True False e ∨
  (ev e = CancelledAdd b ∧ (b ∉ _pending (post e)) ∧
   b ∈ _validbuilders (post e) ∧
   (b ∉ _completed (post e)) ∧ b ∈ _cancelled (post e)) ∨
  settled b False False True e.

End Vocabulary.

(** ** A small site, for the examples *)

(** Module settings are the names of the modules to load. *)
Definition demo_module_commands (m : option (list string)) : list string :=
  match m with
  | Some l => (λ x, "module load " +:+ x) <$> l
  | None => []
  end.

Definition demo_dir : string := "/var/executors".

Definition local_bash : string := "generic.local.bash".
Definition slurm_debug : string := "generic.slurm.debug".

(** One local executor with a [before_script], one slurm executor that
    loads two modules. *)
Definition demo_config (np interval : option Z) : @SiteConfiguration (list string) :=
  mkSiteConfiguration
    (mkTargetConfig np interval)
    (mkValidExecutors
       [(local_bash, mkSettings None (Some "export A=1"))]
       [(slurm_debug, mkSettings (Some ["gcc"; "openmpi"]) None)]
       [] [] []).

(** The backends return the builder; the dispatch of builder 13 fails. *)
Definition demo_worker (wk : Work) (ex : @Executor (list string)) (b : Builder) :
    option Builder :=
  if decide (bid b = 13) then None else Some b.

(** Later submissions finish earlier. *)
Definition demo_latency (i : nat) : nat := 5 - i.

(** The world is the number of polls made so far: a builder with an even
    identity is complete, one with an identity divisible by three has
    failed, once that many polls were made. *)
Definition demo_is_batch_job (w : nat) (b : Builder) : bool :=
  bool_decide (executor b ≠ local_bash).
Definition demo_poll (ex : @Executor (list string)) (b : Builder) (w : nat) : nat :=
  S w.
Definition demo_is_complete (w : nat) (b : Builder) : bool :=
  Nat.even (bid b) && Nat.leb (bid b) w.
Definition demo_is_failure (w : nat) (b : Builder) : bool :=
  Nat.eqb (Nat.modulo (bid b) 3) 0 && Nat.leb (bid b) w.

Definition demo_builders : list Builder :=
  [mkBuilder 1 local_bash; mkBuilder 2 slurm_debug; mkBuilder 3 slurm_debug;
   mkBuilder 6 slurm_debug; mkBuilder 13 slurm_debug].

(** A new orchestrator for the demo site, two workers configured. *)
Definition demo_self : @BuildExecutor (list string) :=
  init_state (demo_config (Some 2%Z) None) None None None.

(** [run] then [poll] on a host with eight execution units. *)
Definition demo_run_then_poll : M (option (list Builder)) :=
  run_then_poll (Some 8%Z) demo_worker demo_latency demo_is_batch_job
    demo_poll demo_is_complete demo_is_failure 0 20 demo_builders 20 0.

(** A state in the middle of polling: builder 6 is pending. *)
Definition demo_polling : @BuildExecutor (list string) :=
  set_validbuilders [mkBuilder 6 slurm_debug; mkBuilder 1 local_bash]
    (set_pending [mkBuilder 6 slurm_debug] demo_self).

(** A site where the name [shared] is configured as a local and as a pbs
    executor. *)
Definition demo_clash_config : @SiteConfiguration (list string) :=
  mkSiteConfiguration
    (mkTargetConfig None None)
    (mkValidExecutors
       [("shared", mkSettings None (Some "export A=1"))]
       [] []
       [("shared", mkSettings (Some ["gcc"]) None)]
       []).

(** A new orchestrator whose configuration asks for a negative number of
    processes. *)
Definition demo_negative : @BuildExecutor (list string) :=
  init_state (demo_config (Some (-1)%Z) None) None None None.

(** A pending builder whose executor is not registered. *)
Definition demo_ghost_pending : @BuildExecutor (list string) :=
  set_pending [mkBuilder 7 "ghost"] demo_self.

(** A pending builder that is not a valid builder. *)
Definition demo_lost : @BuildExecutor (list string) :=
  set_pending [mkBuilder 3 slurm_debug] demo_self.

(** A host that refuses to sleep for more than a hundred years. *)
Definition demo_refuses (secs : Z) : bool := (3155760000 <? secs)%Z.

(** [run] then [poll], with its sleeps, on that host. *)
Definition demo_run_then_poll_sleeping : M (option (list Builder)) :=
  run_then_poll_sleeping (Some 8%Z) demo_worker demo_latency demo_is_batch_job
    demo_poll demo_is_complete demo_is_failure demo_refuses
    0 20 demo_builders 20 0.

(** Two rounds on one orchestrator: builder 2 is run and polled, then
    builder 4 is. *)
Definition demo_first_round : M (option (list Builder)) :=
  run_then_poll (Some 8%Z) demo_worker demo_latency demo_is_batch_job
    demo_poll demo_is_complete demo_is_failure
    0 20 [mkBuilder 2 slurm_debug] 20 10.
Definition demo_second_round : M (option (list Builder)) :=
  run_then_poll (Some 8%Z) demo_worker demo_latency demo_is_batch_job
    demo_poll demo_is_complete demo_is_failure
    0 20 [mkBuilder 4 slurm_debug] 20 10.

(** [run] is called twice, the second time with no new builder, before
    [poll] is. *)
Definition demo_run_twice_then_poll : M (option (list Builder)) :=
  run (Some 8%Z) demo_worker demo_latency demo_is_batch_job 0 20
    [mkBuilder 3 slurm_debug] >>
  run_then_poll_sleeping (Some 8%Z) demo_worker demo_latency demo_is_batch_job
    demo_poll demo_is_complete demo_is_failure demo_refuses 0 20 [] 20 10.

(** An empty file system. *)
Definition empty_fs : FS := mkFS ∅ ∅.

(** * Proofs *)


(** ** [list.remove] *)

Section list_remove.
Context `{EqDecision A}.
Implicit Types (x y : A) (l k : list A).

Lemma list_remove_Some x l k :
  list_remove x l = Some k →
  ∃ l1 l2, l = l1 ++ x :: l2 ∧ k = l1 ++ l2 ∧ x ∉ l1.
Proof.
  revert k. induction l as [|y l IH]; intros k; simpl; [done|].
  destruct (decide (x = y)) as [->|Hne].
  - intros [= <-]. exists [], l. split_and!; [done..|]. apply not_elem_of_nil.
  - destruct (list_remove x l) as [k'|] eqn:Hr; simpl; [|done].
    intros [= <-]. destruct (IH k' eq_refl) as (l1 & l2 & -> & -> & Hx).
    exists (y :: l1), l2. split_and!; [done..|].
    rewrite not_elem_of_cons. done.
Qed.

Lemma list_remove_is_Some x l : x ∈ l → is_Some (list_remove x l).
Proof.
  induction l as [|y l IH]; simpl.
  - by intros ?%elem_of_nil.
  - destruct (decide (x = y)); [by eauto|].
    intros [?|Hin]%elem_of_cons; [done|].
    destruct (IH Hin) as [k ->]. by eauto.
Qed.

Lemma list_remove_None x l : list_remove x l = None → x ∉ l.
Proof.
  intros Hn Hin. destruct (list_remove_is_Some x l Hin) as [k Hk]. congruence.
Qed.

Lemma list_remove_Permutation x l k : list_remove x l = Some k → l ≡ₚ x :: k.
Proof.
  intros (l1 & l2 & -> & -> & _)%list_remove_Some.
  by rewrite Permutation_middle.
Qed.

Lemma list_remove_sublist x l k : list_remove x l = Some k → k `sublist_of` l.
Proof.
  intros (l1 & l2 & -> & -> & _)%list_remove_Some.
  apply sublist_app; [done|]. by apply sublist_cons.
Qed.

Lemma list_remove_elem_of x l k y :
  list_remove x l = Some k → y ∈ k → y ∈ l.
Proof. intros Hr Hy. eapply elem_of_sublist; [done|]. by eapply list_remove_sublist. Qed.

Lemma list_remove_elem_of_ne x l k y :
  list_remove x l = Some k → y ≠ x → y ∈ l → y ∈ k.
Proof.
  intros Hr%list_remove_Permutation Hne Hy. rewrite Hr in Hy.
  apply elem_of_cons in Hy as [?|?]; done.
Qed.

Lemma list_remove_NoDup x l k :
  list_remove x l = Some k → NoDup l → NoDup k ∧ x ∉ k.
Proof.
  intros Hr%list_remove_Permutation Hnd. rewrite Hr in Hnd.
  apply NoDup_cons in Hnd as [? ?]. done.
Qed.
End list_remove.

(** ** Traces and the program logic *)

Section logic.
Context {ModuleSetting : Type}.
Local Abbreviation BuildExecutor := (@BuildExecutor ModuleSetting).
Local Abbreviation Entry := (@Entry ModuleSetting).
Local Abbreviation stable := (@stable ModuleSetting).
Local Abbreviation anywhere := (@anywhere ModuleSetting).
Local Abbreviation nowhere := (@nowhere ModuleSetting).
Local Abbreviation good_step := (@good_step ModuleSetting).
Local Abbreviation shrink_step := (@shrink_step ModuleSetting).
Local Abbreviation M := (@M ModuleSetting).
Implicit Types (e : Entry) (l : list Entry) (s : BuildExecutor).
Implicit Types (R : Entry → Entry → Prop) (E : exn → Prop) (X P : Entry → Prop).

Lemma last_entry_nil e : last_entry e [] = e.
Proof. done. Qed.

Lemma last_entry_app e l l' :
  last_entry e (l ++ l') = last_entry (last_entry e l) l'.
Proof.
  unfold last_entry. destruct l' as [|e' l'] using rev_ind.
  - by rewrite app_nil_r.
  - by rewrite app_assoc, !last_last.
Qed.

Lemma last_entry_post e e0 l :
  post e = post e0 → post (last_entry e l) = post (last_entry e0 l).
Proof.
  unfold last_entry. destruct l as [|e' l] using rev_ind; [done|].
  by rewrite !last_last.
Qed.

Lemma final_last_entry e l : final (post e) l = post (last_entry e l).
Proof. unfold final. by apply (last_entry_post (mkEntry Start (post e)) e). Qed.

Lemma final_nil s : final s [] = s.
Proof. done. Qed.

Lemma final_app s l l' : final s (l ++ l') = final (final s l) l'.
Proof.
  change (final s (l ++ l')) with (post (last_entry (start s) (l ++ l'))).
  by rewrite last_entry_app, <-final_last_entry.
Qed.

Lemma chain_app R e l l' :
  chain R e (l ++ l') ↔ chain R e l ∧ chain R (last_entry e l) l'.
Proof.
  revert e. induction l as [|e' l IH]; intros e.
  - simpl. tauto.
  - assert (last_entry e (e' :: l) = last_entry e' l) as ->
      by apply (last_entry_app e [e'] l).
    cbn [chain app]. rewrite IH. tauto.
Qed.

Lemma chain_impl R R' e l :
  (∀ e1 e2, R e1 e2 → R' e1 e2) → chain R e l → chain R' e l.
Proof.
  intros HR. revert e. induction l as [|e' l IH]; intros e; simpl; [done|].
  intros [? ?]. eauto.
Qed.

Lemma chain_and R R' e l :
  chain R e l → chain R' e l → chain (λ e1 e2, R e1 e2 ∧ R' e1 e2) e l.
Proof.
  revert e. induction l as [|e' l IH]; intros e; simpl; [done|].
  intros [? ?] [? ?]. eauto.
Qed.

Lemma chain_post_eq R e e0 l :
  (∀ e1 e2, R e1 e2 → ∀ e1', post e1' = post e1 → ev e1' = ev e1 → R e1' e2) →
  post e = post e0 → ev e = ev e0 → chain R e l → chain R e0 l.
Proof. intros HR Hp He. destruct l; simpl; [done|]. intros [? ?]. split; eauto. Qed.

(** *** Rules *)

Lemma triple_ret {A} R E X P (a : A) (Q : A → Entry → Prop) :
  (∀ e, P e → Q a e) → triple R E X P (ret a) Q.
Proof. intros HQ e HP. simpl. split; [done|]. by apply HQ. Qed.

Lemma triple_raise {A} R E X P x (Q : A → Entry → Prop) :
  (∀ e, P e → E x ∧ X e) → triple R E X P (raise x) Q.
Proof. intros HQ e HP. simpl. split; [done|]. by apply HQ. Qed.

Lemma triple_out_of_fuel {A} R E X P (Q : A → Entry → Prop) :
  (∀ e, P e → X e) → triple R E X P out_of_fuel Q.
Proof. intros HQ e HP. simpl. split; [done|]. by apply HQ. Qed.

Lemma triple_bind {A B} R E X P (m : M A) (f : A → M B) Q1 Q2 :
  triple R E X P m Q1 →
  (∀ a, triple R E X (Q1 a) (f a) Q2) →
  triple R E X P (bind m f) Q2.
Proof.
  intros Hm Hf e HP. destruct (Hm e HP) as [Hc Hr]. unfold bind.
  destruct (m (post e)) as [[a| |] l]; simpl in *; [|done..].
  rewrite final_last_entry.
  destruct (Hf a _ Hr) as [Hc' Hr'].
  destruct (f a (post (last_entry e l))) as [r l']; simpl in *.
  rewrite chain_app, last_entry_app. done.
Qed.

Lemma triple_conseq {A} R E X P P' (m : M A) (Q Q' : A → Entry → Prop) :
  triple R E X P m Q →
  (∀ e, P' e → P e) → (∀ a e, Q a e → Q' a e) →
  triple R E X P' m Q'.
Proof.
  intros Hm HP HQ e He. destruct (Hm e (HP e He)) as [Hc Hr]. split; [done|].
  destruct (m (post e)).1; eauto.
Qed.

Lemma triple_get_self {A} R E X P (f : BuildExecutor → M A) Q :
  (∀ s, triple R E X (λ e, P e ∧ post e = s) (f s) Q) →
  triple R E X P (bind get_self f) Q.
Proof.
  intros Hf. apply triple_bind with (Q1 := λ s e, P e ∧ post e = s); [|done].
  intros e HP. simpl. done.
Qed.

Lemma triple_emit R E X P x (Q : unit → Entry → Prop) :
  (∀ e, P e →
     match apply_event x (post e) with
     | inr s' => R e (mkEntry x s') ∧ Q tt (mkEntry x s')
     | inl y => E y ∧ X e
     end) →
  triple R E X P (emit x) Q.
Proof.
  intros H e HP. specialize (H e HP). unfold emit.
  destruct (apply_event x (post e)); simpl; tauto.
Qed.

Lemma triple_for_each {A} R E X (I : list A → Entry → Prop) (f : A → M unit)
    (xs : list A) :
  (∀ x rest, triple R E X (I (x :: rest)) (f x) (λ _, I rest)) →
  triple R E X (I xs) (for_each xs f) (λ _, I []).
Proof.
  intros Hf. induction xs as [|x xs IH]; simpl.
  - by apply triple_ret.
  - eapply triple_bind; [apply Hf|]. intros ?. apply IH.
Qed.

(** The trace of a computation is a chain of steps whenever the triple
    holds; a convenient way to use a triple. *)
Lemma triple_elim {A} R E X P (m : M A) Q s :
  triple R E X P m Q → P (start s) →
  chain R (start s) (m s).2 ∧
  match (m s).1 with
  | Done a => Q a (last_entry (start s) (m s).2)
  | Raise x => E x ∧ X (last_entry (start s) (m s).2)
  | OutOfFuel => X (last_entry (start s) (m s).2)
  end.
Proof. intros H HP. apply (H (start s) HP). Qed.

Lemma bind_Done {A B} (m : M A) (f : A → M B) s a l :
  m s = (Done a, l) →
  bind m f s = ((f a (final s l)).1, l ++ (f a (final s l)).2).
Proof. intros H. unfold bind. rewrite H. by destruct (f a (final s l)). Qed.

End logic.

Lemma sublist_same_or_shorter {A} (l1 l2 : list A) :
  l1 `sublist_of` l2 → l1 = l2 ∨ length l1 < length l2.
Proof.
  induction 1 as [|x l1 l2 _ IH|x l1 l2 Hs _]; simpl.
  - by left.
  - destruct IH as [->|?]; [by left|right; lia].
  - right. apply sublist_length in Hs. lia.
Qed.

(** ** The polling loop never adds to [pending] *)

Section poll_shrinks.
Context {ModuleSetting W : Type}.
Variable exec_poll : @Executor ModuleSetting → Builder → W → W.
Variable is_complete : W → Builder → bool.
Variable is_failure : W → Builder → bool.
Local Abbreviation Entry := (@Entry ModuleSetting).
Local Abbreviation stable := (@stable ModuleSetting).
Local Abbreviation anywhere := (@anywhere ModuleSetting).
Local Abbreviation nowhere := (@nowhere ModuleSetting).
Local Abbreviation good_step := (@good_step ModuleSetting).
Local Abbreviation shrink_step := (@shrink_step ModuleSetting).
Local Abbreviation poll_iteration := (poll_iteration exec_poll is_complete is_failure).
Local Abbreviation poll_loop := (poll_loop exec_poll is_complete is_failure).
Local Abbreviation poll := (poll exec_poll is_complete is_failure).


Lemma shrink_emit (c : Event) :
  (∀ b, c ≠ PendingAppend b) →
  triple shrink_step any_exn anywhere anywhere (emit c) (λ _, anywhere).
Proof.
  intros Hc. apply triple_emit. intros e _.
  destruct (apply_event c (post e)) as [y|s'] eqn:Ha; [done|].
  split; [|done]. split; [|done]. unfold pending_shrinks. simpl.
  destruct c as [|k b|b|n|wk k b|b|b|b|b|b|b]; simpl in Ha;
    try case_match; simplify_eq; try done.
  - by destruct (Hc b).
  - by eapply list_remove_sublist.
Qed.

Lemma shrink_poll_iteration w :
  triple shrink_step any_exn anywhere anywhere (poll_iteration w) (λ _, anywhere).
Proof.
  unfold poll_iteration. apply triple_get_self. intros self.
  destruct (poll_scan _ _ _ _ _ _ _ _) as [x|[[w' cs] ds]].
  { by apply triple_raise. }
  eapply triple_conseq with (P := anywhere) (Q := λ _, anywhere); [|done..].
  eapply triple_bind with (Q1 := λ _, anywhere).
  { destruct ds; [by apply triple_ret|].
    apply (triple_for_each _ _ _ (λ _, anywhere)). intros x rest.
    eapply triple_bind; [by apply shrink_emit|]. intros ?. by apply shrink_emit. }
  intros ?. eapply triple_bind with (Q1 := λ _, anywhere); [|intros; by apply triple_ret].
  destruct cs; [by apply triple_ret|].
  apply (triple_for_each _ _ _ (λ _, anywhere)). intros x rest.
  eapply triple_bind; [by apply shrink_emit|]. intros ?.
  eapply triple_bind; [by apply shrink_emit|]. intros ?. by apply shrink_emit.
Qed.

Lemma shrink_poll_loop fuel w :
  triple shrink_step any_exn anywhere anywhere (poll_loop fuel w) (λ _, anywhere).
Proof.
  revert w. induction fuel as [|fuel IH]; intros w; simpl;
    apply triple_get_self; intros self.
  - destruct (_pending self); [by apply triple_ret|by apply triple_out_of_fuel].
  - destruct (_pending self); [by apply triple_ret|].
    eapply triple_conseq with (P := anywhere) (Q := λ _, anywhere); [|done..].
    eapply triple_bind; [apply shrink_poll_iteration|]. intros w'. apply IH.
Qed.

Lemma shrink_poll fuel w :
  triple shrink_step any_exn anywhere anywhere (poll fuel w) (λ _, anywhere).
Proof.
  unfold poll. eapply triple_bind; [apply shrink_poll_loop|]. intros ?.
  apply triple_get_self. intros self. by apply triple_ret.
Qed.

Lemma chain_shrink_sublist (e : Entry) l :
  chain shrink_step e l →
  _pending (post (last_entry e l)) `sublist_of` _pending (post e).
Proof.
  revert e. induction l as [|e' l IH]; intros e; [done|].
  intros [[Hs _] Hc]. change (e' :: l) with ([e'] ++ l).
  rewrite last_entry_app. etrans; [by apply IH|]. done.
Qed.

Lemma chain_shrink_no_append (e : Entry) l b :
  chain shrink_step e l → occurrences (PendingAppend b) l = 0.
Proof.
  unfold occurrences. revert e. induction l as [|e' l IH]; intros e; [done|].
  intros [[_ Hne] Hc]. rewrite filter_cons. destruct (decide _) as [Heq|_].
  - by destruct (Hne b).
  - by eapply IH.
Qed.

(** C2: from any state of the orchestrator, every step of a poll iteration
    leaves [_pending] a sublist of what it was, so that after the iteration
    it is unchanged or strictly shorter; no step of the iteration, and no
    step of the whole of [poll], appends to [_pending]. *)
Theorem poll_pending_never_grows (s : @BuildExecutor ModuleSetting) (w : W) (fuel : nat) :
  let it := poll_iteration w s in
  let lp := poll fuel w s in
  chain pending_shrinks (start s) it.2 ∧
  (_pending (final s it.2) = _pending s ∨
   length (_pending (final s it.2)) < length (_pending s)) ∧
  (∀ b, occurrences (PendingAppend b) it.2 = 0) ∧
  chain pending_shrinks (start s) lp.2 ∧
  _pending (final s lp.2) `sublist_of` _pending s ∧
  (∀ b, occurrences (PendingAppend b) lp.2 = 0).
Proof.
  intros it lp.
  destruct (triple_elim _ _ _ _ _ _ s (shrink_poll_iteration w) I) as [Hit _].
  destruct (triple_elim _ _ _ _ _ _ s (shrink_poll fuel w) I) as [Hlp _].
  fold it in Hit. fold lp in Hlp.
  split_and!.
  - eapply chain_impl, Hit. by intros ?? [? _].
  - apply sublist_same_or_shorter.
    rewrite (final_last_entry (start s)). by apply chain_shrink_sublist.
  - intros b. by eapply chain_shrink_no_append.
  - eapply chain_impl, Hlp. by intros ?? [? _].
  - rewrite (final_last_entry (start s)). by apply chain_shrink_sublist.
  - intros b. by eapply chain_shrink_no_append.
Qed.

End poll_shrinks.

(** ** The invariant of the tracking containers *)

Section invariant.
Context {ModuleSetting : Type}.
Local Abbreviation BuildExecutor := (@BuildExecutor ModuleSetting).
Local Abbreviation Entry := (@Entry ModuleSetting).
Local Abbreviation stable := (@stable ModuleSetting).
Local Abbreviation anywhere := (@anywhere ModuleSetting).
Local Abbreviation nowhere := (@nowhere ModuleSetting).
Local Abbreviation good_step := (@good_step ModuleSetting).
Local Abbreviation shrink_step := (@shrink_step ModuleSetting).
Implicit Types (s : BuildExecutor) (e : Entry) (b x y : Builder).


Lemma Inv_same_tracking s s' : same_tracking s s' → Inv s → Inv s'.
Proof.
  intros (Hv & Hp & Hc & Hk) (? & ? & ? & Hone).
  unfold Inv, at_most_one in *. rewrite Hv, Hp, Hc, Hk. done.
Qed.

Lemma Inv_pending_remove s b l :
  Inv s → list_remove b (_pending s) = Some l →
  Inv (set_pending l s) ∧ b ∈ _pending s ∧ (b ∉ l) ∧
  (b ∉ _completed s) ∧ (b ∉ _cancelled s).
Proof.
  intros (Hv & Hp & Hsub & Hone) Hr.
  destruct (list_remove_NoDup _ _ _ Hr Hp) as [Hl Hb].
  assert (b ∈ _pending s) as Hin.
  { apply list_remove_Permutation in Hr. rewrite Hr. by left. }
  destruct (Hone b) as (H1 & H2 & _).
  split_and!; [|done|done|tauto|tauto].
  split_and!; simpl; [done|done| |].
  - intros y Hy. apply Hsub. by eapply list_remove_elem_of.
  - intros y. destruct (Hone y) as (H1' & H2' & H3'). unfold at_most_one. simpl.
    split_and!; [| |done]; intros [Hy ?]; eapply list_remove_elem_of in Hy; eauto.
Qed.

Lemma Inv_completed_add s b :
  Inv s → b ∉ _pending s → b ∉ _cancelled s →
  Inv (set_completed ({[b]} ∪ _completed s) s).
Proof.
  intros (Hv & Hp & Hsub & Hone) Hnp Hnk. split_and!; simpl; [done..|].
  intros y. destruct (Hone y) as (H1 & H2 & H3). unfold at_most_one. simpl.
  split_and!; [|done|]; rewrite elem_of_union, elem_of_singleton;
    intros H; destruct_and?; destruct_or?; subst; tauto.
Qed.

Lemma Inv_cancelled_add s b :
  Inv s → b ∉ _pending s → b ∉ _completed s →
  Inv (set_cancelled ({[b]} ∪ _cancelled s) s).
Proof.
  intros (Hv & Hp & Hsub & Hone) Hnp Hnk. split_and!; simpl; [done..|].
  intros y. destruct (Hone y) as (H1 & H2 & H3). unfold at_most_one. simpl.
  split_and!; [done| |]; rewrite elem_of_union, elem_of_singleton;
    intros H; destruct_and?; destruct_or?; subst; tauto.
Qed.

Lemma Inv_valid_remove s b l :
  Inv s → b ∉ _pending s → list_remove b (_validbuilders s) = Some l →
  Inv (set_validbuilders l s).
Proof.
  intros (Hv & Hp & Hsub & Hone) Hnp Hr.
  destruct (list_remove_NoDup _ _ _ Hr Hv) as [Hl Hb].
  split_and!; simpl; [done|done| |done].
  intros y Hy. eapply list_remove_elem_of_ne; eauto. by intros ->.
Qed.

Lemma Inv_valid_append s b :
  Inv s → b ∉ _validbuilders s →
  Inv (set_validbuilders (_validbuilders s ++ [b]) s).
Proof.
  intros (Hv & Hp & Hsub & Hone) Hb. split_and!; simpl; [|done| |done].
  - apply NoDup_app. split_and!; [done| |apply NoDup_singleton].
    intros y Hy ->%list_elem_of_singleton. done.
  - intros y Hy. apply elem_of_app. left. by apply Hsub.
Qed.

Lemma Inv_pending_append s b :
  Inv s → b ∈ _validbuilders s → b ∉ _pending s →
  b ∉ _completed s → b ∉ _cancelled s →
  Inv (set_pending (_pending s ++ [b]) s).
Proof.
  intros (Hv & Hp & Hsub & Hone) Hb Hnp Hnc Hnk. split_and!; simpl; [done| | |].
  - apply NoDup_app. split_and!; [done| |apply NoDup_singleton].
    intros y Hy ->%list_elem_of_singleton. done.
  - intros y [Hy| ->%list_elem_of_singleton]%elem_of_app; eauto.
  - intros y. destruct (Hone y) as (H1 & H2 & H3). unfold at_most_one. simpl.
    split_and!; [| |done]; rewrite elem_of_app, list_elem_of_singleton;
      intros [[?| ->] ?]; tauto.
Qed.

(** Events that follow a quiescent event freely. *)
Lemma follows_quiescent (a c : Event) :
  quiescent a →
  match c with
  | CompletedAdd _ | CancelledAdd _ | ValidRemove _ => False
  | _ => True
  end →
  follows a c.
Proof. destruct a; simpl; done. Qed.

End invariant.

Section logic_more.
Context {ModuleSetting : Type}.
Local Abbreviation Entry := (@Entry ModuleSetting).
Local Abbreviation stable := (@stable ModuleSetting).
Local Abbreviation anywhere := (@anywhere ModuleSetting).
Local Abbreviation nowhere := (@nowhere ModuleSetting).
Local Abbreviation good_step := (@good_step ModuleSetting).
Local Abbreviation shrink_step := (@shrink_step ModuleSetting).
Local Abbreviation M := (@M ModuleSetting).


Lemma triple_weaken {A} R (E E' : exn → Prop) (X X' : Entry → Prop) P
    (m : M A) (Q : A → Entry → Prop) :
  triple R E X P m Q →
  (∀ x, E x → E' x) → (∀ e, X e → X' e) →
  triple R E' X' P m Q.
Proof.
  intros Hm HE HX e He. destruct (Hm e He) as [Hc Hr]. split; [done|].
  destruct (m (post e)).1; naive_solver.
Qed.

Lemma triple_pure {A} R E X P (φ : Prop) (m : M A) (Q : A → Entry → Prop) :
  (∀ e, P e → φ) → (φ → triple R E X P m Q) → triple R E X P m Q.
Proof. intros Hφ Hm e He. by apply (Hm (Hφ e He)). Qed.

Lemma triple_ghost {A} R E X P (m : M A) (Q : A → Entry → Prop) :
  (∀ e0, P e0 → triple R E X (λ e, e = e0) m Q) → triple R E X P m Q.
Proof. intros H e HP. by apply (H e HP e). Qed.

Lemma guarded_for_each {A} (l : list A) (f : A → M unit) :
  match l with [] => ret tt | _ => for_each l f end = for_each l f.
Proof. by destruct l. Qed.
End logic_more.

(** ** One iteration of the polling loop *)

Section poll_iteration.
Context {ModuleSetting W : Type}.
Variable exec_poll : @Executor ModuleSetting → Builder → W → W.
Variable is_complete : W → Builder → bool.
Variable is_failure : W → Builder → bool.
Local Abbreviation BuildExecutor := (@BuildExecutor ModuleSetting).
Local Abbreviation Entry := (@Entry ModuleSetting).
Local Abbreviation stable := (@stable ModuleSetting).
Local Abbreviation anywhere := (@anywhere ModuleSetting).
Local Abbreviation nowhere := (@nowhere ModuleSetting).
Local Abbreviation good_step := (@good_step ModuleSetting).
Local Abbreviation shrink_step := (@shrink_step ModuleSetting).
Local Abbreviation poll_scan := (poll_scan exec_poll is_complete is_failure).
Local Abbreviation polled_world := (polled_world exec_poll).
Local Abbreviation poll_iteration := (poll_iteration exec_poll is_complete is_failure).
Local Abbreviation poll_loop := (poll_loop exec_poll is_complete is_failure).
Implicit Types (s self : BuildExecutor) (e : Entry) (b x y : Builder).
Implicit Types (bs cs ds : list Builder).

Lemma poll_scan_submseteq self bs w c0 d0 w' cs ds :
  poll_scan self bs w c0 d0 = inr (w', cs, ds) →
  ∃ c d, cs = c0 ++ c ∧ ds = d0 ++ d ∧ d ++ c ⊆+ bs.
Proof.
  revert w c0 d0. induction bs as [|x bs IH]; intros w c0 d0; simpl.
  - intros [= <- <- <-]. exists [], []. by rewrite !app_nil_r.
  - destruct (get self (executor x)) as [ex|]; [|done].
    destruct (is_complete _ x); [|destruct (is_failure _ x)]; intros Hs;
      destruct (IH _ _ _ Hs) as (c & d & -> & -> & Hsub).
    + exists c, (x :: d). rewrite <-!app_assoc. split_and!; [done..|].
      simpl. by constructor.
    + exists (x :: c), d. rewrite <-!app_assoc. split_and!; [done..|].
      rewrite <-Permutation_middle. by constructor.
    + exists c, d. split_and!; [done..|]. by constructor.
Qed.

Lemma poll_scan_exn self bs w c0 d0 (err : exn) :
  poll_scan self bs w c0 d0 = inl err → no_remove_error err.
Proof.
  revert w c0 d0. induction bs as [|b bs IH]; intros w c0 d0; simpl; [done|].
  destruct (get self (executor b)); [|by intros [= <-]].
  repeat case_match; eauto.
Qed.

(** The move of one builder from [pending] to [completed]. *)
Lemma move_to_completed x (F : list Builder) (C K : gset Builder) :
  triple good_step never_exn nowhere
    (λ e, stable e ∧ (x ∉ F) ∧ (∀ y, y ∈ x :: F → y ∈ _pending (post e)) ∧
          _completed (post e) = C ∧ _cancelled (post e) = K)
    (emit (PendingRemove x) >> emit (CompletedAdd x))
    (λ _ e, stable e ∧ (∀ y, y ∈ F → y ∈ _pending (post e)) ∧
            _completed (post e) = {[x]} ∪ C ∧ _cancelled (post e) = K).
Proof.
  eapply triple_bind with
    (Q1 := λ _ e, ev e = PendingRemove x ∧ Inv (post e) ∧
             (x ∉ _pending (post e)) ∧ (x ∉ _cancelled (post e)) ∧
             (∀ y, y ∈ F → y ∈ _pending (post e)) ∧
             _completed (post e) = C ∧ _cancelled (post e) = K).
  - apply triple_emit. intros e ([Hq HI] & HxF & Hin & HC & HK). simpl.
    destruct (list_remove x (_pending (post e))) as [l|] eqn:Hr.
    2:{ apply list_remove_None in Hr. destruct Hr. apply Hin. by left. }
    destruct (Inv_pending_remove _ _ _ HI Hr) as (HI' & Hx & Hxl & Hxc & Hxk).
    split.
    + split_and!; simpl; [by rewrite Hr|done|done| |done].
      by apply follows_quiescent.
    + split_and!; simpl; [done..| |done|done].
      intros y Hy. eapply list_remove_elem_of_ne; eauto.
      * by intros ->.
      * apply Hin. by right.
  - intros ?. apply triple_emit.
    intros e (Hev & HI & Hxp & Hxk & Hin & HC & HK). simpl.
    assert (Inv (set_completed ({[x]} ∪ _completed (post e)) (post e))) as HI'
      by by apply Inv_completed_add.
    split.
    + split_and!; simpl; [done..| |done]. rewrite Hev. simpl. by left.
    + split_and!; simpl; try done. by rewrite HC.
Qed.

(** The move of one builder from [pending] to [cancelled], and out of the
    valid builders. *)
Lemma move_to_cancelled x (F : list Builder) (C K : gset Builder) :
  triple good_step never_exn nowhere
    (λ e, stable e ∧ (x ∉ F) ∧ (∀ y, y ∈ x :: F → y ∈ _pending (post e)) ∧
          _completed (post e) = C ∧ _cancelled (post e) = K)
    (emit (PendingRemove x) >> emit (CancelledAdd x) >> emit (ValidRemove x))
    (λ _ e, stable e ∧ (∀ y, y ∈ F → y ∈ _pending (post e)) ∧
            _completed (post e) = C ∧ _cancelled (post e) = {[x]} ∪ K).
Proof.
  eapply triple_bind with
    (Q1 := λ _ e, ev e = PendingRemove x ∧ Inv (post e) ∧
             (x ∉ _pending (post e)) ∧ (x ∉ _completed (post e)) ∧
             x ∈ _validbuilders (post e) ∧
             (∀ y, y ∈ F → y ∈ _pending (post e)) ∧
             _completed (post e) = C ∧ _cancelled (post e) = K).
  - apply triple_emit. intros e ([Hq HI] & HxF & Hin & HC & HK). simpl.
    destruct (list_remove x (_pending (post e))) as [l|] eqn:Hr.
    2:{ apply list_remove_None in Hr. destruct Hr. apply Hin. by left. }
    destruct (Inv_pending_remove _ _ _ HI Hr) as (HI' & Hx & Hxl & Hxc & Hxk).
    split.
    + split_and!; simpl; [by rewrite Hr|done|done| |done].
      by apply follows_quiescent.
    + split_and!; simpl; [done..| | |done|done].
      * destruct HI as (_ & _ & Hsub & _). by apply Hsub.
      * intros y Hy. eapply list_remove_elem_of_ne; eauto.
        -- by intros ->.
        -- apply Hin. by right.
  - intros ?. eapply triple_bind with
      (Q1 := λ _ e, ev e = CancelledAdd x ∧ Inv (post e) ∧
               (x ∉ _pending (post e)) ∧
               x ∈ _validbuilders (post e) ∧
               (∀ y, y ∈ F → y ∈ _pending (post e)) ∧
               _completed (post e) = C ∧ _cancelled (post e) = {[x]} ∪ K).
    + apply triple_emit.
      intros e (Hev & HI & Hxp & Hxc & Hxv & Hin & HC & HK). simpl.
      assert (Inv (set_cancelled ({[x]} ∪ _cancelled (post e)) (post e))) as HI'
        by by apply Inv_cancelled_add.
      split.
      * split_and!; simpl; [done..| |done]. rewrite Hev. simpl. by right.
      * split_and!; simpl; [done..|by rewrite HK].
    + intros ?. apply triple_emit.
      intros e (Hev & HI & Hxp & Hxv & Hin & HC & HK). simpl.
      destruct (list_remove x (_validbuilders (post e))) as [l|] eqn:Hr.
      2:{ by apply list_remove_None in Hr. }
      assert (Inv (set_validbuilders l (post e))) as HI'
        by by eapply Inv_valid_remove.
      split.
      * split_and!; simpl; [by rewrite Hr|done|done| |done].
        rewrite Hev. done.
      * split_and!; simpl; done.
Qed.

(** The two [for] loops of an iteration, for the lists the scan found. *)
Lemma poll_moves {A} s cs ds (v : A) :
  ds ++ cs ⊆+ _pending s →
  triple good_step never_exn nowhere
    (λ e, stable e ∧ post e = s)
    ((match ds with
      | [] => ret tt
      | _ => for_each ds (λ builder,
               emit (PendingRemove builder) >> emit (CompletedAdd builder))
      end) >>
     (match cs with
      | [] => ret tt
      | _ => for_each cs (λ builder,
               emit (PendingRemove builder) >> emit (CancelledAdd builder) >>
               emit (ValidRemove builder))
      end) >>
     ret v)
    (λ r e, r = v ∧ stable e ∧
            _completed (post e) = list_to_set ds ∪ _completed s ∧
            _cancelled (post e) = list_to_set cs ∪ _cancelled s).
Proof.
  intros Hsub.
  set (I1 := λ (rest : list Builder) (e : Entry),
    stable e ∧ NoDup (rest ++ cs) ∧
    (∀ y, y ∈ rest ++ cs → y ∈ _pending (post e)) ∧
    _completed (post e) ∪ list_to_set rest = list_to_set ds ∪ _completed s ∧
    _cancelled (post e) = _cancelled s).
  set (I2 := λ (rest : list Builder) (e : Entry),
    stable e ∧ NoDup rest ∧
    (∀ y, y ∈ rest → y ∈ _pending (post e)) ∧
    _completed (post e) = list_to_set ds ∪ _completed s ∧
    _cancelled (post e) ∪ list_to_set rest = list_to_set cs ∪ _cancelled s).
  assert (triple good_step never_exn nowhere (I1 ds)
            (for_each ds (λ builder,
               emit (PendingRemove builder) >> emit (CompletedAdd builder)))
            (λ _, I1 [])) as Hloop1.
  { apply triple_for_each. intros x rest.
    eapply triple_conseq with
      (P := λ e, (stable e ∧ (x ∉ rest ++ cs) ∧
                  (∀ y, y ∈ x :: rest ++ cs → y ∈ _pending (post e)) ∧
                  _completed (post e) = _completed (post e) ∧
                  _cancelled (post e) = _cancelled s) ∧
                 NoDup (rest ++ cs) ∧
                 _completed (post e) ∪ list_to_set (x :: rest) =
                   list_to_set ds ∪ _completed s).
    2:{ intros e (Hst & Hnd & Hin & HC & HK). simpl in Hnd.
        apply NoDup_cons in Hnd as [? ?]. done. }
    2:{ intros a e H. exact H. }
    intros e ((Hst & Hx & Hin & _ & HK) & Hnd & HC).
    destruct (move_to_completed x (rest ++ cs) (_completed (post e))
                (_cancelled s) e) as [Hc Hr]; [done|].
    split; [done|].
    destruct ((emit (PendingRemove x) >> emit (CompletedAdd x)) (post e)) as [[[]| |] l];
      simpl in *; [|done..].
    destruct Hr as (Hst' & Hin' & HC' & HK').
    unfold I1. split_and!; [done..| |done].
    rewrite HC'. rewrite <-HC. set_solver. }
  assert (triple good_step never_exn nowhere (I2 cs)
            (for_each cs (λ builder,
               emit (PendingRemove builder) >> emit (CancelledAdd builder) >>
               emit (ValidRemove builder)))
            (λ _, I2 [])) as Hloop2.
  { apply triple_for_each. intros x rest.
    intros e (Hst & Hnd & Hin & HC & HK).
    apply NoDup_cons in Hnd as [Hx Hnd].
    destruct (move_to_cancelled x rest (_completed (post e))
                (_cancelled (post e)) e) as [Hc Hr]; [done|].
    split; [done|].
    destruct ((emit (PendingRemove x) >> emit (CancelledAdd x) >>
               emit (ValidRemove x)) (post e)) as [[[]| |] l];
      simpl in *; [|done..].
    destruct Hr as (Hst' & Hin' & HC' & HK').
    unfold I2. split_and!; [done..|by rewrite HC'|].
    rewrite HK'. rewrite <-HK. set_solver. }
  assert (NoDup (ds ++ cs) → ∀ e, stable e ∧ post e = s → I1 ds e) as Hstart.
  { intros Hnd e [Hst Hs]. unfold I1. rewrite Hs.
    split_and!; [done..| |set_solver|done].
    intros y Hy. by eapply elem_of_submseteq. }
  rewrite !guarded_for_each.
  eapply triple_bind with (Q1 := λ _, I1 []).
  - intros e [Hst Hs].
    assert (NoDup (ds ++ cs)) as Hnd.
    { destruct Hst as [_ (_ & Hp & _)]. rewrite Hs in Hp.
      apply submseteq_Permutation in Hsub as [k Hk]. rewrite Hk in Hp.
      by apply NoDup_app in Hp as [? _]. }
    apply Hloop1. by apply Hstart.
  - intros ?. eapply triple_bind with (Q1 := λ _, I2 []).
    + eapply triple_conseq with (P := I2 cs); [apply Hloop2| |done].
      intros e (Hst & Hnd & Hin & HC & HK). unfold I2. simpl in *.
      split_and!; [done..|set_solver|set_solver].
    + intros ?. apply triple_ret.
      intros e (Hst & _ & _ & HC & HK). split_and!; [done..|set_solver].
Qed.

Lemma poll_iteration_moves w s w' cs ds :
  poll_scan s (_pending s) w [] [] = inr (w', cs, ds) →
  triple good_step never_exn nowhere
    (λ e, stable e ∧ post e = s)
    (poll_iteration w)
    (λ r e, r = w' ∧ stable e ∧
            _completed (post e) = list_to_set ds ∪ _completed s ∧
            _cancelled (post e) = list_to_set cs ∪ _cancelled s).
Proof.
  intros Hscan. unfold poll_iteration.
  apply triple_get_self. intros s'.
  apply (triple_pure _ _ _ _ (s' = s)); [by intros e [[_ <-] <-]|intros ->].
  rewrite Hscan.
  destruct (poll_scan_submseteq _ _ _ _ _ _ _ _ Hscan) as (c & d & -> & -> & Hsub).
  simpl in *.
  eapply triple_conseq with (P := λ e, stable e ∧ post e = s);
    [|by intros e [? _]|intros a e H; exact H].
  by apply poll_moves.
Qed.

Lemma poll_iteration_good w :
  triple good_step no_remove_error stable stable (poll_iteration w) (λ _, stable).
Proof.
  intros e Hst.
  destruct (poll_scan (post e) (_pending (post e)) w [] []) as [x|[[w' cs] ds]] eqn:Hscan.
  - unfold poll_iteration, bind, get_self. simpl.
    rewrite Hscan. simpl. split_and!; [done| |done].
    by eapply poll_scan_exn.
  - pose proof (poll_iteration_moves _ _ _ _ _ Hscan) as Hm.
    eapply (triple_weaken _ _ no_remove_error _ stable) in Hm; [|done..].
    destruct (Hm e) as [Hc Hr]; [done|]. split; [done|].
    destruct (poll_iteration w (post e)).1; [|done..]. tauto.
Qed.

Lemma poll_loop_good fuel w :
  triple good_step no_remove_error stable stable (poll_loop fuel w) (λ _, stable).
Proof.
  revert w. induction fuel as [|fuel IH]; intros w; simpl;
    apply triple_get_self; intros self.
  - destruct (_pending self); [apply triple_ret|apply triple_out_of_fuel]; tauto.
  - destruct (_pending self); [apply triple_ret; tauto|].
    eapply triple_conseq with (P := stable) (Q := λ _, stable); [|tauto|done].
    eapply triple_bind; [apply poll_iteration_good|]. intros w'. apply IH.
Qed.

(** *** The order of the tests in the scan *)

Lemma poll_scan_ok self bs w c0 d0 :
  (∀ x, x ∈ bs → is_Some (get self (executor x))) →
  ∃ r, poll_scan self bs w c0 d0 = inr r.
Proof.
  revert w c0 d0. induction bs as [|x bs IH]; intros w c0 d0 Hreg; simpl.
  { by eexists. }
  destruct (Hreg x) as [ex ->]; [by left|].
  assert (∀ y, y ∈ bs → is_Some (get self (executor y))) as Hreg'
    by (intros y Hy; apply Hreg; by right).
  repeat case_match; by apply IH.
Qed.

Lemma poll_scan_acc self bs w c0 d0 w' cs ds y :
  poll_scan self bs w c0 d0 = inr (w', cs, ds) → y ∈ d0 → y ∈ ds.
Proof.
  intros (c & d & -> & -> & _)%poll_scan_submseteq Hy.
  apply elem_of_app. by left.
Qed.

Lemma poll_scan_complete self bs w c0 d0 w' cs ds b wb :
  polled_world self bs w b = Some wb →
  is_complete wb b = true →
  poll_scan self bs w c0 d0 = inr (w', cs, ds) →
  b ∈ ds.
Proof.
  revert w c0 d0. induction bs as [|x bs IH]; intros w c0 d0; simpl; [done|].
  destruct (get self (executor x)) as [ex|]; [|done].
  destruct (decide (x = b)) as [->|Hne].
  - intros [= <-] ->. intros Hs. eapply poll_scan_acc; [done|].
    apply elem_of_app. right. by left.
  - intros Hw Hc. repeat case_match; by eapply IH.
Qed.

(** C3: in a state that satisfies the invariant and whose pending builders
    all have a registered executor, a pending builder for which both
    [is_complete] and [is_failure] hold right after its poll is moved by
    the iteration from [_pending] to [_completed], and is not put into
    [_cancelled]; the iteration returns normally. *)
Theorem complete_before_failure s (w wb : W) b :
  Inv s →
  (∀ x, x ∈ _pending s → is_Some (get s (executor x))) →
  b ∈ _pending s →
  polled_world s (_pending s) w b = Some wb →
  is_complete wb b = true →
  is_failure wb b = true →
  let out := poll_iteration w s in
  (∃ w', out.1 = Done w') ∧
  b ∈ _completed (final s out.2) ∧
  (b ∉ _cancelled (final s out.2)) ∧
  b ∉ _pending (final s out.2).
Proof.
  intros HI Hreg Hb Hwb Hc Hf out.
  destruct (poll_scan_ok s (_pending s) w [] [] Hreg) as [[[w' cs] ds] Hscan].
  pose proof (poll_scan_complete _ _ _ _ _ _ _ _ _ _ Hwb Hc Hscan) as Hds.
  destruct (triple_elim _ _ _ _ _ _ s (poll_iteration_moves w s w' cs ds Hscan))
    as [_ Hr]; [done|].
  fold out in Hr. destruct out.1 as [r| |] eqn:Hout; [|by destruct Hr..].
  destruct Hr as (-> & [_ HI'] & Hcomp & _).
  rewrite <-(final_last_entry (start s)) in HI', Hcomp. simpl in HI', Hcomp.
  assert (b ∈ _completed (final s out.2)) as Hin by (rewrite Hcomp; set_solver).
  destruct HI' as (_ & _ & _ & Hone). destruct (Hone b) as (H1 & _ & H3).
  split_and!; [by eexists|done|tauto|tauto].
Qed.

End poll_iteration.

(** ** [run] establishes the invariant *)

Section run.
Context {ModuleSetting W : Type}.
Variable cpu_count : option Z.
Variable worker : Work → @Executor ModuleSetting → Builder → option Builder.
Variable latency : nat → nat.
Variable is_batch_job : W → Builder → bool.
Local Abbreviation BuildExecutor := (@BuildExecutor ModuleSetting).
Local Abbreviation Entry := (@Entry ModuleSetting).
Local Abbreviation stable := (@stable ModuleSetting).
Local Abbreviation anywhere := (@anywhere ModuleSetting).
Local Abbreviation nowhere := (@nowhere ModuleSetting).
Local Abbreviation good_step := (@good_step ModuleSetting).
Local Abbreviation shrink_step := (@shrink_step ModuleSetting).
Local Abbreviation M := (@M ModuleSetting).
Local Abbreviation apply_async := (apply_async worker latency).
Local Abbreviation submit := (submit worker latency).
Local Abbreviation partition := (partition is_batch_job).
Local Abbreviation run := (run cpu_count worker latency is_batch_job).
Local Abbreviation returns_own_builder := (returns_own_builder worker).
Implicit Types (s self : BuildExecutor) (e : Entry) (b x y t : Builder).
Implicit Types (bs : list Builder) (rs results : list AsyncResult).


Lemma unpolled_Inv s : unpolled s → NoDup (_validbuilders s) → Inv s.
Proof.
  intros (Hp & Hc & Hk) Hv. unfold Inv, at_most_one. rewrite Hp, Hc, Hk.
  split_and!; [done|apply NoDup_nil_2|by intros ? ?%elem_of_nil|].
  intros b. split_and!; intros [? ?]; set_solver.
Qed.

Lemma neutral_apply (c : Event) s :
  neutral c → ∃ s', apply_event c s = inr s' ∧ same_tracking s s'.
Proof.
  destruct c; simpl; try done; intros _;
    try case_match; by eexists.
Qed.

Lemma emit_neutral (c : Event) (Φ Ψ : BuildExecutor → Prop) :
  neutral c →
  (∀ s s', apply_event c s = inr s' → same_tracking s s' → Φ s → Ψ s') →
  triple good_step no_remove_error stable
    (λ e, stable e ∧ Φ (post e)) (emit c)
    (λ _ e, stable e ∧ Ψ (post e)).
Proof.
  intros Hn HΦ. apply triple_emit. intros e [[Hq HI] HP].
  destruct (neutral_apply c (post e) Hn) as (s' & Ha & Hsame). rewrite Ha.
  assert (Inv s') by by eapply Inv_same_tracking.
  split.
  - split_and!; simpl; [done..| |].
    + apply follows_quiescent; [done|]. by destruct c.
    + intros b ->. done.
  - split_and!; simpl; eauto. by destruct c.
Qed.

Lemma choose_executor_triple (P : Entry → Prop) b :
  (∀ e, P e → stable e) →
  triple good_step no_remove_error stable P (_choose_executor b)
    (λ ex e, P e ∧ get (post e) (executor b) = Some ex).
Proof.
  intros HP. unfold _choose_executor. apply triple_get_self. intros self.
  destruct (get self (executor b)) as [ex|] eqn:Hg.
  - apply triple_ret. by intros e [? ->].
  - apply triple_raise. intros e [? _]. split; [done|]. by apply HP.
Qed.

(** *** First loop: builders are recorded, the tracking sets stay empty *)

Lemma assign_good bs bs0 :
  triple good_step no_remove_error stable
    (λ e, stable e ∧ (unpolled (post e) ∧ _validbuilders (post e) = []) ∧
          builders (post e) = bs0)
    (assign bs)
    (λ _ e, stable e ∧ (unpolled (post e) ∧ _validbuilders (post e) = []) ∧
            builders (post e) = bs0 ++ bs).
Proof.
  unfold assign.
  set (I := λ (rest : list Builder) (e : Entry),
    stable e ∧ (unpolled (post e) ∧ _validbuilders (post e) = []) ∧
    builders (post e) ++ rest = bs0 ++ bs).
  eapply triple_conseq with (P := I bs) (Q := λ _, I []).
  - apply triple_for_each. intros x rest.
    eapply triple_bind; [apply choose_executor_triple; by intros e [? _]|].
    intros ex. simpl.
    eapply triple_bind with
      (Q1 := λ _ e, stable e ∧ ((unpolled (post e) ∧ _validbuilders (post e) = []) ∧
                     builders (post e) ++ x :: rest = bs0 ++ bs)).
    + eapply triple_conseq; [apply (emit_neutral (AddBuilder (executor x) x)
        (λ s, (unpolled s ∧ _validbuilders s = []) ∧
              builders s ++ x :: rest = bs0 ++ bs)
        (λ s, (unpolled s ∧ _validbuilders s = []) ∧
              builders s ++ x :: rest = bs0 ++ bs)); [done|]| |].
      * intros s s' Ha (Hv & Hp & Hc & Hk) [[(? & ? & ?) ?] Hb].
        unfold unpolled. rewrite Hv, Hp, Hc, Hk. split; [done|].
        simpl in Ha. destruct (dict_get _ _); by simplify_eq.
      * intros e [(? & ? & ?) _]. done.
      * intros ? e H. exact H.
    + intros ?. eapply triple_conseq; [apply (emit_neutral (BuildersAppend x)
        (λ s, (unpolled s ∧ _validbuilders s = []) ∧
              builders s ++ x :: rest = bs0 ++ bs)
        (λ s, (unpolled s ∧ _validbuilders s = []) ∧
              builders s ++ rest = bs0 ++ bs)); [done|]| |].
      * intros s s' Ha (Hv & Hp & Hc & Hk) [[(? & ? & ?) ?] Hb].
        unfold unpolled. rewrite Hv, Hp, Hc, Hk. split; [done|].
        simpl in Ha. simplify_eq. simpl. by rewrite <-app_assoc.
      * done.
      * intros ? e (? & ? & ?). done.
  - intros e (? & ? & Hb). unfold I. by rewrite Hb.
  - intros _ e (? & ? & Hb). rewrite app_nil_r in Hb. done.
Qed.

(** *** Second loop: the tasks of the submitted work are distinct *)


Lemma submit_good bs : ∀ done results,
  returns_own_builder →
  NoDup (done ++ bs) →
  NoDup (omap task results) →
  (∀ t, t ∈ omap task results → t ∈ done) →
  triple good_step no_remove_error stable
    (λ e, stable e ∧ fresh_tracking (post e))
    (submit bs results)
    (λ rs e, stable e ∧ fresh_tracking (post e) ∧ NoDup (omap task rs)).
Proof.
  induction bs as [|b bs IH]; intros done results Hown Hnd Hres Hfrom; simpl.
  { apply triple_ret. intros e [? ?]. done. }
  eapply triple_bind; [apply choose_executor_triple; by intros e [? _]|].
  intros ex. simpl.
  set (wk := if decide (type ex = "local") then RunWork else DispatchWork).
  eapply triple_bind with
    (Q1 := λ r e, (stable e ∧ fresh_tracking (post e)) ∧
                  r = mkResult (length results) (latency (length results))
                        (worker wk ex b)).
  - unfold apply_async.
    eapply triple_bind with (Q1 := λ _ e, stable e ∧ fresh_tracking (post e)).
    + eapply triple_conseq;
        [apply (emit_neutral (ApplyAsync wk (name ex) b) fresh_tracking fresh_tracking);
         [done|]| |].
      * intros s s' Ha (Hv & Hp & Hc & Hk) [(? & ? & ?) ?].
        unfold fresh_tracking, unpolled. by rewrite Hv, Hp, Hc, Hk.
      * by intros e [? _].
      * intros ? e H. exact H.
    + intros ?. apply triple_ret. done.
  - intros r. apply (triple_pure _ _ _ _
      (r = mkResult (length results) (latency (length results)) (worker wk ex b)));
      [by intros e [_ ?]|intros ->].
    eapply triple_conseq; [apply (IH (done ++ [b]))| |]; try done.
    + by rewrite <-app_assoc.
    + rewrite omap_app. simpl.
      destruct (worker wk ex b) as [t|] eqn:Hw; simpl; [|by rewrite app_nil_r].
      apply Hown in Hw as ->. apply NoDup_app. split_and!; [done| |apply NoDup_singleton].
      intros y Hy ->%list_elem_of_singleton. apply Hfrom in Hy.
      apply NoDup_app in Hnd as (_ & Hd & _). apply (Hd b Hy). by left.
    + intros t. rewrite omap_app, !elem_of_app. simpl. intros [Ht|Ht].
      * left. by apply Hfrom.
      * right. destruct (worker wk ex b) as [t'|] eqn:Hw; simpl in Ht.
        -- apply Hown in Hw as ->. done.
        -- by apply elem_of_nil in Ht.
    + by intros e [? _].
Qed.

(** *** Collection: every task is appended once *)

Lemma remove_ready_ok (ready results : list AsyncResult) :
  ready ⊆+ results →
  ∃ results', remove_ready ready results = inr results' ∧
              results ≡ₚ ready ++ results'.
Proof.
  revert results. induction ready as [|r ready IH]; intros results Hsub; simpl.
  { by eexists. }
  assert (r ∈ results) as Hr by (eapply elem_of_submseteq; [|done]; by left).
  destruct (list_remove_is_Some r results Hr) as [res1 Hres1]. rewrite Hres1.
  pose proof (list_remove_Permutation _ _ _ Hres1) as Hperm.
  destruct (IH res1) as (results' & -> & Hp).
  { rewrite Hperm in Hsub. by apply (submseteq_app_inv_l _ _ [r]). }
  eexists. split; [done|]. by rewrite Hperm, Hp.
Qed.

Lemma collect_pass_good rs : ∀ clock ready v0,
  triple good_step no_remove_error stable
    (λ e, quiescent (ev e) ∧ unpolled (post e) ∧
          _validbuilders (post e) = v0 ∧ NoDup (v0 ++ omap task rs))
    (collect_pass rs clock ready)
    (λ cr e, ∃ rdy, cr.2 = ready ++ rdy ∧ rdy `sublist_of` rs ∧
             quiescent (ev e) ∧ unpolled (post e) ∧
             _validbuilders (post e) = v0 ++ omap task rdy).
Proof.
  induction rs as [|r rs IH]; intros clock ready v0; simpl.
  { apply triple_ret. intros e (? & ? & ? & ?). exists [].
    rewrite !app_nil_r. done. }
  destruct (decide (ready_at r ≤ clock)%nat) as [Hready|Hnot].
  - destruct (task r) as [t|] eqn:Ht; simpl.
    + eapply triple_bind with
        (Q1 := λ _ e, quiescent (ev e) ∧ unpolled (post e) ∧
                 _validbuilders (post e) = v0 ++ [t] ∧
                 NoDup ((v0 ++ [t]) ++ omap task rs)).
      * apply triple_emit. intros e (Hq & Hu & Hv & Hnd). simpl.
        assert (NoDup ((v0 ++ [t]) ++ omap task rs)) as Hnd'
          by by rewrite <-app_assoc.
        assert (Inv (post e)) as HI.
        { apply unpolled_Inv; [done|]. rewrite Hv.
          by apply NoDup_app in Hnd as (? & _). }
        assert (Inv (set_validbuilders (_validbuilders (post e) ++ [t]) (post e))) as HI'.
        { apply unpolled_Inv; [done|]. simpl. rewrite Hv.
          by apply NoDup_app in Hnd' as (? & _). }
        split.
        -- split_and!; simpl; [done..|by apply follows_quiescent|done].
        -- split_and!; simpl; [done|done|by rewrite Hv|done].
      * intros ?. eapply triple_conseq; [apply (IH clock (ready ++ [r]) (v0 ++ [t]))|done|].
        intros cr e (rdy & Hcr & Hsub & Hq & Hu & Hv). exists (r :: rdy).
        split_and!; [by rewrite Hcr, <-app_assoc|by constructor|done|done|].
        simpl. rewrite Ht. by rewrite Hv, <-app_assoc.
    + eapply triple_bind with
        (Q1 := λ _ e, quiescent (ev e) ∧ unpolled (post e) ∧
                 _validbuilders (post e) = v0 ∧ NoDup (v0 ++ omap task rs)).
      * by apply triple_ret.
      * intros ?. eapply triple_conseq; [apply (IH clock (ready ++ [r]) v0)|done|].
        intros cr e (rdy & Hcr & Hsub & Hq & Hu & Hv). exists (r :: rdy).
        split_and!; [by rewrite Hcr, <-app_assoc|by constructor|done|done|].
        simpl. by rewrite Ht.
  - eapply triple_conseq; [apply (IH (S clock) ready v0)| |].
    + intros e (Hq & Hu & Hv & Hnd). split_and!; [done..|].
      eapply sublist_NoDup; [exact Hnd|]. apply sublist_app; [done|].
      destruct (task r); [by apply sublist_cons|done].
    + intros cr e (rdy & Hcr & Hsub & Hq & Hu & Hv). exists rdy.
      split_and!; [done|by apply sublist_cons|done..].
Qed.

Lemma collect_good fuel : ∀ clock results,
  triple good_step no_remove_error stable
    (λ e, quiescent (ev e) ∧ unpolled (post e) ∧
          NoDup (_validbuilders (post e) ++ omap task results))
    (collect fuel clock results)
    (λ _ e, quiescent (ev e) ∧ unpolled (post e) ∧
            NoDup (_validbuilders (post e))).
Proof.
  assert (∀ e, quiescent (ev e) ∧ unpolled (post e) ∧
               NoDup (_validbuilders (post e)) → stable e) as Hstable.
  { intros e (? & ? & ?). split; [done|]. by apply unpolled_Inv. }
  induction fuel as [|fuel IH]; intros clock results.
  - destruct results as [|r results]; simpl.
    + apply triple_ret. intros e (? & ? & Hnd). by rewrite app_nil_r in Hnd.
    + apply triple_out_of_fuel. intros e (? & ? & Hnd). apply Hstable.
      by apply NoDup_app in Hnd as (? & _).
  - destruct results as [|r results].
    + apply triple_ret. intros e (? & ? & Hnd). by rewrite app_nil_r in Hnd.
    + set (res := r :: results) in *. cbn [collect].
      apply triple_ghost. intros e (Hq & Hu & Hnd).
      eapply triple_bind with
        (Q1 := λ cr e', ∃ rdy, cr.2 = [] ++ rdy ∧ rdy `sublist_of` res ∧
                  quiescent (ev e') ∧ unpolled (post e') ∧
                  _validbuilders (post e') =
                    _validbuilders (post e) ++ omap task rdy).
      * intros ? ->. by apply (collect_pass_good res clock [] (_validbuilders (post e))).
      * intros cr.
        apply (triple_pure _ _ _ _ (∃ rdy, cr.2 = rdy ∧ rdy `sublist_of` res));
          [intros e' (rdy & ? & ? & _); by exists rdy|intros (rdy & Hcr & Hsub)].
        destruct (remove_ready_ok rdy res) as (results' & Hrem & Hperm);
          [by apply sublist_submseteq|].
        rewrite Hcr, Hrem.
        eapply triple_conseq; [apply (IH cr.1 results')| |done].
        intros e' (rdy' & Hcr' & _ & Hq' & Hu' & Hv'). split_and!; [done..|].
        simpl in Hcr'. assert (rdy' = rdy) as -> by congruence.
        rewrite Hv', <-app_assoc, <-omap_app, <-Hperm. done.
Qed.

(** *** Last loop: batch builders become pending, each once *)

Lemma partition_good w :
  triple good_step no_remove_error stable
    (λ e, quiescent (ev e) ∧ unpolled (post e) ∧ NoDup (_validbuilders (post e)))
    (partition w)
    (λ _, stable).
Proof.
  unfold partition. apply triple_get_self. intros self.
  set (v := _validbuilders self).
  set (I := λ (rest : list Builder) (e : Entry),
    stable e ∧ _completed (post e) = ∅ ∧ _cancelled (post e) = ∅ ∧
    _validbuilders (post e) = v ∧ NoDup rest ∧
    (∀ y, y ∈ rest → y ∈ v) ∧
    (∀ y, y ∈ _pending (post e) → y ∉ rest)).
  eapply triple_conseq with (P := I v) (Q := λ _, I []).
  - apply triple_for_each. intros x rest.
    destruct (is_batch_job w x).
    + apply triple_emit. intros e ([Hq HI] & Hc & Hk & Hv & Hnd & Hin & Hp).
      simpl. apply NoDup_cons in Hnd as [Hx Hnd].
      assert (x ∉ _pending (post e)) as Hxp.
      { intros Hx'. apply (Hp x Hx'). by left. }
      assert (Inv (set_pending (_pending (post e) ++ [x]) (post e))) as HI'.
      { apply Inv_pending_append; [done| |done|..].
        - rewrite Hv. apply Hin. by left.
        - rewrite Hc. apply not_elem_of_empty.
        - rewrite Hk. apply not_elem_of_empty. }
      split.
      * split_and!; simpl; [done..|by apply follows_quiescent|].
        intros b [= <-]. split_and!; [done|..].
        -- rewrite Hc. apply not_elem_of_empty.
        -- rewrite Hk. apply not_elem_of_empty.
      * unfold I. split_and!; simpl; try done.
        -- intros y Hy. apply Hin. by right.
        -- intros y [Hy| ->%list_elem_of_singleton]%elem_of_app; [|done].
           intros Hy'. apply (Hp y Hy). by right.
    + apply triple_ret. intros e (Hst & Hc & Hk & Hv & Hnd & Hin & Hp).
      apply NoDup_cons in Hnd as [Hx Hnd]. unfold I. split_and!; try done.
      * intros y Hy. apply Hin. by right.
      * intros y Hy Hy'. apply (Hp y Hy). by right.
  - intros e [(Hq & (Hp & Hc & Hk) & Hnd) Hs]. unfold I, v. subst self.
    split_and!; try done.
    + split; [done|]. by apply unpolled_Inv.
    + rewrite Hp. by intros ? ?%elem_of_nil.
  - intros _ e (? & _). done.
Qed.

(** *** [run] *)

Lemma compute_num_workers_exn cfg (err : exn) :
  compute_num_workers cpu_count cfg = inl err → no_remove_error err.
Proof.
  unfold compute_num_workers. repeat case_match; intros [= <-]; by intros [=].
Qed.

Lemma Pool_exn : no_remove_error (ValueError "Number of processes must be at least 1").
Proof. by intros [=]. Qed.

Lemma run_good w fuel bs :
  returns_own_builder → NoDup bs →
  triple good_step no_remove_error stable
    (λ e, quiescent (ev e) ∧ fresh_tracking (post e) ∧ builders (post e) = [])
    (run w fuel bs)
    (λ _, stable).
Proof.
  intros Hown Hnd. unfold run.
  assert (∀ e, quiescent (ev e) ∧ fresh_tracking (post e) → stable e) as Hstable.
  { intros e (? & ? & Hv). split; [done|]. apply unpolled_Inv; [done|].
    rewrite Hv. apply NoDup_nil_2. }
  eapply triple_bind with
    (Q1 := λ _ e, stable e ∧ fresh_tracking (post e) ∧ builders (post e) = bs).
  { eapply triple_conseq; [apply (assign_good bs [])| |done].
    intros e (Hq & Hf & Hb). split; [by apply Hstable|]. by split. }
  intros ?. apply triple_get_self. intros self.
  destruct (compute_num_workers _ _) as [x|n] eqn:Hcompute.
  { apply triple_raise. intros e [[? _] _].
    split; [by eapply compute_num_workers_exn|done]. }
  eapply triple_bind with
    (Q1 := λ _ e, (stable e ∧ fresh_tracking (post e) ∧ builders (post e) = bs)).
  { unfold Pool. destruct (n <? 1)%Z.
    - apply triple_raise. intros e [[? _] _]. split; [apply Pool_exn|done].
    - eapply triple_conseq;
        [apply (emit_neutral (PoolCreate n)
                  (λ s, fresh_tracking s ∧ builders s = bs)
                  (λ s, fresh_tracking s ∧ builders s = bs)); [done|]| |].
      + intros s s' Ha (Hv & Hp & Hc & Hk) [[(? & ? & ?) ?] Hb].
        unfold fresh_tracking, unpolled. rewrite Hv, Hp, Hc, Hk.
        simpl in Ha. by simplify_eq.
      + by intros e [(? & ? & ?) _].
      + intros ? e (? & ? & ?). done. }
  intros ?. apply triple_get_self. intros self'.
  apply (triple_pure _ _ _ _ (builders self' = bs));
    [by intros e [(_ & _ & <-) <-]|intros ->].
  eapply triple_bind with
    (Q1 := λ rs e, stable e ∧ fresh_tracking (post e) ∧ NoDup (omap task rs)).
  { eapply triple_conseq.
    - apply (submit_good bs [] [] Hown);
        [done|apply NoDup_nil_2|by intros t ?%elem_of_nil].
    - by intros e [(? & ? & _) _].
    - done. }
  intros rs. eapply triple_bind; [|intros ?; apply partition_good].
  eapply triple_conseq; [apply collect_good| |done].
  intros e ([Hq _] & [Hu Hv] & Hrs). rewrite Hv. done.
Qed.

End run.

Local Close Scope string_scope.

(** ** Consequences of a chain of good steps *)

Section chains.
Context {ModuleSetting : Type}.
Local Abbreviation BuildExecutor := (@BuildExecutor ModuleSetting).
Local Abbreviation Entry := (@Entry ModuleSetting).
Local Abbreviation stable := (@stable ModuleSetting).
Local Abbreviation anywhere := (@anywhere ModuleSetting).
Local Abbreviation nowhere := (@nowhere ModuleSetting).
Local Abbreviation good_step := (@good_step ModuleSetting).
Local Abbreviation shrink_step := (@shrink_step ModuleSetting).
Implicit Types (s : BuildExecutor) (e : Entry) (l : list Entry) (b : Builder).

Lemma good_step_lifecycle e e' : good_step e e' → lifecycle_step e e'.
Proof.
  intros (Ha & HI & HI' & Hf & Happ).
  destruct HI as (_ & Hp & _ & Hone).
  assert (∀ b, ev e = PendingRemove b →
            ev e' = CompletedAdd b ∨ ev e' = CancelledAdd b) as Hnext.
  { intros b Hb. rewrite Hb in Hf. exact Hf. }
  assert (∀ b, ev e' = CompletedAdd b ∨ ev e' = CancelledAdd b →
            ev e = PendingRemove b) as Hprev.
  { intros b Hb. destruct (ev e); simpl in Hf;
      destruct Hb as [Hb|Hb]; rewrite Hb in Hf; try done;
      destruct Hf; congruence. }
  unfold lifecycle_step.
  destruct (ev e') as [|k x|x|n|wk k x|x|x|x|x|x|x] eqn:Hev;
    simpl in Ha; try case_match; simplify_eq; rewrite <-Ha; simpl.
  - split_and!; try done; by intros ? ? ?.
  - split_and!; try done; by intros ? ? ?.
  - split_and!; try done; by intros ? ? ?.
  - split_and!; try done; by intros ? ? ?.
  - split_and!; try done; by intros ? ? ?.
  - split_and!; try done; by intros ? ? ?.
  - split_and!; try done; by intros ? ? ?.
  - (* PendingAppend *)
    split_and!; try done; try (by intros ? ? ?).
    + intros b [Hb| ->%list_elem_of_singleton]%elem_of_app Hnb; [done|].
      destruct (Happ x eq_refl) as (_ & ? & ?). done.
    + intros b Hb Hnb. destruct Hnb. apply elem_of_app. by left.
  - (* PendingRemove *)
    split_and!; try done; try (by intros ? ? ?).
    + intros b Hb Hnb. destruct Hnb. by eapply list_remove_elem_of.
    + intros b Hb Hnb. destruct (decide (b = x)) as [->|Hne].
      * destruct (Hone x) as (H1 & H2 & _). split_and!; [done|tauto|tauto].
      * destruct Hnb. by eapply list_remove_elem_of_ne.
  - (* CompletedAdd *)
    split_and!; try done; try (by intros ? ? ?).
    + set_solver.
    + intros b Hb Hnb. assert (b = x) as -> by set_solver.
      split; [done|]. apply Hprev. by left.
  - (* CancelledAdd *)
    split_and!; try done; try (by intros ? ? ?).
    + set_solver.
    + intros b Hb Hnb. assert (b = x) as -> by set_solver.
      split; [done|]. apply Hprev. by right.
  - (* ValidRemove *)
    split_and!; try done; by intros ? ? ?.
Qed.

Lemma chain_good_Forall_Inv e l :
  chain good_step e l → Forall (λ e', Inv (post e')) l.
Proof.
  revert e. induction l as [|e' l IH]; intros e; [done|].
  intros [(_ & _ & HI & _) Hc]. constructor; eauto.
Qed.

(** *** Counting events *)

Lemma occurrences_cons (c : Event) e l :
  occurrences c (e :: l) =
  (if decide (ev e = c) then 1 else 0) + occurrences c l.
Proof. unfold occurrences. rewrite filter_cons. by destruct (decide _). Qed.

Lemma occurrences_app (c : Event) l l' :
  occurrences c (l ++ l') = occurrences c l + occurrences c l'.
Proof. unfold occurrences. by rewrite filter_app, length_app. Qed.

(** Once completed or cancelled, a builder is not removed from [pending]
    again. *)
Lemma no_remove_after_done e l b :
  chain good_step e l →
  b ∈ _completed (post e) ∨ b ∈ _cancelled (post e) →
  occurrences (PendingRemove b) l = 0.
Proof.
  revert e. induction l as [|e' l IH]; intros e; [done|].
  intros [Hg Hc] Hdone. rewrite occurrences_cons.
  pose proof (good_step_lifecycle _ _ Hg) as (Hmc & Hmk & _).
  rewrite (IH e' Hc) by (destruct Hdone; eauto).
  destruct (decide (ev e' = PendingRemove b)) as [Hev|]; [|done].
  destruct Hg as (Ha & (_ & _ & _ & Hone) & _). rewrite Hev in Ha. simpl in Ha.
  destruct (list_remove b (_pending (post e))) eqn:Hr; [|done].
  assert (b ∈ _pending (post e)).
  { apply list_remove_Permutation in Hr. rewrite Hr. by left. }
  destruct (Hone b) as (H1 & H2 & _). tauto.
Qed.

Lemma no_remove_after_remove e l b :
  chain good_step e l → ev e = PendingRemove b →
  occurrences (PendingRemove b) l = 0.
Proof.
  destruct l as [|e' l]; [done|]. intros [Hg Hc] Hev. rewrite occurrences_cons.
  pose proof (good_step_lifecycle _ _ Hg) as Hl.
  destruct Hg as (Ha & _ & _ & Hf & _). rewrite Hev in Hf. simpl in Hf.
  rewrite (no_remove_after_done e' l b Hc).
  - destruct (decide _) as [Heq|]; [|done]. destruct Hf; congruence.
  - destruct Hf as [Hf|Hf]; rewrite Hf in Ha; simpl in Ha; simplify_eq;
      rewrite <-Ha; simpl; [left|right]; set_solver.
Qed.

Lemma remove_at_most_once e l b :
  chain good_step e l → occurrences (PendingRemove b) l ≤ 1.
Proof.
  revert e. induction l as [|e' l IH]; intros e; [simpl; unfold occurrences; simpl; lia|].
  intros [Hg Hc]. rewrite occurrences_cons.
  destruct (decide (ev e' = PendingRemove b)) as [Hev|].
  - by rewrite (no_remove_after_remove e' l b Hc Hev).
  - by apply (IH e').
Qed.

Lemma follows_CancelledAdd_inv (c : Event) b :
  follows c (CancelledAdd b) → c = PendingRemove b.
Proof. destruct c; simpl; try done; intros [?|?]; congruence. Qed.

Lemma follows_ValidRemove_inv (c : Event) b :
  follows c (ValidRemove b) → c = CancelledAdd b.
Proof. destruct c; simpl; try done; [intros [?|?]|intros ?]; congruence. Qed.

Lemma follows_CancelledAdd (c : Event) b :
  follows (CancelledAdd b) c → c = ValidRemove b.
Proof. done. Qed.

(** An event [c] that only ever follows the event [a] occurs at most as
    often as [a]. *)
Lemma occurrences_follows (a c : Event) e l :
  (∀ x, follows x c → x = a) →
  chain good_step e l →
  occurrences c l ≤ occurrences a l + (if decide (ev e = a) then 1 else 0).
Proof.
  intros Hac. revert e. induction l as [|e' l IH]; intros e.
  { unfold occurrences. simpl. lia. }
  intros [Hg Hc]. rewrite !occurrences_cons. specialize (IH e' Hc).
  destruct Hg as (_ & _ & _ & Hf & _).
  destruct (decide (ev e' = c)) as [Hev|]; [|lia].
  rewrite Hev in Hf. apply Hac in Hf. destruct (decide (ev e = a)); [lia|done].
Qed.

(** An event [a] that is always followed by [c] occurs at most as often
    as [c], in a trace that does not end on [a]. *)
Lemma occurrences_followed (a c : Event) e l :
  (∀ x, follows a x → x = c) →
  chain good_step e l →
  ev (last_entry e l) ≠ a →
  occurrences a l + (if decide (ev e = a) then 1 else 0) ≤ occurrences c l.
Proof.
  intros Hac. revert e. induction l as [|e' l IH]; intros e.
  { unfold occurrences. simpl. intros _ Hne. by destruct (decide _). }
  intros [Hg Hc] Hlast. rewrite !occurrences_cons.
  change (e' :: l) with ([e'] ++ l) in Hlast. rewrite last_entry_app in Hlast.
  specialize (IH e' Hc Hlast).
  destruct Hg as (_ & _ & _ & Hf & _).
  destruct (decide (ev e = a)) as [Hev|]; [|lia].
  rewrite Hev in Hf. apply Hac in Hf. destruct (decide (ev e' = c)); [lia|done].
Qed.

(** A builder that entered [cancelled] did so by a [CancelledAdd]. *)
Lemma cancelled_by_add e l b :
  chain good_step e l →
  b ∉ _cancelled (post e) → b ∈ _cancelled (post (last_entry e l)) →
  1 ≤ occurrences (CancelledAdd b) l.
Proof.
  revert e. induction l as [|e' l IH]; intros e; [done|].
  intros [Hg Hc] Hn Hin. rewrite occurrences_cons.
  change (e' :: l) with ([e'] ++ l) in Hin. rewrite last_entry_app in Hin.
  destruct (decide (ev e' = CancelledAdd b)); [lia|].
  apply (IH e' Hc); [|done]. intros Hb.
  pose proof (good_step_lifecycle _ _ Hg) as (_ & _ & _ & _ & _ & _ & Hk).
  destruct (Hk b Hb Hn) as [? _]. done.
Qed.

End chains.

(** ** A run followed by a poll *)

Section run_then_poll.
Context {ModuleSetting W : Type}.
Variable cpu_count : option Z.
Variable worker : Work → @Executor ModuleSetting → Builder → option Builder.
Variable latency : nat → nat.
Variable is_batch_job : W → Builder → bool.
Variable exec_poll : @Executor ModuleSetting → Builder → W → W.
Variable is_complete : W → Builder → bool.
Variable is_failure : W → Builder → bool.
Local Abbreviation BuildExecutor := (@BuildExecutor ModuleSetting).
Local Abbreviation SiteConfiguration := (@SiteConfiguration ModuleSetting).
Local Abbreviation Entry := (@Entry ModuleSetting).
Local Abbreviation stable := (@stable ModuleSetting).
Local Abbreviation anywhere := (@anywhere ModuleSetting).
Local Abbreviation nowhere := (@nowhere ModuleSetting).
Local Abbreviation good_step := (@good_step ModuleSetting).
Local Abbreviation shrink_step := (@shrink_step ModuleSetting).
Local Abbreviation run := (run cpu_count worker latency is_batch_job).
Local Abbreviation poll_scan := (poll_scan exec_poll is_complete is_failure).
Local Abbreviation polled_world := (polled_world exec_poll).
Local Abbreviation poll_iteration := (poll_iteration exec_poll is_complete is_failure).
Local Abbreviation poll_loop := (poll_loop exec_poll is_complete is_failure).
Local Abbreviation poll := (poll exec_poll is_complete is_failure).
Local Abbreviation run_then_poll :=
  (run_then_poll cpu_count worker latency is_batch_job exec_poll is_complete is_failure).
Implicit Types (s self : BuildExecutor) (e : Entry) (b x y : Builder).
Implicit Types (bs : list Builder) (cfg : SiteConfiguration).

Lemma init_state_fresh cfg acct mpt pint :
  fresh_tracking (init_state cfg acct mpt pint) ∧
  builders (init_state cfg acct mpt pint) = [].
Proof. done. Qed.

Lemma poll_good fuel w :
  triple good_step no_remove_error stable stable (poll fuel w) (λ _, stable).
Proof.
  unfold poll. eapply triple_bind; [apply poll_loop_good|].
  intros ?. apply triple_get_self. intros self. apply triple_ret. tauto.
Qed.

Lemma run_then_poll_good w fuel bs fuel' w' :
  returns_own_builder worker → NoDup bs →
  triple good_step no_remove_error stable
    (λ e, quiescent (ev e) ∧ fresh_tracking (post e) ∧ builders (post e) = [])
    (run_then_poll w fuel bs fuel' w')
    (λ _, stable).
Proof.
  intros Hown Hnd. unfold run_then_poll.
  eapply triple_bind; [by apply run_good|]. intros ?. apply poll_good.
Qed.

(** What the invariant gives for a whole execution from a new object. *)
Lemma run_then_poll_trace cfg acct mpt pint w fuel bs fuel' w' :
  returns_own_builder worker → NoDup bs →
  let s0 := init_state cfg acct mpt pint in
  let out := run_then_poll w fuel bs fuel' w' s0 in
  Inv s0 ∧
  chain good_step (start s0) out.2 ∧
  out.1 ≠ Raise remove_error ∧
  quiescent (ev (last_entry (start s0) out.2)).
Proof.
  intros Hown Hnd s0 out.
  destruct (triple_elim _ _ _ _ _ _ s0 (run_then_poll_good w fuel bs fuel' w' Hown Hnd))
    as [Hc Hr].
  { split; [done|]. apply init_state_fresh. }
  fold out in Hc, Hr. split_and!; [|done|..].
  - apply unpolled_Inv; [done|]. apply NoDup_nil_2.
  - destruct out.1; [done| |done]. intros [= ->]. by destruct Hr as [Hr _].
  - destruct out.1; [by destruct Hr|by destruct Hr as [_ [? _]]|by destruct Hr].
Qed.

(** C1: in a run followed by a poll on a new orchestrator, with distinct
    builders and backends that return the builder they were given, every
    state reached has each builder in at most one of [_pending],
    [_completed], [_cancelled], and every step obeys the life cycle: the
    only moves are into [_pending] from outside the three sets, and from
    [_pending] to [_completed] or to [_cancelled]. *)
Theorem tracking_sets_one_way cfg acct mpt pint (w w' : W) fuel fuel' bs :
  returns_own_builder worker → NoDup bs →
  let s0 := init_state cfg acct mpt pint in
  let tr := (run_then_poll w fuel bs fuel' w' s0).2 in
  (∀ b, at_most_one s0 b) ∧
  Forall (λ e, ∀ b, at_most_one (post e) b) tr ∧
  chain lifecycle_step (start s0) tr.
Proof.
  intros Hown Hnd s0 tr.
  destruct (run_then_poll_trace cfg acct mpt pint w fuel bs fuel' w' Hown Hnd)
    as (HI & Hc & _ & _).
  fold s0 in HI, Hc. fold tr in Hc. split_and!.
  - by destruct HI as (_ & _ & _ & ?).
  - eapply Forall_impl; [by eapply chain_good_Forall_Inv|].
    by intros e (_ & _ & _ & ?).
  - eapply chain_impl; [|done]. apply good_step_lifecycle.
Qed.

End run_then_poll.

(** ** Dictionaries *)

Section dict_facts.
Context {V : Type}.
Implicit Types (d : list (string * V)) (k : string) (v : V).

Lemma dict_get_set k k' v d :
  dict_get k (dict_set k' v d) = if decide (k = k') then Some v else dict_get k d.
Proof.
  induction d as [|[k0 v0] d IH]; simpl.
  - by destruct (decide (k = k')).
  - destruct (decide (k' = k0)) as [->|Hne]; simpl.
    + by destruct (decide (k = k0)).
    + destruct (decide (k = k0)) as [->|Hne'].
      * by destruct (decide (k0 = k')).
      * done.
Qed.

Lemma dict_get_None k d : dict_get k d = None ↔ k ∉ dict_keys d.
Proof.
  unfold dict_keys. induction d as [|[k0 v0] d IH]; simpl.
  - split; [intros _; apply not_elem_of_nil|done].
  - rewrite not_elem_of_cons. destruct (decide (k = k0)) as [->|Hne].
    + split; [done|]. by intros [? _].
    + rewrite IH. tauto.
Qed.

Lemma dict_get_Some_keys k d v : dict_get k d = Some v → k ∈ dict_keys d.
Proof.
  intros Hg. destruct (decide (k ∈ dict_keys d)) as [|Hn]; [done|].
  apply dict_get_None in Hn. congruence.
Qed.
End dict_facts.

(** ** A builder whose dispatch produced no job *)

Section dropped.
Context {ModuleSetting W : Type}.
Variable cpu_count : option Z.
Variable worker : Work → @Executor ModuleSetting → Builder → option Builder.
Variable latency : nat → nat.
Variable is_batch_job : W → Builder → bool.
Variable exec_poll : @Executor ModuleSetting → Builder → W → W.
Variable is_complete : W → Builder → bool.
Variable is_failure : W → Builder → bool.
Local Abbreviation BuildExecutor := (@BuildExecutor ModuleSetting).
Local Abbreviation SiteConfiguration := (@SiteConfiguration ModuleSetting).
Local Abbreviation Entry := (@Entry ModuleSetting).
Local Abbreviation stable := (@stable ModuleSetting).
Local Abbreviation anywhere := (@anywhere ModuleSetting).
Local Abbreviation nowhere := (@nowhere ModuleSetting).
Local Abbreviation good_step := (@good_step ModuleSetting).
Local Abbreviation shrink_step := (@shrink_step ModuleSetting).
Local Abbreviation submit := (submit worker latency).
Local Abbreviation partition := (partition is_batch_job).
Local Abbreviation run := (run cpu_count worker latency is_batch_job).
Local Abbreviation poll_scan := (poll_scan exec_poll is_complete is_failure).
Local Abbreviation poll_iteration := (poll_iteration exec_poll is_complete is_failure).
Local Abbreviation poll_loop := (poll_loop exec_poll is_complete is_failure).
Local Abbreviation poll := (poll exec_poll is_complete is_failure).
Local Abbreviation run_then_poll :=
  (run_then_poll cpu_count worker latency is_batch_job exec_poll is_complete is_failure).
Implicit Types (s self : BuildExecutor) (e : Entry) (x y : Builder).
Implicit Types (bs : list Builder) (cfg : SiteConfiguration).

(** The builder the section is about. *)
Variable b : Builder.
Local Abbreviation asynchronous := (asynchronous b).
Local Abbreviation untracked_step := (@untracked_step ModuleSetting b).
Local Abbreviation untracked_at := (@untracked_at ModuleSetting b).
Local Abbreviation dropped_at := (@dropped_at ModuleSetting b).


Lemma untracked_apply (c : Event) s s' :
  apply_event c s = inr s' → added c ≠ Some b → untracked s b → untracked s' b.
Proof.
  intros Ha Hc (Hv & Hp & Hk & Hn). unfold untracked.
  destruct c; simpl in Ha, Hc; try case_match; simplify_eq; simpl;
    split_and!; try done.
  - rewrite elem_of_app, list_elem_of_singleton. intros [?|?]; congruence.
  - rewrite elem_of_app, list_elem_of_singleton. intros [?|?]; congruence.
  - intros ?. apply Hp. by eapply list_remove_elem_of.
  - rewrite elem_of_union, elem_of_singleton. intros [?|?]; congruence.
  - rewrite elem_of_union, elem_of_singleton. intros [?|?]; congruence.
  - intros ?. apply Hv. by eapply list_remove_elem_of.
Qed.

Lemma asynchronous_apply (c : Event) s s' :
  apply_event c s = inr s' → asynchronous s → asynchronous s'.
Proof.
  intros Ha Hs.
  destruct c as [|k x| | | | | | | | |]; simpl in Ha; try case_match;
    simplify_eq; try done.
  intros ex. unfold get. simpl. rewrite dict_get_set.
  destruct (decide (executor b = k)) as [Heq|]; [|apply Hs].
  intros [= <-]. simpl. apply Hs. unfold get. by rewrite Heq.
Qed.

Lemma emit_dropped (c : Event) :
  added c ≠ Some b →
  triple untracked_step any_exn untracked_at dropped_at (emit c) (λ _, dropped_at).
Proof.
  intros Hc. apply triple_emit. intros e [Hu Ha].
  destruct (apply_event c (post e)) as [err|s'] eqn:Happ; [done|].
  pose proof (untracked_apply _ _ _ Happ Hc Hu).
  pose proof (asynchronous_apply _ _ _ Happ Ha). done.
Qed.

Lemma choose_executor_dropped (P : Entry → Prop) x :
  (∀ e, P e → untracked_at e) →
  triple untracked_step any_exn untracked_at P (_choose_executor x)
    (λ ex e, P e ∧ get (post e) (executor x) = Some ex).
Proof.
  intros HP. unfold _choose_executor. apply triple_get_self. intros self.
  destruct (get self (executor x)) as [ex|] eqn:Hg.
  - apply triple_ret. by intros e [? ->].
  - apply triple_raise. intros e [? _]. split; [done|]. by apply HP.
Qed.

Lemma assign_dropped bs :
  triple untracked_step any_exn untracked_at dropped_at (assign bs) (λ _, dropped_at).
Proof.
  unfold assign. apply (triple_for_each _ _ _ (λ _, dropped_at)). intros x rest.
  eapply triple_bind; [apply choose_executor_dropped; by intros e [? _]|].
  intros ex. simpl.
  eapply triple_bind with (Q1 := λ _, dropped_at).
  - eapply triple_conseq; [by apply (emit_dropped (AddBuilder (executor x) x))| |done].
    by intros e [? _].
  - intros ?. by apply emit_dropped.
Qed.

Lemma submit_dropped bs : ∀ results,
  returns_own_builder worker →
  (∀ ex, worker DispatchWork ex b = None) →
  (∀ t, t ∈ omap task results → t ≠ b) →
  triple untracked_step any_exn untracked_at dropped_at (submit bs results)
    (λ rs e, dropped_at e ∧ ∀ t, t ∈ omap task rs → t ≠ b).
Proof.
  induction bs as [|x bs IH]; intros results Hown Hnone Hres; simpl.
  { apply triple_ret. done. }
  eapply triple_bind; [apply choose_executor_dropped; by intros e [? _]|].
  intros ex. simpl.
  set (wk := if decide (type ex = "local"%string) then RunWork else DispatchWork).
  apply (triple_pure _ _ _ _ (worker wk ex x ≠ Some b)).
  { intros e [[_ Ha] Hg] Hw. pose proof (Hown _ _ _ _ Hw) as <-.
    specialize (Ha ex Hg). unfold wk in Hw.
    destruct (decide (type ex = "local"%string)); [done|]. by rewrite Hnone in Hw. }
  intros Hw.
  eapply triple_bind with
    (Q1 := λ r e, dropped_at e ∧
                  r = mkResult (length results) (latency (length results))
                        (worker wk ex x)).
  - unfold apply_async.
    eapply triple_bind with (Q1 := λ _, dropped_at).
    + eapply triple_conseq; [by apply (emit_dropped (ApplyAsync wk (name ex) x))| |done].
      by intros e [? _].
    + intros ?. by apply triple_ret.
  - intros r. apply (triple_pure _ _ _ _
      (r = mkResult (length results) (latency (length results)) (worker wk ex x)));
      [by intros e [_ ?]|intros ->].
    eapply triple_conseq; [apply IH| |done]; try done.
    + intros t. rewrite omap_app, elem_of_app. simpl. intros [Ht|Ht]; [by apply Hres|].
      destruct (worker wk ex x) as [t'|]; simpl in Ht.
      * apply list_elem_of_singleton in Ht as ->. congruence.
      * by apply elem_of_nil in Ht.
    + by intros e [? _].
Qed.

Lemma remove_ready_sublist (ready results results' : list AsyncResult) :
  remove_ready ready results = inr results' → results' `sublist_of` results.
Proof.
  revert results. induction ready as [|r ready IH]; intros results; simpl.
  { by intros [= ->]. }
  destruct (list_remove r results) as [res1|] eqn:Hr; [|done].
  intros Hrem. etrans; [by apply IH|]. by eapply list_remove_sublist.
Qed.

Lemma collect_pass_dropped rs : ∀ clock ready,
  (∀ t, t ∈ omap task rs → t ≠ b) →
  triple untracked_step any_exn untracked_at dropped_at
    (collect_pass rs clock ready) (λ _, dropped_at).
Proof.
  induction rs as [|r rs IH]; intros clock ready Hrs; simpl.
  { by apply triple_ret. }
  assert (∀ t, t ∈ omap task rs → t ≠ b) as Hrs'.
  { intros t Ht. apply Hrs. simpl. destruct (task r); [by right|done]. }
  destruct (decide (ready_at r ≤ clock)%nat); [|by apply IH].
  eapply triple_bind with (Q1 := λ _, dropped_at); [|intros ?; by apply IH].
  destruct (task r) as [t|] eqn:Ht; [|by apply triple_ret].
  apply emit_dropped. simpl. intros [= ->]. apply (Hrs b); [|done].
  simpl. rewrite Ht. by left.
Qed.

Lemma collect_dropped fuel : ∀ clock results,
  (∀ t, t ∈ omap task results → t ≠ b) →
  triple untracked_step any_exn untracked_at dropped_at
    (collect fuel clock results) (λ _, dropped_at).
Proof.
  induction fuel as [|fuel IH]; intros clock results Hres.
  - destruct results; simpl; [by apply triple_ret|].
    apply triple_out_of_fuel. by intros e [? _].
  - destruct results as [|r results]; [by apply triple_ret|].
    set (res := r :: results) in *. cbn [collect].
    eapply triple_bind; [by apply collect_pass_dropped|].
    intros cr. destruct (remove_ready cr.2 res) as [err|results'] eqn:Hrem.
    + apply triple_raise. by intros e [? _].
    + apply IH. intros t Ht. apply Hres.
      apply remove_ready_sublist in Hrem.
      apply list_elem_of_omap in Ht as (r' & Hr' & Ht).
      apply list_elem_of_omap. exists r'. split; [|done].
      by eapply elem_of_sublist.
Qed.

Lemma partition_dropped w :
  triple untracked_step any_exn untracked_at dropped_at (partition w) (λ _, dropped_at).
Proof.
  unfold partition. apply triple_get_self. intros self.
  apply (triple_pure _ _ _ _ (b ∉ _validbuilders self));
    [by intros e [[(? & _) _] <-]|intros Hb].
  eapply triple_conseq with
    (P := (λ rest e, dropped_at e ∧ b ∉ rest) (_validbuilders self))
    (Q := λ _, (λ rest e, dropped_at e ∧ b ∉ rest) []).
  - apply (triple_for_each _ _ _ (λ rest e, dropped_at e ∧ b ∉ rest)).
    intros x rest.
    destruct (is_batch_job w x).
    + eapply triple_conseq with (P := λ e, dropped_at e ∧ b ∉ x :: rest)
        (Q := λ _ e, (λ e', dropped_at e' ∧ b ∉ x :: rest) e).
      * intros e [Hd Hb']. apply not_elem_of_cons in Hb' as [Hne Hb'].
        destruct (emit_dropped (PendingAppend x) ltac:(simpl; congruence) e Hd)
          as [Hc Hr]. split; [done|].
        destruct (emit (PendingAppend x) (post e)).1; try done.
        split; [done|]. apply not_elem_of_cons. done.
      * done.
      * intros _ e [? Hb']. apply not_elem_of_cons in Hb' as [_ ?]. done.
    + apply triple_ret. intros e [? Hb']. apply not_elem_of_cons in Hb' as [_ ?]. done.
  - intros e [? _]. done.
  - by intros _ e [? _].
Qed.

Lemma run_dropped w fuel bs :
  returns_own_builder worker →
  (∀ ex, worker DispatchWork ex b = None) →
  triple untracked_step any_exn untracked_at dropped_at (run w fuel bs) (λ _, dropped_at).
Proof.
  intros Hown Hnone. unfold run.
  eapply triple_bind; [apply assign_dropped|]. intros ?.
  apply triple_get_self. intros self.
  eapply triple_conseq with (P := dropped_at) (Q := λ _, dropped_at);
    [|by intros e [? _]|done].
  destruct (compute_num_workers _ _) as [err|n].
  { apply triple_raise. by intros e [? _]. }
  eapply triple_bind with (Q1 := λ _, dropped_at).
  { unfold Pool. destruct (n <? 1)%Z.
    - apply triple_raise. by intros e [? _].
    - by apply emit_dropped. }
  intros ?. apply triple_get_self. intros self'.
  eapply triple_bind with
    (Q1 := λ rs e, dropped_at e ∧ ∀ t, t ∈ omap task rs → t ≠ b).
  { eapply triple_conseq; [apply (submit_dropped _ [] Hown Hnone)| |done].
    - by intros t ?%elem_of_nil.
    - by intros e [? _]. }
  intros rs.
  apply (triple_pure _ _ _ _ (∀ t, t ∈ omap task rs → t ≠ b));
    [by intros e [_ ?]|intros Hrs].
  eapply triple_bind; [|intros ?; apply partition_dropped].
  eapply triple_conseq; [by apply collect_dropped| |done].
  by intros e [? _].
Qed.

Lemma poll_iteration_dropped w :
  triple untracked_step any_exn untracked_at dropped_at (poll_iteration w)
    (λ _, dropped_at).
Proof.
  unfold poll_iteration.
  apply triple_get_self. intros self.
  apply (triple_pure _ _ _ _ (b ∉ _pending self));
    [by intros e [[(_ & ? & _) _] <-]|intros Hb].
  destruct (poll_scan self (_pending self) w [] []) as [err|[[w' cs] ds]] eqn:Hscan.
  { apply triple_raise. by intros e [[? _] _]. }
  destruct (poll_scan_submseteq _ _ _ _ _ _ _ _ _ _ _ Hscan) as (c & d & -> & -> & Hsub).
  simpl. rewrite !guarded_for_each.
  assert ((b ∉ d) ∧ (b ∉ c)) as [Hd Hc].
  { split; intros Hin; apply Hb; eapply elem_of_submseteq; [|done| |done];
      apply elem_of_app; eauto. }
  eapply triple_conseq with (P := dropped_at) (Q := λ _, dropped_at);
    [|by intros e [? _]|done].
  eapply triple_bind with (Q1 := λ _, dropped_at).
  { eapply triple_conseq with
      (P := (λ rest e, dropped_at e ∧ b ∉ rest) d);
      [apply (triple_for_each _ _ _ (λ rest e, dropped_at e ∧ b ∉ rest))|done|by intros ? e [? _]].
    intros x rest.
    apply (triple_pure _ _ _ _ (x ≠ b ∧ b ∉ rest)).
    { intros e [_ Hn]. apply not_elem_of_cons in Hn as [? ?]. done. }
    intros [Hx Hrest].
    eapply triple_conseq with (P := dropped_at) (Q := λ _, dropped_at);
      [|by intros e [? _]|done].
    eapply triple_bind with (Q1 := λ _, dropped_at); [by apply emit_dropped|].
    intros ?. apply emit_dropped. simpl. congruence. }
  intros ?. eapply triple_bind with (Q1 := λ _, dropped_at);
    [|intros ?; by apply triple_ret].
  eapply triple_conseq with
    (P := (λ rest e, dropped_at e ∧ b ∉ rest) c);
    [apply (triple_for_each _ _ _ (λ rest e, dropped_at e ∧ b ∉ rest))|done|by intros ? e [? _]].
  intros x rest.
  apply (triple_pure _ _ _ _ (x ≠ b ∧ b ∉ rest)).
  { intros e [_ Hn]. apply not_elem_of_cons in Hn as [? ?]. done. }
  intros [Hx Hrest].
  eapply triple_conseq with (P := dropped_at) (Q := λ _, dropped_at);
    [|by intros e [? _]|done].
  eapply triple_bind with (Q1 := λ _, dropped_at); [by apply emit_dropped|].
  intros ?. eapply triple_bind with (Q1 := λ _, dropped_at).
  - apply emit_dropped. simpl. congruence.
  - intros ?. by apply emit_dropped.
Qed.

Lemma poll_loop_dropped fuel w :
  triple untracked_step any_exn untracked_at dropped_at (poll_loop fuel w)
    (λ _, dropped_at).
Proof.
  revert w. induction fuel as [|fuel IH]; intros w; simpl;
    apply triple_get_self; intros self.
  - destruct (_pending self); [apply triple_ret|apply triple_out_of_fuel];
      by intros e [[? ?] _].
  - destruct (_pending self); [apply triple_ret; by intros e [[? ?] _]|].
    eapply triple_conseq with (P := dropped_at) (Q := λ _, dropped_at);
      [|by intros e [? _]|done].
    eapply triple_bind; [apply poll_iteration_dropped|]. intros w'. apply IH.
Qed.

Lemma poll_dropped fuel w :
  triple untracked_step any_exn untracked_at dropped_at (poll fuel w)
    (λ r e, untracked_at e ∧ ∀ report, r = Some report → b ∉ report).
Proof.
  unfold poll. eapply triple_bind; [apply poll_loop_dropped|].
  intros ?. apply triple_get_self. intros self. apply triple_ret.
  intros e [[Hu _] <-]. split; [done|]. intros report.
  destruct (decide _); [done|]. intros [= <-].
  rewrite elem_of_elements. by destruct Hu as (_ & _ & _ & ?).
Qed.

Lemma chain_untracked e l :
  chain untracked_step e l → Forall (λ e', untracked (post e') b) l.
Proof.
  revert e. induction l as [|e' l IH]; intros e; [done|].
  intros [? ?]. constructor; eauto.
Qed.


End dropped.

(** ** Resolution of executors, and the pool *)

Section resolution.
Context {ModuleSetting W : Type}.
Variable cpu_count : option Z.
Variable worker : Work → @Executor ModuleSetting → Builder → option Builder.
Variable latency : nat → nat.
Variable is_batch_job : W → Builder → bool.
Local Abbreviation BuildExecutor := (@BuildExecutor ModuleSetting).
Local Abbreviation SiteConfiguration := (@SiteConfiguration ModuleSetting).
Local Abbreviation Entry := (@Entry ModuleSetting).
Local Abbreviation stable := (@stable ModuleSetting).
Local Abbreviation anywhere := (@anywhere ModuleSetting).
Local Abbreviation nowhere := (@nowhere ModuleSetting).
Local Abbreviation good_step := (@good_step ModuleSetting).
Local Abbreviation shrink_step := (@shrink_step ModuleSetting).
Local Abbreviation M := (@M ModuleSetting).
Local Abbreviation run := (run cpu_count worker latency is_batch_job).
Implicit Types (s self : BuildExecutor) (e : Entry) (b x y : Builder).
Local Abbreviation width_of := (width_of cpu_count).
Local Abbreviation pool_step := (@pool_step ModuleSetting cpu_count).
Implicit Types (bs : list Builder) (cfg : SiteConfiguration).


Lemma choose_executor_eq b s :
  _choose_executor b s =
  match get s (executor b) with
  | Some ex => (Done ex, [])
  | None => (Raise not_an_executor, [])
  end.
Proof. unfold _choose_executor, bind, get_self. simpl. by destruct (get s _). Qed.

Lemma bind_Raise {A B} (m : M A) (f : A → M B) s err l :
  m s = (Raise err, l) → bind m f s = (Raise err, l).
Proof. intros H. unfold bind. by rewrite H. Qed.

(** The body of the first loop, for a builder whose executor resolves. *)
Lemma assign_body_eq b s ex :
  get s (executor b) = Some ex →
  ∃ s1 s2,
    (let* ex := _choose_executor b in
     emit (AddBuilder (executor b) b) >> emit (BuildersAppend b)) s =
    (Done tt, [mkEntry (AddBuilder (executor b) b) s1; mkEntry (BuildersAppend b) s2]) ∧
    configuration s2 = configuration s ∧
    (∀ k, get s k = None → get s2 k = None) ∧
    (∀ k, is_Some (get s k) → is_Some (get s2 k)).
Proof.
  intros Hg. unfold bind at 1. rewrite choose_executor_eq, Hg.
  unfold bind, emit, final. simpl. unfold get in Hg. rewrite Hg. simpl.
  do 2 eexists. split; [reflexivity|]. simpl. split; [done|].
  unfold get. simpl. split; intros k; rewrite dict_get_set;
    destruct (decide (k = executor b)) as [->|]; try done.
  by rewrite Hg.
Qed.

Lemma assign_raises bs : ∀ s b,
  b ∈ bs → get s (executor b) = None →
  ∃ l, assign bs s = (Raise not_an_executor, l) ∧
       Forall (λ e, assignment (ev e)) l.
Proof.
  induction bs as [|x bs IH]; intros s b Hb Hnone.
  { by apply elem_of_nil in Hb. }
  unfold assign. cbn [for_each].
  destruct (get s (executor x)) as [ex|] eqn:Hx.
  - destruct (assign_body_eq x s ex Hx) as (s1 & s2 & Hbody & _ & Hkeep & _).
    erewrite bind_Done; [|exact Hbody].
    assert (b ∈ bs) as Hb'.
    { apply elem_of_cons in Hb as [->|]; [congruence|done]. }
    destruct (IH (final s [mkEntry (AddBuilder (executor x) x) s1;
                           mkEntry (BuildersAppend x) s2]) b Hb') as (l & Hl & Hall).
    { apply Hkeep. done. }
    unfold assign in Hl. rewrite Hl. simpl. eexists. split; [done|].
    repeat constructor; done.
  - exists []. split; [|done]. apply bind_Raise. unfold bind at 1.
    by rewrite choose_executor_eq, Hx.
Qed.

Lemma occurrences_zero (c : Event) (l : list Entry) :
  Forall (λ e, ev e ≠ c) l → occurrences c l = 0.
Proof.
  unfold occurrences. induction 1 as [|e l Hne _ IH]; [done|].
  rewrite filter_cons. by destruct (decide _).
Qed.

(** C6, as the code has it: when the executor of one of the builders is
    not registered, [run] raises [ExecutorError]; before that it creates no
    pool and submits no builder. *)
Theorem unknown_executor_aborts_run s (w : W) fuel bs b :
  b ∈ bs → get s (executor b) = None →
  let out := run w fuel bs s in
  out.1 = Raise not_an_executor ∧
  (∀ n, occurrences (PoolCreate n) out.2 = 0) ∧
  (∀ wk k x, occurrences (ApplyAsync wk k x) out.2 = 0).
Proof.
  intros Hb Hnone out.
  destruct (assign_raises bs s b Hb Hnone) as (l & Hl & Hall).
  assert (out = (Raise not_an_executor, l)) as ->.
  { unfold out, run. by apply bind_Raise. }
  simpl. split_and!; [done|..]; intros; apply occurrences_zero;
    eapply Forall_impl; [exact Hall| |exact Hall|]; intros e He Heq;
    simpl in He; by rewrite Heq in He.
Qed.

(** *** The width of the pool *)


Lemma apply_event_configuration (c : Event) s s' :
  apply_event c s = inr s' → configuration s' = configuration s.
Proof. destruct c; simpl; try case_match; by intros [= <-]. Qed.

Lemma emit_no_pool (c : Event) :
  (∀ n, c ≠ PoolCreate n) →
  triple pool_step any_exn anywhere anywhere (emit c) (λ _, anywhere).
Proof.
  intros Hc. apply triple_emit. intros e _.
  destruct (apply_event c (post e)) as [err|s'] eqn:Ha; [done|].
  split; [|done]. split; simpl.
  - by eapply apply_event_configuration.
  - intros n ->. by destruct (Hc n).
Qed.

Lemma choose_executor_anywhere R b :
  triple R any_exn anywhere anywhere (_choose_executor b)
    (λ _, anywhere).
Proof.
  unfold _choose_executor. apply triple_get_self. intros self.
  destruct (get self (executor b)); [by apply triple_ret|by apply triple_raise].
Qed.

Lemma assign_pool bs :
  triple pool_step any_exn anywhere anywhere (assign bs) (λ _, anywhere).
Proof.
  unfold assign. apply (triple_for_each _ _ _ (λ _, anywhere)). intros x rest.
  eapply triple_bind; [apply choose_executor_anywhere|]. intros ex.
  eapply triple_bind; [by apply emit_no_pool|]. intros ?. by apply emit_no_pool.
Qed.

Lemma submit_pool bs : ∀ results,
  triple pool_step any_exn anywhere anywhere (submit worker latency bs results)
    (λ _, anywhere).
Proof.
  induction bs as [|x bs IH]; intros results; simpl; [by apply triple_ret|].
  eapply triple_bind; [apply choose_executor_anywhere|]. intros ex.
  eapply triple_bind with (Q1 := λ _, anywhere); [|intros ?; apply IH].
  unfold apply_async. eapply triple_bind; [by apply emit_no_pool|].
  intros ?. by apply triple_ret.
Qed.

Lemma collect_pass_pool rs : ∀ clock ready,
  triple pool_step any_exn anywhere anywhere (collect_pass rs clock ready)
    (λ _, anywhere).
Proof.
  induction rs as [|r rs IH]; intros clock ready; simpl; [by apply triple_ret|].
  destruct (decide _); [|apply IH].
  eapply triple_bind with (Q1 := λ _, anywhere); [|intros ?; apply IH].
  destruct (task r); [by apply emit_no_pool|by apply triple_ret].
Qed.

Lemma collect_pool fuel : ∀ clock results,
  triple pool_step any_exn anywhere anywhere (collect fuel clock results)
    (λ _, anywhere).
Proof.
  induction fuel as [|fuel IH]; intros clock [|r results]; cbn [collect];
    try (by apply triple_ret); try (by apply triple_out_of_fuel).
  eapply triple_bind with (Q1 := λ _, anywhere).
  - apply (collect_pass_pool (r :: results)).
  - intros cr. destruct (remove_ready _ _); [by apply triple_raise|apply IH].
Qed.

Lemma partition_pool w :
  triple pool_step any_exn anywhere anywhere (partition is_batch_job w)
    (λ _, anywhere).
Proof.
  unfold partition. apply triple_get_self. intros self.
  eapply triple_conseq with (P := anywhere) (Q := λ _, anywhere); [|done..].
  apply (triple_for_each _ _ _ (λ _, anywhere)). intros x rest.
  destruct (is_batch_job w x); [by apply emit_no_pool|by apply triple_ret].
Qed.

Lemma run_pool w fuel bs :
  triple pool_step any_exn anywhere anywhere (run w fuel bs) (λ _, anywhere).
Proof.
  unfold run.
  eapply triple_bind; [apply assign_pool|]. intros ?.
  apply triple_get_self. intros self.
  destruct (compute_num_workers _ _) as [err|n] eqn:Hn; [by apply triple_raise|].
  eapply triple_bind with (Q1 := λ _, anywhere).
  { unfold Pool. destruct (n <? 1)%Z eqn:Hlt; [by apply triple_raise|].
    apply triple_emit. intros e [_ <-]. simpl. split; [|done].
    split; [done|]. simpl. intros ? [= <-]. split; [|lia].
    unfold compute_num_workers in Hn. unfold width_of.
    repeat case_match; simplify_eq. by eauto. }
  intros ?. apply triple_get_self. intros self'.
  eapply triple_conseq with (P := anywhere) (Q := λ _, anywhere); [|done..].
  eapply triple_bind; [apply submit_pool|]. intros rs.
  eapply triple_bind; [apply collect_pool|]. intros ?. apply partition_pool.
Qed.

Lemma chain_pool_configuration e l :
  chain pool_step e l →
  configuration (post (last_entry e l)) = configuration (post e) ∧
  ∀ n, PoolCreate n ∈ ev <$> l →
       width_of (target_config (configuration (post e))) n ∧ (1 ≤ n)%Z.
Proof.
  revert e. induction l as [|e' l IH]; intros e.
  { split; [done|]. by intros n ?%elem_of_nil. }
  intros [[Hcfg Hw] Hc]. destruct (IH e' Hc) as [Hcfg' Hw'].
  change (e' :: l) with ([e'] ++ l). rewrite last_entry_app. simpl.
  split; [congruence|]. intros n [Hn|Hn]%elem_of_cons; [by apply Hw|].
  rewrite <-Hcfg. by apply Hw'.
Qed.

Lemma assign_ok bs : ∀ s,
  (∀ b, b ∈ bs → is_Some (get s (executor b))) →
  ∃ l, assign bs s = (Done tt, l) ∧
       configuration (final s l) = configuration s.
Proof.
  induction bs as [|x bs IH]; intros s Hreg.
  { by exists []. }
  unfold assign. cbn [for_each].
  destruct (Hreg x) as [ex Hx]; [by left|].
  destruct (assign_body_eq x s ex Hx) as (s1 & s2 & Hbody & Hcfg & _ & Hkeep).
  erewrite bind_Done; [|exact Hbody].
  set (l1 := [mkEntry (AddBuilder (executor x) x) s1; mkEntry (BuildersAppend x) s2]).
  destruct (IH (final s l1)) as (l & Hl & Hcfg').
  { intros b Hb. apply Hkeep. apply Hreg. by right. }
  unfold assign in Hl. rewrite Hl. cbn [fst snd]. exists (l1 ++ l).
  split; [done|]. rewrite final_app, Hcfg'. exact Hcfg.
Qed.

Lemma pool_created s n (rest : M unit) :
  compute_num_workers cpu_count (target_config (configuration s)) = inr n →
  (1 ≤ n)%Z →
  PoolCreate n ∈
    ev <$> ((let* self := get_self in
             match compute_num_workers cpu_count
                     (target_config (configuration self)) with
             | inl err => raise err
             | inr num_workers => Pool num_workers >> rest
             end) s).2.
Proof.
  intros Hn Hle. unfold bind at 1, get_self. cbn [final_nil].
  rewrite final_nil, Hn. unfold bind, Pool.
  destruct (n <? 1)%Z eqn:Hlt; [lia|].
  unfold emit. cbn [apply_event].
  destruct (rest _) as [r l']. simpl. by left.
Qed.


End resolution.

(** ** [run] returns *)

Section termination.
Context {ModuleSetting W : Type}.
Variable cpu_count : option Z.
Variable worker : Work → @Executor ModuleSetting → Builder → option Builder.
Variable latency : nat → nat.
Variable is_batch_job : W → Builder → bool.
Local Abbreviation BuildExecutor := (@BuildExecutor ModuleSetting).
Local Abbreviation Entry := (@Entry ModuleSetting).
Local Abbreviation M := (@M ModuleSetting).
Local Abbreviation submit := (submit worker latency).
Local Abbreviation run := (run cpu_count worker latency is_batch_job).
Implicit Types (s : BuildExecutor) (bs : list Builder) (rs : list AsyncResult).

Lemma bind_returns {A B} (m : M A) (f : A → M B) s :
  returns m s →
  (∀ a l, m s = (Done a, l) → returns (f a) (final s l)) →
  returns (bind m f) s.
Proof.
  unfold returns, bind. intros Hm Hf.
  destruct (m s) as [[a| |] l]; simpl in *; [|done..].
  specialize (Hf a l eq_refl). by destruct (f a (final s l)).
Qed.

Lemma bind_Done_inv {A B} (m : M A) (f : A → M B) s (v : B) l :
  bind m f s = (Done v, l) →
  ∃ a l1 l2, m s = (Done a, l1) ∧ f a (final s l1) = (Done v, l2) ∧ l = l1 ++ l2.
Proof.
  unfold bind. destruct (m s) as [[a| |] l1]; [|done..].
  destruct (f a (final s l1)) as [r l2] eqn:Hf. intros [= -> <-]. by eauto 6.
Qed.

Lemma emit_returns (c : Event) s : returns (emit c) s.
Proof. unfold returns, emit. by destruct (apply_event c s). Qed.

Lemma for_each_returns {A} (xs : list A) (f : A → M unit) :
  (∀ x s, returns (f x) s) → ∀ s, returns (for_each xs f) s.
Proof.
  intros Hf. induction xs as [|x xs IH]; intros s; [done|].
  apply bind_returns; [apply Hf|]. intros; apply IH.
Qed.

Lemma choose_executor_returns b s : returns (_choose_executor b) s.
Proof. unfold returns. rewrite choose_executor_eq. by destruct (get s _). Qed.

Lemma assign_returns bs s : returns (assign bs) s.
Proof.
  apply for_each_returns. intros x s'.
  apply bind_returns; [apply choose_executor_returns|]. intros ex l _.
  apply bind_returns; [apply emit_returns|]. intros; apply emit_returns.
Qed.

Lemma partition_returns w s : returns (partition is_batch_job w) s.
Proof.
  unfold partition. apply bind_returns; [done|]. intros self l _.
  apply for_each_returns. intros x s'.
  destruct (is_batch_job w x); [apply emit_returns|done].
Qed.

Lemma submit_returns bs : ∀ rs s, returns (submit bs rs) s.
Proof.
  induction bs as [|x bs IH]; intros rs s; [done|]. simpl.
  apply bind_returns; [apply choose_executor_returns|]. intros ex l _.
  apply bind_returns; [|intros; apply IH].
  unfold apply_async. apply bind_returns; [apply emit_returns|done].
Qed.

(** The results of the submissions are ready at the times [latency]
    gives, in the order of submission. *)
Lemma submit_ready_at bs : ∀ rs s rs' l,
  submit bs rs s = (Done rs', l) →
  ready_at <$> rs' =
    (ready_at <$> rs) ++ (latency <$> seq (length rs) (length bs)).
Proof.
  induction bs as [|x bs IH]; intros rs s rs' l; simpl.
  { intros [= <- _]. by rewrite app_nil_r. }
  intros (ex & l1 & l2 & _ & Hrest & _)%bind_Done_inv.
  apply bind_Done_inv in Hrest as (r & l3 & l4 & Hr & Hrest & _).
  unfold apply_async in Hr.
  apply bind_Done_inv in Hr as ([] & l5 & l6 & _ & [= <- _] & _).
  apply IH in Hrest. rewrite Hrest, fmap_app, length_app. simpl.
  rewrite <-app_assoc. simpl. by rewrite Nat.add_1_r.
Qed.

Lemma waiting_latency rs : ∀ (ixs : list nat),
  ready_at <$> rs = latency <$> ixs →
  waiting 0 rs = sum_list_with (λ i, S (latency i)) ixs.
Proof.
  unfold waiting. induction rs as [|r rs IH]; intros [|i ixs]; simpl; try done.
  intros [= Hr Hrs]. rewrite (IH ixs Hrs), Hr. lia.
Qed.

Lemma waiting_mono clock clock' rs :
  clock ≤ clock' → waiting clock' rs ≤ waiting clock rs.
Proof.
  intros Hle. unfold waiting. induction rs as [|r rs IH]; simpl; lia.
Qed.

Lemma waiting_later clock clock' rs :
  clock < clock' → rs ≠ [] → Forall (λ r, clock < ready_at r) rs →
  waiting clock' rs < waiting clock rs.
Proof.
  intros Hlt Hne Hall. unfold waiting.
  induction Hall as [|r rs Hr Hall IH]; [done|]. simpl.
  destruct rs as [|r' rs]; simpl in *; [lia|].
  specialize (IH ltac:(done)). lia.
Qed.

(** One pass returns; it made progress: some result was ready, or the
    clock advanced by the length of the list while all were late. *)
Lemma collect_pass_result rs : ∀ clock ready s,
  ∃ clock' rdy l,
    collect_pass rs clock ready s = (Done (clock', ready ++ rdy), l) ∧
    rdy `sublist_of` rs ∧ clock ≤ clock' ∧
    (rdy = [] → clock' = clock + length rs ∧
                Forall (λ r, clock < ready_at r) rs).
Proof.
  induction rs as [|r rs IH]; intros clock ready s; simpl.
  { exists clock, [], []. rewrite app_nil_r. split_and!; [done..|].
    intros _. split; [lia|done]. }
  destruct (decide (ready_at r ≤ clock)) as [Hready|Hlate].
  - set (m := match task r with Some t => emit (ValidAppend t) | None => ret tt end).
    assert (∃ l0, m s = (Done tt, l0)) as [l0 Hm].
    { unfold m. destruct (task r); [|by eexists].
      unfold emit. simpl. by eexists. }
    destruct (IH clock (ready ++ [r]) (final s l0)) as (clock' & rdy & l & Hp & Hsub & Hle & _).
    exists clock', (r :: rdy), (l0 ++ l). split_and!.
    + erewrite bind_Done; [|exact Hm]. rewrite Hp. simpl.
      by rewrite <-app_assoc.
    + by constructor.
    + done.
    + done.
  - destruct (IH (S clock) ready s) as (clock' & rdy & l & Hp & Hsub & Hle & Hnone).
    exists clock', rdy, l. split_and!; [done|by constructor|lia|].
    intros Hrdy. destruct (Hnone Hrdy) as [-> Hall]. split; [simpl; lia|].
    constructor; [lia|]. eapply Forall_impl; [done|]. simpl. lia.
Qed.

Lemma collect_returns fuel : ∀ clock rs s,
  waiting clock rs < fuel → returns (collect fuel clock rs) s.
Proof.
  induction fuel as [|fuel IH]; intros clock rs s Hfuel; [lia|].
  destruct rs as [|r rs]; [done|]. cbn [collect].
  assert (r :: rs ≠ []) as Hne by done. revert Hne Hfuel.
  generalize (r :: rs). clear r rs. intros res Hne Hfuel.
  destruct (collect_pass_result res clock [] s)
    as (clock' & rdy & l & Hp & Hsub & Hle & Hnone).
  unfold returns. erewrite bind_Done; [|exact Hp]. cbn [fst snd app].
  destruct (remove_ready_ok rdy res) as (res' & Hrem & Hperm);
    [by apply sublist_submseteq|].
  rewrite Hrem. apply IH.
  destruct rdy as [|r0 rdy].
  - simpl in Hrem. injection Hrem as <-.
    destruct (Hnone eq_refl) as [-> Hall].
    pose proof (waiting_later clock (clock + length res) res) as Hlater.
    assert (length res ≠ 0) by (by destruct res).
    specialize (Hlater ltac:(lia) Hne Hall). lia.
  - pose proof (waiting_mono clock clock' res' Hle) as Hmono.
    assert (waiting clock res = waiting clock (r0 :: rdy) + waiting clock res') as Heq.
    { unfold waiting. by rewrite Hperm, sum_list_with_app. }
    unfold waiting in Heq at 2. simpl in Heq. lia.
Qed.

Lemma emit_Done_inv (c : Event) s l :
  emit c s = (Done tt, l) →
  ∃ s', apply_event c s = inr s' ∧ l = [mkEntry c s'].
Proof.
  unfold emit. destruct (apply_event c s) as [err|s']; [done|].
  intros [= <-]. by eauto.
Qed.

(** The first loop, when it returns, has appended the given builders to
    [self.builders]. *)
Lemma assign_builders bs : ∀ s l,
  assign bs s = (Done tt, l) → builders (final s l) = builders s ++ bs.
Proof.
  induction bs as [|x bs IH]; intros s l; unfold assign; cbn [for_each].
  { intros [= <-]. by rewrite final_nil, app_nil_r. }
  intros ([] & l1 & l2 & Hbody & Hrest & ->)%bind_Done_inv.
  rewrite final_app, (IH _ _ Hrest).
  change (x :: bs) with ([x] ++ bs). rewrite app_assoc. f_equal.
  apply bind_Done_inv in Hbody as (ex & l3 & l4 & Hch & Hbody & ->).
  rewrite choose_executor_eq in Hch.
  destruct (get s (executor x)); [|done]. injection Hch as _ <-.
  rewrite final_nil in Hbody. rewrite app_nil_l.
  apply bind_Done_inv in Hbody as ([] & l5 & l6 & Hadd & Happ & ->).
  apply emit_Done_inv in Hadd as (s1 & Hs1 & ->).
  apply emit_Done_inv in Happ as (s2 & Hs2 & ->).
  unfold final in *. simpl in *. injection Hs2 as <-. simpl.
  by destruct (dict_get _ _); injection Hs1 as <-.
Qed.

Lemma run_fuel_waiting rs n :
  ready_at <$> rs = latency <$> seq 0 n →
  waiting 0 rs < run_fuel latency n.
Proof. intros Hrs. unfold run_fuel. rewrite (waiting_latency rs _ Hrs). lia. Qed.

(** X1: [run] returns or raises: with a budget of one [get] per submission
    and time unit of latency, the collection loop is not cut short. *)
Theorem run_returns w fuel bs s :
  run_fuel latency (length (builders s ++ bs)) ≤ fuel →
  returns (run w fuel bs) s.
Proof.
  intros Hfuel. unfold run.
  apply bind_returns; [apply assign_returns|]. intros [] l1 Hassign.
  apply assign_builders in Hassign.
  apply bind_returns; [done|]. intros self l2 [= <- <-]. rewrite final_nil.
  destruct (compute_num_workers _ _) as [err|n]; [done|].
  assert (returns (Pool n) (final s l1)) as HPool.
  { unfold Pool. destruct (n <? 1)%Z; [done|apply emit_returns]. }
  apply bind_returns; [done|]. intros [] l3 Hp.
  assert (builders (final (final s l1) l3) = builders (final s l1)) as Hsame.
  { unfold Pool in Hp. destruct (n <? 1)%Z; [done|].
    by apply emit_Done_inv in Hp as (s' & [= <-] & ->). }
  apply bind_returns; [done|]. intros self l4 [= <- <-]. rewrite final_nil.
  apply bind_returns; [apply submit_returns|]. intros rs l5 Hsubmit.
  apply submit_ready_at in Hsubmit. simpl in Hsubmit.
  rewrite Hsame, Hassign in Hsubmit.
  apply bind_returns; [|intros; apply partition_returns].
  apply collect_returns. pose proof (run_fuel_waiting rs _ Hsubmit). lia.
Qed.

End termination.

(** ** The registry and the constructor *)

Section registry.
Context {ModuleSetting : Type}.
Local Abbreviation BuildExecutor := (@BuildExecutor ModuleSetting).
Local Abbreviation SiteConfiguration := (@SiteConfiguration ModuleSetting).
Implicit Types (s self : BuildExecutor) (b : Builder) (cfg : SiteConfiguration).

(** C10: for a name that is not registered, [get] returns [None] and
    raises nothing, while [_choose_executor], for a builder with that
    executor name, raises [ExecutorError]. *)
Theorem get_unknown_returns_None s (nm : string) :
  nm ∉ names s →
  get s nm = None ∧
  ∀ b, executor b = nm → _choose_executor b s = (Raise not_an_executor, []).
Proof.
  intros Hnm%dict_get_None. split; [done|]. intros b <-.
  rewrite choose_executor_eq. unfold get. by rewrite Hnm.
Qed.

(** C9, as the code has it: without an argument and without a configured
    value the poll interval is 30; an argument other than [0] is taken as
    it is; an argument of [0] counts as absent, and then a configured value
    other than [0] is taken, else 30. *)
Theorem pollinterval_choice cfg acct mpt (arg : option Z) :
  let chosen := pollinterval (init_state cfg acct mpt arg) in
  let configured := defaults_pollinterval (target_config cfg) in
  (arg = None → configured = None → chosen = 30%Z) ∧
  (∀ n, arg = Some n → n ≠ 0%Z → chosen = n) ∧
  (∀ c, arg = None ∨ arg = Some 0%Z → configured = Some c → c ≠ 0%Z →
        chosen = c) ∧
  (arg = None ∨ arg = Some 0%Z → configured = None ∨ configured = Some 0%Z →
   chosen = 30%Z).
Proof.
  intros chosen configured. unfold chosen. simpl. fold configured.
  unfold choose_pollinterval, py_or, truthy. split_and!.
  - by intros -> ->.
  - intros n -> Hn. apply Z.eqb_neq in Hn. rewrite Hn. simpl. by rewrite Hn.
  - intros c Harg -> Hc. apply Z.eqb_neq in Hc.
    destruct Harg as [-> | ->]; simpl; rewrite Hc; simpl; by rewrite ?Hc.
  - by intros [-> | ->] [-> | ->].
Qed.

End registry.

(** ** [setup] *)

Lemma string_app_assoc (a b c : string) : ((a +:+ b) +:+ c = a +:+ (b +:+ c))%string.
Proof.
  induction a as [|ch a IH]; [done|].
  change (String ch ((a +:+ b) +:+ c) = String ch (a +:+ (b +:+ c)))%string.
  by rewrite IH.
Qed.

Section inserts.
Context `{Countable K} {V : Type}.
Implicit Types (m : gmap K V) (ws : list (K * V)).


Lemma write_all_union m ws : write_all m ws = list_to_map (reverse ws) ∪ m.
Proof.
  unfold write_all. revert m. induction ws as [|[k v] ws IH]; intros m; simpl.
  - by rewrite (left_id ∅ (∪)).
  - rewrite IH, reverse_cons, list_to_map_app. simpl.
    rewrite <-(assoc (∪)). f_equal.
    rewrite insert_empty. by rewrite <-insert_union_singleton_l.
Qed.

Lemma write_all_idemp m ws : write_all (write_all m ws) ws = write_all m ws.
Proof.
  rewrite !write_all_union. by rewrite (assoc (∪)), (idemp (∪)).
Qed.
End inserts.

Section setup.
Context {ModuleSetting : Type}.
Variable get_module_commands : option ModuleSetting → list string.
Variable BUILDTEST_EXECUTOR_DIR : string.
Local Abbreviation BuildExecutor := (@BuildExecutor ModuleSetting).
Local Abbreviation Settings := (@Settings ModuleSetting).
Local Abbreviation script_content := (script_content get_module_commands).
Local Abbreviation executor_dir := (executor_dir BUILDTEST_EXECUTOR_DIR).
Local Abbreviation script_path := (script_path BUILDTEST_EXECUTOR_DIR).
Local Abbreviation setup_step := (setup_step get_module_commands BUILDTEST_EXECUTOR_DIR).
Local Abbreviation setup := (setup get_module_commands BUILDTEST_EXECUTOR_DIR).
Local Abbreviation shebang_modules_before := (shebang_modules_before get_module_commands).
Local Abbreviation writes := (writes get_module_commands BUILDTEST_EXECUTOR_DIR).
Local Abbreviation created := (@created ModuleSetting BUILDTEST_EXECUTOR_DIR).
Implicit Types (s self : BuildExecutor) (fs : FS) (nm : string) (ns : list string).


Lemma script_content_spec st : script_content st = shebang_modules_before st.
Proof.
  unfold script_content, shebang_modules_before.
  destruct (get_module_commands (module_setting st)); [done|].
  by rewrite !string_app_assoc.
Qed.


Lemma setup_step_eq s fs nm :
  setup_step s fs nm =
  match dict_get nm (executors s) with
  | Some ex =>
      write_file (script_path nm) (script_content (_settings ex))
        (create_dir (executor_dir nm) fs)
  | None => fs
  end.
Proof. done. Qed.

Lemma setup_steps s ns : ∀ fs,
  foldl (setup_step s) fs ns =
  mkFS (list_to_set (created s ns) ∪ dirs fs) (write_all (files fs) (writes s ns)).
Proof.
  induction ns as [|nm ns IH]; intros fs; simpl.
  - destruct fs. simpl. f_equal. set_solver.
  - rewrite IH, setup_step_eq. unfold created, writes, write_all. simpl.
    destruct (dict_get nm (executors s)) as [ex|]; simpl; [|done].
    f_equal. set_solver.
Qed.

Lemma setup_step_lookup s fs nm ex :
  get s nm = Some ex →
  files (setup_step s fs nm) !! script_path nm = Some (script_content (_settings ex)) ∧
  executor_dir nm ∈ dirs (setup_step s fs nm).
Proof.
  unfold get. rewrite setup_step_eq. intros ->. simpl.
  split; [apply lookup_insert_eq|set_solver].
Qed.

Lemma setup_steps_lookup s nm ex ns : ∀ fs,
  get s nm = Some ex → nm ∈ ns →
  (∀ nm', nm' ∈ ns → script_path nm' = script_path nm → nm' = nm) →
  files (foldl (setup_step s) fs ns) !! script_path nm =
    Some (script_content (_settings ex)).
Proof.
  induction ns as [|x ns IH] using rev_ind; intros fs Hg Hin Hinj.
  { by apply elem_of_nil in Hin. }
  rewrite foldl_app. simpl.
  destruct (decide (script_path x = script_path nm)) as [Hp|Hp].
  - assert (x = nm) as -> by (apply Hinj; [apply elem_of_app; right; by left|done]).
    by apply setup_step_lookup.
  - assert (nm ∈ ns) as Hin'.
    { apply elem_of_app in Hin as [?| ->%list_elem_of_singleton]; done. }
    rewrite setup_step_eq.
    destruct (dict_get x (executors s)); simpl.
    + rewrite lookup_insert_ne by done. apply IH; [done..|].
      intros nm' ?. apply Hinj. apply elem_of_app. by left.
    + apply IH; [done..|]. intros nm' ?. apply Hinj. apply elem_of_app. by left.
Qed.

Lemma setup_steps_dir s nm ex ns fs :
  get s nm = Some ex → nm ∈ ns →
  executor_dir nm ∈ dirs (foldl (setup_step s) fs ns).
Proof.
  intros Hg Hin. rewrite setup_steps. simpl. apply elem_of_union. left.
  apply elem_of_list_to_set, list_elem_of_omap. exists nm. split; [done|].
  unfold get in Hg. by rewrite Hg.
Qed.


End setup.

(** ** The registry [__init__] builds *)

Section dict_keys.
Context {V : Type}.
Implicit Types (d : list (string * V)) (k : string) (v : V).

Lemma dict_keys_set k v d :
  dict_keys (dict_set k v d) =
  if decide (k ∈ dict_keys d) then dict_keys d else dict_keys d ++ [k].
Proof.
  unfold dict_keys. induction d as [|[k' v'] d IH]; [done|].
  cbn [dict_set]. destruct (decide (k = k')) as [->|Hne]; rewrite !fmap_cons.
  - cbn [fst]. rewrite decide_True; [done|by left].
  - cbn [fst]. rewrite IH. destruct (decide (k ∈ d.*1)) as [Hin|Hout].
    + rewrite decide_True; [done|by right].
    + rewrite decide_False; [done|]. by intros [?|?]%elem_of_cons.
Qed.

Lemma elem_of_dict_keys_set x k v d :
  x ∈ dict_keys (dict_set k v d) ↔ x = k ∨ x ∈ dict_keys d.
Proof.
  rewrite dict_keys_set. destruct (decide (k ∈ dict_keys d)).
  - split; [by right|]. by intros [->|?].
  - rewrite elem_of_app, list_elem_of_singleton. tauto.
Qed.

Lemma NoDup_dict_keys_set k v d :
  NoDup (dict_keys d) → NoDup (dict_keys (dict_set k v d)).
Proof.
  intros Hd. rewrite dict_keys_set. destruct (decide (k ∈ dict_keys d)); [done|].
  apply NoDup_app. split_and!; [done| |apply NoDup_singleton].
  by intros x Hx ->%list_elem_of_singleton.
Qed.

Lemma dict_get_is_Some k d : is_Some (dict_get k d) ↔ k ∈ dict_keys d.
Proof.
  rewrite <-not_eq_None_Some, dict_get_None.
  destruct (decide (k ∈ dict_keys d)); tauto.
Qed.
End dict_keys.

Section registry_init.
Context {ModuleSetting : Type}.
Local Abbreviation Settings := (@Settings ModuleSetting).
Local Abbreviation Executor := (@Executor ModuleSetting).
Local Abbreviation SiteConfiguration := (@SiteConfiguration ModuleSetting).
Implicit Types (d : list (string * Executor)) (c : list (string * Settings))
  (nm ty : string) (a : option string) (m : option Z) (st : Settings)
  (k : string * option string * option Z * list (string * Settings)).

Lemma register_kind_snoc ty a m c nm st d :
  register_kind ty a m (c ++ [(nm, st)]) d =
  dict_set nm (mkExecutor nm ty st a m []) (register_kind ty a m c d).
Proof.
  assert (∀ c', register_kind ty a m c' d =
    foldl (λ d kv, dict_set kv.1 (mkExecutor kv.1 ty kv.2 a m []) d) d c') as Heq.
  { by intros []. }
  by rewrite !Heq, foldl_app.
Qed.

Lemma register_kind_keys ty a m c d x :
  x ∈ dict_keys (register_kind ty a m c d) ↔ x ∈ dict_keys d ∨ x ∈ c.*1.
Proof.
  induction c as [|[nm st] c IH] using rev_ind.
  { simpl. rewrite elem_of_nil. tauto. }
  rewrite register_kind_snoc, elem_of_dict_keys_set, IH, fmap_app, elem_of_app.
  simpl. rewrite list_elem_of_singleton. tauto.
Qed.

Lemma register_kind_NoDup ty a m c d :
  NoDup (dict_keys d) → NoDup (dict_keys (register_kind ty a m c d)).
Proof.
  intros Hd. induction c as [|[nm st] c IH] using rev_ind; [done|].
  rewrite register_kind_snoc. by apply NoDup_dict_keys_set.
Qed.

Lemma register_kind_other ty a m c d x :
  x ∉ c.*1 → dict_get x (register_kind ty a m c d) = dict_get x d.
Proof.
  induction c as [|[nm st] c IH] using rev_ind; [done|].
  rewrite fmap_app, not_elem_of_app. simpl. intros [Hc Hx].
  rewrite register_kind_snoc, dict_get_set, decide_False; [by apply IH|].
  intros ->. apply Hx. by left.
Qed.

Lemma register_kind_new ty a m c d x :
  x ∈ c.*1 →
  ∃ st, (x, st) ∈ c ∧
        dict_get x (register_kind ty a m c d) = Some (mkExecutor x ty st a m []).
Proof.
  induction c as [|[nm st] c IH] using rev_ind.
  { by intros ?%elem_of_nil. }
  rewrite fmap_app, elem_of_app. simpl. intros Hx.
  rewrite register_kind_snoc, dict_get_set.
  destruct (decide (x = nm)) as [->|Hne].
  - exists st. split; [|done]. apply elem_of_app. right. by left.
  - destruct Hx as [Hx|Hx%list_elem_of_singleton]; [|done].
    destruct (IH Hx) as (st' & Hin & Hget). exists st'. split; [|done].
    apply elem_of_app. by left.
Qed.

Lemma registered_keys (ks : list _) d x :
  x ∈ dict_keys (foldl register d ks) ↔
  x ∈ dict_keys d ∨ ∃ k, k ∈ ks ∧ x ∈ kind_names k.
Proof.
  revert d. induction ks as [|k ks IH]; intros d; simpl.
  { split; [by left|]. intros [?|(k & ?%elem_of_nil & _)]; done. }
  rewrite IH. unfold register, kind_names. rewrite register_kind_keys. split.
  - intros [[?|?]|(k' & ? & ?)]; [by left|right..].
    + exists k. split; [by left|done].
    + exists k'. split; [by right|done].
  - intros [?|(k' & [->|?]%elem_of_cons & ?)]; [by left; left|by left; right|].
    right. by exists k'.
Qed.

Lemma registered_NoDup (ks : list _) d :
  NoDup (dict_keys d) → NoDup (dict_keys (foldl register d ks)).
Proof.
  revert d. induction ks as [|k ks IH]; intros d Hd; [done|].
  apply IH. by apply register_kind_NoDup.
Qed.

Lemma registered_other (ks : list _) d x :
  (∀ k, k ∈ ks → x ∉ kind_names k) →
  dict_get x (foldl register d ks) = dict_get x d.
Proof.
  revert d. induction ks as [|k ks IH]; intros d Hks; [done|]. simpl.
  rewrite IH; [|intros k' ?; apply Hks; by right].
  apply register_kind_other, Hks. by left.
Qed.

(** Every executor of the registry is named by its key and has no builder
    yet. *)
Lemma registered_named (ks : list _) d x ex :
  (∀ y ey, dict_get y d = Some ey → name ey = y ∧ ex_builders ey = []) →
  dict_get x (foldl register d ks) = Some ex →
  name ex = x ∧ ex_builders ex = [].
Proof.
  revert d. induction ks as [|k ks IH]; intros d Hd; [by apply Hd|].
  simpl. apply IH. intros y ey. unfold register.
  destruct (decide (y ∈ k.2.*1)) as [Hin|Hout].
  - destruct (register_kind_new k.1.1.1 k.1.1.2 k.1.2 k.2 d y Hin)
      as (st & _ & ->). by intros [= <-].
  - rewrite register_kind_other by done. apply Hd.
Qed.

Lemma init_state_executors (cfg : SiteConfiguration) a m pint :
  executors (init_state cfg a m pint) = foldl register [] (kinds cfg a m).
Proof. done. Qed.

(** X14: the names of a new orchestrator are the configured names, each
    once; [get] finds an executor for each of them, named by its key and
    with no builder yet. *)
Theorem init_registers_configured (cfg : SiteConfiguration) a m pint :
  let s := init_state cfg a m pint in
  NoDup (names s) ∧
  (∀ nm, nm ∈ names s ↔ ∃ k, k ∈ kinds cfg a m ∧ nm ∈ kind_names k) ∧
  (∀ nm, nm ∈ names s ↔ is_Some (get s nm)) ∧
  (∀ nm ex, get s nm = Some ex → name ex = nm ∧ ex_builders ex = []).
Proof.
  intros s. unfold names, get. subst s. rewrite init_state_executors.
  split_and!.
  - apply registered_NoDup. constructor.
  - intros nm. rewrite registered_keys. simpl. rewrite elem_of_nil. tauto.
  - intros nm. by rewrite dict_get_is_Some.
  - intros nm ex. by apply registered_named.
Qed.

(** X15: an executor is built by the last loop that lists its name: it has
    the type of that kind, one of the settings configured there, and the
    [account] and [maxpendtime] that kind is constructed with. *)
Theorem init_last_kind_wins (cfg : SiteConfiguration) a m pint nm pre k post :
  kinds cfg a m = pre ++ k :: post →
  nm ∈ kind_names k →
  (∀ k', k' ∈ post → nm ∉ kind_names k') →
  ∃ st, (nm, st) ∈ k.2 ∧
        get (init_state cfg a m pint) nm =
          Some (mkExecutor nm k.1.1.1 st k.1.1.2 k.1.2 []).
Proof.
  intros Hks Hin Hpost. unfold get.
  rewrite init_state_executors, Hks, foldl_app. simpl.
  rewrite registered_other by done. unfold register.
  by apply register_kind_new.
Qed.

End registry_init.

(** ** Paths of the scripts *)

Section strings.
Implicit Types (a b c x y : string) (ch : ascii).

Lemma string_app_nil_l b : ("" +:+ b)%string = b.
Proof. done. Qed.

Lemma string_app_cons ch a b : (String ch a +:+ b)%string = String ch (a +:+ b)%string.
Proof. done. Qed.

Lemma string_app_nil_r a : (a +:+ "")%string = a.
Proof. induction a as [|ch a IH]; [done|]. by rewrite string_app_cons, IH. Qed.

Lemma string_length_app a b :
  String.length (a +:+ b) = String.length a + String.length b.
Proof.
  induction a as [|ch a IH]; [done|]. rewrite string_app_cons. simpl. by rewrite IH.
Qed.

Lemma string_app_cancel_r x y c : (x +:+ c = y +:+ c)%string → x = y.
Proof.
  revert y. induction x as [|ch x IH]; intros [|ch' y] Heq; [done| | |].
  - apply (f_equal String.length) in Heq.
    rewrite string_app_nil_l, string_app_cons in Heq. simpl in Heq.
    rewrite string_length_app in Heq. lia.
  - apply (f_equal String.length) in Heq.
    rewrite string_app_nil_l, string_app_cons in Heq. simpl in Heq.
    rewrite string_length_app in Heq. lia.
  - rewrite !string_app_cons in Heq. injection Heq as -> Heq.
    by rewrite (IH y Heq).
Qed.

Lemma ends_with_sep_app a b :
  b ≠ ""%string → ends_with_sep (a +:+ b) = ends_with_sep b.
Proof.
  intros Hb. induction a as [|ch a IH]; [done|].
  rewrite string_app_cons. destruct (a +:+ b)%string as [|ch' r] eqn:Hab.
  - destruct a; [by rewrite string_app_nil_l in Hab|].
    by rewrite string_app_cons in Hab.
  - by rewrite <-IH.
Qed.

(** The path of a relative [b] below [path]: [path] with a separator at
    its end unless it is empty or has one. *)
Lemma path_join2_relative path b :
  starts_with_sep b = false →
  path_join2 path b =
    ((if bool_decide (path = "") || ends_with_sep path then path
      else path +:+ "/") +:+ b)%string.
Proof.
  intros Hb. unfold path_join2. rewrite Hb.
  destruct (bool_decide (path = "") || ends_with_sep path); [done|].
  by rewrite string_app_assoc.
Qed.

End strings.

Section paths.
Variable BUILDTEST_EXECUTOR_DIR : string.
Local Abbreviation executor_dir := (executor_dir BUILDTEST_EXECUTOR_DIR).
Local Abbreviation script_path := (script_path BUILDTEST_EXECUTOR_DIR).
Implicit Types (nm : string).

(** The directory prefix of every relative name. *)
Local Abbreviation root :=
  (if bool_decide (BUILDTEST_EXECUTOR_DIR = ""%string) ||
      ends_with_sep BUILDTEST_EXECUTOR_DIR
   then BUILDTEST_EXECUTOR_DIR else (BUILDTEST_EXECUTOR_DIR +:+ "/")%string).

Lemma root_sep : root = ""%string ∨ ends_with_sep root = true.
Proof.
  destruct (bool_decide (BUILDTEST_EXECUTOR_DIR = ""%string)) eqn:He; simpl.
  { left. by apply bool_decide_eq_true in He. }
  destruct (ends_with_sep BUILDTEST_EXECUTOR_DIR) eqn:Hs; [by right|].
  right. by rewrite ends_with_sep_app.
Qed.

Lemma script_path_relative nm :
  starts_with_sep nm = false → ends_with_sep nm = false →
  script_path nm =
    (root +:+ (if decide (nm = "") then "before_script.sh"
               else nm +:+ "/before_script.sh"))%string.
Proof.
  intros Hs He. unfold script_path, path_join. simpl.
  rewrite (path_join2_relative _ nm Hs).
  rewrite (path_join2_relative _ "before_script.sh") by done.
  destruct (decide (nm = ""%string)) as [->|Hne].
  - rewrite string_app_nil_r.
    destruct root_sep as [-> | ->]; [done|]. by rewrite orb_true_r.
  - rewrite ends_with_sep_app, He, orb_false_r by done.
    rewrite bool_decide_eq_false_2.
    + by rewrite !string_app_assoc.
    + intros Hempty. apply (f_equal String.length) in Hempty.
      rewrite string_length_app in Hempty. destruct nm; [done|]. simpl in Hempty. lia.
Qed.

Lemma script_path_relative_inj nm nm' :
  starts_with_sep nm = false → ends_with_sep nm = false →
  starts_with_sep nm' = false → ends_with_sep nm' = false →
  script_path nm = script_path nm' → nm = nm'.
Proof.
  intros Hs He Hs' He'.
  rewrite (script_path_relative nm Hs He), (script_path_relative nm' Hs' He').
  intros Heq%(inj (String.append _)).
  destruct (decide (nm = ""%string)) as [->|Hne],
           (decide (nm' = ""%string)) as [->|Hne']; [done| | |].
  - apply (f_equal String.length) in Heq.
    rewrite string_length_app in Heq. simpl in Heq. lia.
  - apply (f_equal String.length) in Heq.
    rewrite string_length_app in Heq. simpl in Heq. lia.
  - by apply string_app_cancel_r in Heq.
Qed.

(** X19: an executor name that starts with a separator is taken as an
    absolute path: its directory is the name itself and its script is below
    it, whatever the executor directory is. *)
Theorem absolute_name_ignores_executor_dir nm :
  starts_with_sep nm = true →
  executor_dir nm = nm ∧
  script_path nm = path_join nm ["before_script.sh"%string].
Proof.
  intros Hs. unfold executor_dir, script_path, path_join.
  simpl. unfold path_join2 at 1 3. by rewrite Hs.
Qed.

(** X18: for names that neither start nor end with a separator the script
    is [before_script.sh] in the directory of that name below the executor
    directory, and two such names never share a script. *)
Theorem script_paths_distinct nm nm' :
  starts_with_sep nm = false → ends_with_sep nm = false →
  starts_with_sep nm' = false → ends_with_sep nm' = false →
  (nm ≠ ""%string →
   bool_decide (BUILDTEST_EXECUTOR_DIR = ""%string) = false →
   ends_with_sep BUILDTEST_EXECUTOR_DIR = false →
   executor_dir nm = (BUILDTEST_EXECUTOR_DIR +:+ "/" +:+ nm)%string ∧
   script_path nm =
     (BUILDTEST_EXECUTOR_DIR +:+ "/" +:+ nm +:+ "/before_script.sh")%string) ∧
  (script_path nm = script_path nm' → nm = nm').
Proof.
  intros Hs He Hs' He'. split; [|by apply script_path_relative_inj].
  intros Hne HD1 HD2. split.
  - unfold executor_dir, path_join. simpl.
    rewrite (path_join2_relative _ nm Hs), HD1, HD2. simpl.
    by rewrite string_app_assoc.
  - rewrite (script_path_relative nm Hs He), HD1, HD2. simpl.
    rewrite decide_False by done. by rewrite !string_app_assoc.
Qed.

End paths.

(** ** What [setup] leaves alone, and what [__init__] writes *)

Section setup_frame.
Context {ModuleSetting : Type}.
Variable get_module_commands : option ModuleSetting → list string.
Variable BUILDTEST_EXECUTOR_DIR : string.
Local Abbreviation BuildExecutor := (@BuildExecutor ModuleSetting).
Local Abbreviation SiteConfiguration := (@SiteConfiguration ModuleSetting).
Local Abbreviation script_content := (script_content get_module_commands).
Local Abbreviation executor_dir := (executor_dir BUILDTEST_EXECUTOR_DIR).
Local Abbreviation script_path := (script_path BUILDTEST_EXECUTOR_DIR).
Local Abbreviation setup_step := (setup_step get_module_commands BUILDTEST_EXECUTOR_DIR).
Local Abbreviation setup := (setup get_module_commands BUILDTEST_EXECUTOR_DIR).
Local Abbreviation init := (init get_module_commands BUILDTEST_EXECUTOR_DIR).
Local Abbreviation writes := (writes get_module_commands BUILDTEST_EXECUTOR_DIR).
Local Abbreviation created := (@created ModuleSetting BUILDTEST_EXECUTOR_DIR).
Implicit Types (s self : BuildExecutor) (fs : FS) (nm : string) (ns : list string).

Lemma elem_of_writes s ns p :
  p ∈ (writes s ns).*1 → ∃ nm, nm ∈ ns ∧ p = script_path nm.
Proof.
  intros ([p' c] & -> & Hin)%list_elem_of_fmap.
  apply list_elem_of_omap in Hin as (nm & Hnm & Hw). exists nm. split; [done|].
  destruct (dict_get nm (executors s)); simpl in Hw; by simplify_eq.
Qed.

Lemma elem_of_created s ns d :
  d ∈ created s ns ↔
  ∃ nm, nm ∈ ns ∧ is_Some (get s nm) ∧ d = executor_dir nm.
Proof.
  unfold created, get. rewrite list_elem_of_omap. split.
  - intros (nm & Hnm & Hd). exists nm. split; [done|].
    destruct (dict_get nm (executors s)); simpl in Hd; by simplify_eq.
  - intros (nm & Hnm & [ex Hex] & ->). exists nm. split; [done|].
    by rewrite Hex.
Qed.

(** X17: [setup] writes the scripts of the registered executors and nothing
    else: every other file keeps its content, no file is removed, and the
    directories are the old ones and the directories of the executors. *)
Theorem setup_touches_only_scripts s fs :
  (∀ p, (∀ nm, nm ∈ names s → script_path nm ≠ p) →
        files (setup s fs) !! p = files fs !! p) ∧
  (∀ p, is_Some (files fs !! p) → is_Some (files (setup s fs) !! p)) ∧
  (∀ d, d ∈ dirs (setup s fs) ↔
        d ∈ dirs fs ∨ ∃ nm, nm ∈ names s ∧ d = executor_dir nm).
Proof.
  unfold setup. rewrite setup_steps. simpl. rewrite write_all_union. split_and!.
  - intros p Hp. apply lookup_union_r, not_elem_of_list_to_map_1.
    rewrite fmap_reverse, elem_of_reverse.
    intros (nm & Hnm & ->)%elem_of_writes. by apply (Hp nm).
  - intros p Hsome. apply lookup_union_is_Some. by right.
  - intros d. rewrite elem_of_union, elem_of_list_to_set, elem_of_created. split.
    + intros [(nm & ? & _ & ->)|?]; [right; by exists nm|by left].
    + intros [?|(nm & Hnm & ->)]; [by right|left]. exists nm.
      split_and!; [done| |done]. by apply dict_get_is_Some.
Qed.


End setup_frame.

(** ** What [run] leaves behind *)

Section run_result.
Context {ModuleSetting W : Type}.
Variable cpu_count : option Z.
Variable worker : Work → @Executor ModuleSetting → Builder → option Builder.
Variable latency : nat → nat.
Variable is_batch_job : W → Builder → bool.
Local Abbreviation BuildExecutor := (@BuildExecutor ModuleSetting).
Local Abbreviation Entry := (@Entry ModuleSetting).
Local Abbreviation M := (@M ModuleSetting).
Local Abbreviation submit := (submit worker latency).
Local Abbreviation run := (run cpu_count worker latency is_batch_job).
Local Abbreviation outcome := (outcome worker).
Local Abbreviation compute_num_workers := (compute_num_workers cpu_count).
Implicit Types (s : BuildExecutor) (bs : list Builder) (rs : list AsyncResult)
  (b : Builder).

Lemma submissions_app (l l' : list Entry) :
  submissions (l ++ l') = submissions l ++ submissions l'.
Proof. apply omap_app. Qed.

Lemma set_validbuilders_same s : set_validbuilders (_validbuilders s ++ []) s = s.
Proof. destruct s. unfold set_validbuilders. simpl. by rewrite app_nil_r. Qed.

Lemma set_pending_same s : set_pending (_pending s ++ []) s = s.
Proof. destruct s. unfold set_pending. simpl. by rewrite app_nil_r. Qed.

Lemma bind_Done_eq {A B} (m : M A) (f : A → M B) s a l r l' :
  m s = (Done a, l) → f a (final s l) = (r, l') → bind m f s = (r, l ++ l').
Proof. intros H1 H2. unfold bind. by rewrite H1, H2. Qed.

(** The body of the first loop. *)
Lemma assign_step_eq b s ex :
  get s (executor b) = Some ex →
  let s1 := set_executors
              (dict_set (executor b) (add_builder_to b ex) (executors s)) s in
  let s2 := set_builders (builders s ++ [b]) s1 in
  (let* ex := _choose_executor b in
   emit (AddBuilder (executor b) b) >> emit (BuildersAppend b)) s =
  (Done tt, [mkEntry (AddBuilder (executor b) b) s1; mkEntry (BuildersAppend b) s2]).
Proof.
  intros Hg s1 s2. unfold bind at 1. rewrite choose_executor_eq, Hg.
  unfold bind, emit, final. simpl. unfold get in Hg. by rewrite Hg.
Qed.

(** The first loop, when every executor resolves: the builders are appended
    to [self.builders]; no name enters or leaves the registry; nothing else
    changes. *)
Lemma assign_Done bs : ∀ s,
  (∀ b, b ∈ bs → is_Some (get s (executor b))) →
  ∃ l, assign bs s = (Done tt, l) ∧
       builders (final s l) = builders s ++ bs ∧
       same_tracking s (final s l) ∧
       configuration (final s l) = configuration s ∧
       (∀ k, is_Some (get (final s l) k) ↔ is_Some (get s k)) ∧
       Forall (λ e, assignment (ev e)) l.
Proof.
  induction bs as [|x bs IH]; intros s Hreg.
  { exists []. rewrite final_nil, app_nil_r. by split_and!. }
  destruct (Hreg x) as [ex Hx]; [by left|].
  pose proof (assign_step_eq x s ex Hx) as Hbody. cbv zeta in Hbody.
  set (s1 := set_executors _ s) in Hbody. set (s2 := set_builders _ s1) in Hbody.
  assert (∀ k, is_Some (get s2 k) ↔ is_Some (get s k)) as Hkeep.
  { intros k. unfold get. simpl. rewrite dict_get_set.
    destruct (decide (k = executor x)) as [->|]; [|done].
    unfold get in Hx. rewrite Hx. by split. }
  destruct (IH s2) as (l & Hl & Hb & Ht & Hc & Hk & Hsub).
  { intros b Hb. apply Hkeep, Hreg. by right. }
  eexists. unfold assign. cbn [for_each].
  erewrite bind_Done; [|exact Hbody]. fold (@assign ModuleSetting bs).
  change (final s [_; _]) with s2. rewrite Hl. cbn [fst snd]. split; [reflexivity|].
  rewrite final_app. change (final s [_; _]) with s2.
  split_and!.
  - rewrite Hb. simpl. by rewrite <-app_assoc.
  - destruct Ht as (? & ? & ? & ?). by split_and!.
  - by rewrite Hc.
  - intros k. by rewrite Hk.
  - by repeat constructor.
Qed.

Lemma assignment_no_submission (l : list Entry) :
  Forall (λ e, assignment (ev e)) l → submissions l = [].
Proof.
  induction 1 as [|e l He _ IH]; [done|].
  change (e :: l) with ([e] ++ l). rewrite submissions_app, IH.
  unfold submissions. simpl. by destruct (ev e).
Qed.

Lemma assignment_no_pool (l : list Entry) n :
  Forall (λ e, assignment (ev e)) l → occurrences (PoolCreate n) l = 0.
Proof.
  intros Hl. apply occurrences_zero. eapply Forall_impl; [done|].
  intros e He Heq. simpl in *. by rewrite Heq in He.
Qed.

(** The second loop, when every executor resolves: one submission per
    builder, in order; the state is as it was. *)
Lemma submit_Done bs : ∀ rs0 s,
  (∀ b, b ∈ bs → is_Some (get s (executor b))) →
  ∃ rs l, submit bs rs0 s = (Done (rs0 ++ rs), l) ∧
          final s l = s ∧
          omap task rs = omap (outcome s) bs ∧
          Forall2 (λ sub b, ∃ ex, get s (executor b) = Some ex ∧
                                  sub = (work_of ex, name ex, b))
                  (submissions l) bs.
Proof.
  induction bs as [|x bs IH]; intros rs0 s Hreg.
  { exists [], []. rewrite app_nil_r. by split_and!. }
  destruct (Hreg x) as [ex Hx]; [by left|].
  set (r := mkResult (length rs0) (latency (length rs0)) (worker (work_of ex) ex x)).
  destruct (IH (rs0 ++ [r]) s) as (rs & l & Hs & Hf & Ht & Hsub).
  { intros b Hb. apply Hreg. by right. }
  exists (r :: rs), (mkEntry (ApplyAsync (work_of ex) (name ex) x) s :: l).
  split_and!.
  - cbn [submit]. unfold bind at 1. rewrite choose_executor_eq, Hx.
    rewrite final_nil. unfold apply_async.
    unfold bind at 1. unfold bind at 1. unfold emit. simpl.
    fold (work_of ex). change (final s [_]) with s.
    fold r. rewrite Hs. by rewrite <-app_assoc.
  - change (_ :: l) with ([mkEntry (ApplyAsync (work_of ex) (name ex) x) s] ++ l).
    by rewrite final_app.
  - change (r :: rs) with ([r] ++ rs). change (x :: bs) with ([x] ++ bs).
    rewrite !omap_app, Ht. f_equal. simpl. unfold outcome. by rewrite Hx.
  - simpl. constructor; [by eauto|done].
Qed.

(** One pass of the collection: the tasks of the ready results are appended
    to [_validbuilders]; some result was ready, or the clock advanced by
    the length of the list while all were late. *)
Lemma collect_pass_Done rs : ∀ clock ready s,
  ∃ clock' rdy l,
    collect_pass rs clock ready s = (Done (clock', ready ++ rdy), l) ∧
    rdy `sublist_of` rs ∧ clock ≤ clock' ∧
    (rdy = [] → clock' = clock + length rs ∧
                Forall (λ r, clock < ready_at r) rs) ∧
    final s l = set_validbuilders (_validbuilders s ++ omap task rdy) s ∧
    submissions l = [].
Proof.
  induction rs as [|r rs IH]; intros clock ready s; simpl.
  { exists clock, [], []. rewrite app_nil_r. split_and!; [done..| | |done].
    - intros _. split; [lia|done].
    - by rewrite final_nil, set_validbuilders_same. }
  destruct (decide (ready_at r ≤ clock)) as [Hready|Hlate].
  - set (m := match task r with Some t => emit (ValidAppend t) | None => ret tt end).
    set (s1 := set_validbuilders (_validbuilders s ++ omap task [r]) s).
    assert (∃ l0, m s = (Done tt, l0) ∧ final s l0 = s1 ∧ submissions l0 = [])
      as (l0 & Hm & Hs1 & Hl0).
    { unfold m, s1. simpl. destruct (task r) as [t|]; simpl.
      - eexists. unfold emit. simpl. by split_and!.
      - exists []. rewrite final_nil, set_validbuilders_same. by split_and!. }
    destruct (IH clock (ready ++ [r]) s1)
      as (clock' & rdy & l & Hp & Hsub & Hle & _ & Hf & Hl).
    exists clock', (r :: rdy), (l0 ++ l). split_and!.
    + erewrite bind_Done; [|exact Hm]. rewrite Hs1, Hp. simpl.
      by rewrite <-app_assoc.
    + by constructor.
    + done.
    + done.
    + rewrite final_app, Hs1, Hf. unfold s1, set_validbuilders. simpl.
      f_equal. rewrite <-app_assoc. f_equal. by destruct (task r).
    + by rewrite submissions_app, Hl0, Hl.
  - destruct (IH (S clock) ready s)
      as (clock' & rdy & l & Hp & Hsub & Hle & Hnone & Hf & Hl).
    exists clock', rdy, l. split_and!; [done|by constructor|lia| |done|done].
    intros Hrdy. destruct (Hnone Hrdy) as [-> Hall]. split; [simpl; lia|].
    constructor; [lia|]. eapply Forall_impl; [done|]. simpl. lia.
Qed.

(** The collection loop, with enough budget: the tasks of all the results
    are appended to [_validbuilders], in the order of readiness. *)
Lemma collect_Done fuel : ∀ clock rs s,
  waiting clock rs < fuel →
  ∃ l L, collect fuel clock rs s = (Done tt, l) ∧
         L ≡ₚ omap task rs ∧
         final s l = set_validbuilders (_validbuilders s ++ L) s ∧
         submissions l = [].
Proof.
  induction fuel as [|fuel IH]; intros clock rs s Hfuel; [lia|].
  destruct rs as [|r rs].
  { exists [], []. rewrite final_nil, set_validbuilders_same. by split_and!. }
  cbn [collect].
  assert (r :: rs ≠ []) as Hne by done. revert Hne Hfuel.
  generalize (r :: rs). clear r rs. intros res Hne Hfuel.
  destruct (collect_pass_Done res clock [] s)
    as (clock' & rdy & l & Hp & Hsub & Hle & Hnone & Hf & Hl).
  destruct (remove_ready_ok rdy res) as (res' & Hrem & Hperm);
    [by apply sublist_submseteq|].
  destruct (IH clock' res' (final s l)) as (l' & L & Hc & HL & Hf' & Hl').
  { destruct rdy as [|r0 rdy].
    - simpl in Hrem. injection Hrem as <-.
      destruct (Hnone eq_refl) as [-> Hall].
      pose proof (waiting_later clock (clock + length res) res) as Hlater.
      assert (length res ≠ 0) by (by destruct res).
      specialize (Hlater ltac:(lia) Hne Hall). lia.
    - pose proof (waiting_mono clock clock' res' Hle) as Hmono.
      assert (waiting clock res = waiting clock (r0 :: rdy) + waiting clock res')
        as Heq.
      { unfold waiting. by rewrite Hperm, sum_list_with_app. }
      unfold waiting in Heq at 2. simpl in Heq. lia. }
  exists (l ++ l'), (omap task rdy ++ L). split_and!.
  - erewrite bind_Done; [|exact Hp]. cbn [fst snd app]. rewrite Hrem, Hc. done.
  - rewrite Hperm, omap_app. by f_equiv.
  - rewrite final_app, Hf', Hf. unfold set_validbuilders. simpl.
    by rewrite <-app_assoc.
  - by rewrite submissions_app, Hl, Hl'.
Qed.

(** The last loop: the batch jobs among the valid builders are appended to
    [_pending], in order. *)
Lemma partition_Done (w : W) s :
  ∃ l, partition is_batch_job w s = (Done tt, l) ∧
       final s l =
         set_pending (_pending s ++
                      filter (λ b, is_batch_job w b = true) (_validbuilders s)) s ∧
       submissions l = [].
Proof.
  unfold partition, bind at 1, get_self. rewrite final_nil.
  assert (∀ bs s0, ∃ l,
    for_each bs (λ builder,
      if is_batch_job w builder then emit (PendingAppend builder) else ret tt) s0 =
      (Done tt, l) ∧
    final s0 l =
      set_pending (_pending s0 ++ filter (λ b, is_batch_job w b = true) bs) s0 ∧
    submissions l = []) as Hloop.
  { clear s. induction bs as [|x bs IH]; intros s0.
    { exists []. rewrite final_nil, set_pending_same. by split_and!. }
    cbn [for_each]. rewrite filter_cons.
    destruct (is_batch_job w x) eqn:Hx.
    - rewrite decide_True by done.
      set (s1 := set_pending (_pending s0 ++ [x]) s0).
      destruct (IH s1) as (l & Hl & Hf & Hs).
      exists (mkEntry (PendingAppend x) s1 :: l). split_and!.
      + assert (emit (PendingAppend x) s0 =
                (Done tt, [mkEntry (PendingAppend x) s1])) as He by done.
        erewrite bind_Done; [|exact He]. change (final s0 [_]) with s1.
        by rewrite Hl.
      + change (_ :: l) with ([mkEntry (PendingAppend x) s1] ++ l).
        rewrite final_app. change (final s0 [_]) with s1. rewrite Hf.
        unfold s1, set_pending. simpl. by rewrite <-app_assoc.
      + simpl. done.
    - rewrite decide_False by done.
      destruct (IH s0) as (l & Hl & Hf & Hs). exists l. split_and!; [|done..].
      erewrite bind_Done; [|reflexivity]. by rewrite final_nil, Hl. }
  destruct (Hloop (_validbuilders s) s) as (l & Hl & Hf & Hs).
  exists l. simpl. by rewrite Hl.
Qed.

Lemma outcome_ext s s' b :
  executors s' = executors s → outcome s' b = outcome s b.
Proof. unfold outcome, get. by intros ->. Qed.

(** [run], when every executor resolves, the width is at least one and the
    budget is enough. *)
Lemma run_Done s (w : W) fuel bs n :
  (∀ b, b ∈ builders s ++ bs → is_Some (get s (executor b))) →
  compute_num_workers (target_config (configuration s)) = inr n →
  (1 ≤ n)%Z →
  run_fuel latency (length (builders s ++ bs)) ≤ fuel →
  ∃ l L, run w fuel bs s = (Done tt, l) ∧
    let s' := final s l in
    builders s' = builders s ++ bs ∧
    L ≡ₚ omap (outcome s') (builders s') ∧
    _validbuilders s' = _validbuilders s ++ L ∧
    _pending s' =
      _pending s ++ filter (λ b, is_batch_job w b = true) (_validbuilders s') ∧
    _completed s' = _completed s ∧ _cancelled s' = _cancelled s ∧
    Forall2 (λ sub b, ∃ ex, get s' (executor b) = Some ex ∧
                            sub = (work_of ex, name ex, b))
            (submissions l) (builders s ++ bs).
Proof.
  intros Hreg Hn Hle Hfuel.
  destruct (assign_Done bs s) as (l1 & Hl1 & Hb & Ht & Hc & Hk & Hs1).
  { intros b Hb. apply Hreg, elem_of_app. by right. }
  apply assignment_no_submission in Hs1.
  set (s1 := final s l1) in *.
  destruct (submit_Done (builders s1) [] s1) as (rs & l3 & Hl3 & Hf3 & Htask & Hsub).
  { intros b Hin. apply Hk, Hreg. by rewrite <-Hb. }
  destruct (collect_Done fuel 0 rs s1) as (l4 & L & Hl4 & HL & Hf4 & Hs4).
  { apply submit_ready_at in Hl3. simpl in Hl3. rewrite Hb in Hl3.
    pose proof (run_fuel_waiting latency rs _ Hl3). lia. }
  set (s4 := set_validbuilders (_validbuilders s1 ++ L) s1) in *.
  destruct (partition_Done w s4) as (l5 & Hl5 & Hf5 & Hs5).
  exists (l1 ++ [] ++ [mkEntry (PoolCreate n) s1] ++ [] ++ l3 ++ l4 ++ l5), L.
  assert (run w fuel bs s =
    (Done tt, l1 ++ [] ++ [mkEntry (PoolCreate n) s1] ++ [] ++ l3 ++ l4 ++ l5))
    as Hrun.
  { unfold run. eapply bind_Done_eq; [exact Hl1|]. fold s1.
    eapply bind_Done_eq; [reflexivity|]. rewrite final_nil, Hc, Hn.
    eapply bind_Done_eq.
    { unfold Pool. destruct (n <? 1)%Z eqn:Hlt; [lia|]. reflexivity. }
    change (final s1 [_]) with s1.
    eapply bind_Done_eq; [reflexivity|]. rewrite final_nil.
    eapply bind_Done_eq; [exact Hl3|]. rewrite Hf3.
    eapply bind_Done_eq; [exact Hl4|]. rewrite Hf4. exact Hl5. }
  split; [exact Hrun|].
  assert (final s (l1 ++ [] ++ [mkEntry (PoolCreate n) s1] ++ [] ++ l3 ++ l4 ++ l5) =
          set_pending (_pending s4 ++
            filter (λ b, is_batch_job w b = true) (_validbuilders s4)) s4) as Hfinal.
  { rewrite !final_app. fold s1. rewrite !final_nil.
    change (final s1 [_]) with s1. by rewrite Hf3, Hf4, Hf5. }
  cbv zeta. rewrite Hfinal. destruct Ht as (Hv & Hp & Hcp & Hcn).
  split_and!.
  - done.
  - etrans; [exact HL|]. by rewrite Htask.
  - simpl. by rewrite Hv.
  - simpl. by rewrite Hp, Hv.
  - done.
  - done.
  - rewrite !submissions_app, Hs1, Hs4, Hs5, app_nil_r. simpl.
    rewrite <-Hb. exact Hsub.
Qed.

(** X2: [run] submits every builder of [self.builders] once, in order, the
    builders of earlier calls included: [executor.run] for a builder of a
    local executor, [executor.dispatch] for every other one. *)
Theorem run_submits_every_builder s (w : W) fuel bs n :
  (∀ b, b ∈ builders s ++ bs → is_Some (get s (executor b))) →
  compute_num_workers (target_config (configuration s)) = inr n →
  (1 ≤ n)%Z →
  run_fuel latency (length (builders s ++ bs)) ≤ fuel →
  ∃ l, run w fuel bs s = (Done tt, l) ∧
       builders (final s l) = builders s ++ bs ∧
       Forall2 (λ sub b, ∃ ex, get (final s l) (executor b) = Some ex ∧
                               sub = (work_of ex, name ex, b))
               (submissions l) (builders s ++ bs).
Proof.
  intros Hreg Hn Hle Hfuel.
  destruct (run_Done s w fuel bs n Hreg Hn Hle Hfuel)
    as (l & L & Hrun & Hb & _ & _ & _ & _ & _ & Hsub).
  by exists l.
Qed.

(** X3: when [run] returns, the builders the workers returned are appended
    to the valid builders, each once, in the order in which the results
    were ready; the batch jobs among all the valid builders, the earlier
    ones included, are appended to the pending ones; nothing is completed
    or cancelled. *)
Theorem run_postcondition s (w : W) fuel bs n :
  (∀ b, b ∈ builders s ++ bs → is_Some (get s (executor b))) →
  compute_num_workers (target_config (configuration s)) = inr n →
  (1 ≤ n)%Z →
  run_fuel latency (length (builders s ++ bs)) ≤ fuel →
  ∃ l L, run w fuel bs s = (Done tt, l) ∧
    let s' := final s l in
    L ≡ₚ omap (outcome s') (builders s ++ bs) ∧
    _validbuilders s' = _validbuilders s ++ L ∧
    _pending s' =
      _pending s ++ filter (λ b, is_batch_job w b = true) (_validbuilders s') ∧
    _completed s' = _completed s ∧ _cancelled s' = _cancelled s.
Proof.
  intros Hreg Hn Hle Hfuel.
  destruct (run_Done s w fuel bs n Hreg Hn Hle Hfuel)
    as (l & L & Hrun & Hb & HL & Hv & Hp & Hc & Hk & _).
  exists l, L. cbv zeta in *. rewrite <-Hb. by split_and!.
Qed.

(** The first loop stops at the first builder whose executor is not
    registered; the builders before it are assigned. *)
Lemma assign_stops pre : ∀ s b post,
  (∀ x, x ∈ pre → is_Some (get s (executor x))) →
  get s (executor b) = None →
  ∃ l, assign (pre ++ b :: post) s = (Raise not_an_executor, l) ∧
       builders (final s l) = builders s ++ pre ∧
       same_tracking s (final s l) ∧
       Forall (λ e, assignment (ev e)) l.
Proof.
  induction pre as [|x pre IH]; intros s b post Hreg Hnone.
  { exists []. rewrite final_nil, app_nil_r. split_and!; try done.
    unfold assign. cbn [app for_each]. apply bind_Raise, bind_Raise.
    by rewrite choose_executor_eq, Hnone. }
  destruct (Hreg x) as [ex Hx]; [by left|].
  pose proof (assign_step_eq x s ex Hx) as Hbody. cbv zeta in Hbody.
  set (s1 := set_executors _ s) in Hbody. set (s2 := set_builders _ s1) in Hbody.
  destruct (IH s2 b post) as (l & Hl & Hb & Ht & Hev).
  { intros y Hy. destruct (Hreg y) as [ey Hey]; [by right|].
    unfold get. simpl. rewrite dict_get_set.
    destruct (decide _); [done|]. unfold get in Hey. by rewrite Hey. }
  { unfold get. simpl. rewrite dict_get_set.
    destruct (decide (executor b = executor x)) as [Heq|]; [|done].
    rewrite Heq in Hnone. congruence. }
  eexists. split.
  { unfold assign. cbn [app for_each]. eapply bind_Done_eq; [exact Hbody|].
    change (final s [_; _]) with s2. exact Hl. }
  rewrite final_app. change (final s [_; _]) with s2. split_and!.
  - rewrite Hb. simpl. by rewrite <-app_assoc.
  - destruct Ht as (? & ? & ? & ?). by split_and!.
  - by repeat constructor.
Qed.

(** X4: [run] gives up at the first builder whose executor is not
    registered, but keeps what it did for the builders before it: they are
    assigned to their executors and stay in [self.builders]; nothing is
    submitted. *)
Theorem run_keeps_builders_before_unknown s (w : W) fuel pre b post :
  (∀ x, x ∈ pre → is_Some (get s (executor x))) →
  get s (executor b) = None →
  ∃ l, run w fuel (pre ++ b :: post) s = (Raise not_an_executor, l) ∧
       builders (final s l) = builders s ++ pre ∧
       same_tracking s (final s l) ∧
       submissions l = [] ∧
       ∀ n, occurrences (PoolCreate n) l = 0.
Proof.
  intros Hreg Hnone.
  destruct (assign_stops pre s b post Hreg Hnone) as (l & Hl & Hb & Ht & Hev).
  exists l. split_and!; [|done..| |].
  - unfold run. by apply bind_Raise.
  - by apply assignment_no_submission.
  - intros n. by apply assignment_no_pool.
Qed.

(** X5: a width below one, as a negative [numprocs] gives, makes
    [mp.Pool] raise a [ValueError]: the builders are already assigned and
    appended to [self.builders], no pool is created, nothing is
    submitted. *)
Theorem run_refuses_width_below_one s (w : W) fuel bs n :
  (∀ b, b ∈ bs → is_Some (get s (executor b))) →
  compute_num_workers (target_config (configuration s)) = inr n →
  (n < 1)%Z →
  ∃ l, run w fuel bs s =
         (Raise (ValueError "Number of processes must be at least 1"), l) ∧
       builders (final s l) = builders s ++ bs ∧
       same_tracking s (final s l) ∧
       submissions l = [] ∧
       ∀ k, occurrences (PoolCreate k) l = 0.
Proof.
  intros Hreg Hn Hlt.
  destruct (assign_Done bs s Hreg) as (l1 & Hl1 & Hb & Ht & Hc & Hk & Hs1).
  exists (l1 ++ [] ++ []). split.
  { unfold run. eapply bind_Done_eq; [exact Hl1|].
    eapply bind_Done_eq; [reflexivity|]. rewrite final_nil, Hc, Hn.
    apply bind_Raise. unfold Pool.
    by destruct (Z.ltb_spec n 1); [|lia]. }
  rewrite !app_nil_r. split_and!; [done..| |].
  - by apply assignment_no_submission.
  - intros k. by apply assignment_no_pool.
Qed.

End run_result.

Section no_cpu_count.
Context {ModuleSetting W : Type}.
Variable worker : Work → @Executor ModuleSetting → Builder → option Builder.
Variable latency : nat → nat.
Variable is_batch_job : W → Builder → bool.
Implicit Types (s : @BuildExecutor ModuleSetting) (bs : list Builder).

(** X6: on a host where [os.cpu_count()] is [None], [run] raises a
    [TypeError] when it computes the width: the builders are already
    assigned to their executors and appended to [self.builders], no pool is
    created and nothing is submitted. *)
Theorem run_without_cpu_count s (w : W) fuel bs :
  (∀ b, b ∈ bs → is_Some (get s (executor b))) →
  ∃ msg l,
    run None worker latency is_batch_job w fuel bs s = (Raise (TypeError msg), l) ∧
    builders (final s l) = builders s ++ bs ∧
    same_tracking s (final s l) ∧
    submissions l = [] ∧
    ∀ n, occurrences (PoolCreate n) l = 0.
Proof.
  intros Hreg.
  destruct (assign_Done bs s Hreg) as (l1 & Hl1 & Hb & Ht & Hc & Hk & Hs1).
  assert (∃ msg, compute_num_workers None
                   (target_config (configuration (final s l1))) =
                 inl (TypeError msg)) as [msg Hmsg].
  { unfold compute_num_workers. destruct (py_or _ None); by eexists. }
  exists msg, (l1 ++ [] ++ []). split.
  { unfold run. eapply bind_Done_eq; [exact Hl1|].
    eapply bind_Done_eq; [reflexivity|]. by rewrite final_nil, Hmsg. }
  rewrite !app_nil_r. split_and!; [done..| |].
  - by apply assignment_no_submission.
  - intros n. by apply assignment_no_pool.
Qed.

End no_cpu_count.

(** ** Every step of [poll] *)

Section every_move.
Context {ModuleSetting W : Type}.
Variable exec_poll : @Executor ModuleSetting → Builder → W → W.
Variable is_complete : W → Builder → bool.
Variable is_failure : W → Builder → bool.
Local Abbreviation Entry := (@Entry ModuleSetting).
Local Abbreviation anywhere := (@anywhere ModuleSetting).

(** A relation that holds for the effect of every event of [poll]. *)
Variable R : Entry → Entry → Prop.
Hypothesis R_move : ∀ (c : Event) (e : Entry) s',
  move c → apply_event c (post e) = inr s' → R e (mkEntry c s').

Lemma move_step (c : Event) :
  move c → triple R any_exn anywhere anywhere (emit c) (λ _, anywhere).
Proof.
  intros Hc. apply triple_emit. intros e _.
  destruct (apply_event c (post e)) as [err|s'] eqn:Ha; [done|].
  split; [by apply R_move|done].
Qed.

Lemma poll_iteration_step w :
  triple R any_exn anywhere anywhere
    (poll_iteration exec_poll is_complete is_failure w) (λ _, anywhere).
Proof.
  unfold poll_iteration. apply triple_get_self. intros self.
  destruct (poll_scan _ _ _ _ _ _ _ _) as [x|[[w' cs] ds]].
  { by apply triple_raise. }
  eapply triple_conseq with (P := anywhere) (Q := λ _, anywhere); [|done..].
  eapply triple_bind with (Q1 := λ _, anywhere).
  { destruct ds; [by apply triple_ret|].
    apply (triple_for_each _ _ _ (λ _, anywhere)). intros x rest.
    eapply triple_bind; [by apply move_step|]. intros ?. by apply move_step. }
  intros ?. eapply triple_bind with (Q1 := λ _, anywhere); [|intros; by apply triple_ret].
  destruct cs; [by apply triple_ret|].
  apply (triple_for_each _ _ _ (λ _, anywhere)). intros x rest.
  eapply triple_bind; [by apply move_step|]. intros ?.
  eapply triple_bind; [by apply move_step|]. intros ?. by apply move_step.
Qed.

Lemma poll_loop_step fuel w :
  triple R any_exn anywhere anywhere
    (poll_loop exec_poll is_complete is_failure fuel w) (λ _, anywhere).
Proof.
  revert w. induction fuel as [|fuel IH]; intros w; simpl;
    apply triple_get_self; intros self.
  - destruct (_pending self); [by apply triple_ret|by apply triple_out_of_fuel].
  - destruct (_pending self); [by apply triple_ret|].
    eapply triple_conseq with (P := anywhere) (Q := λ _, anywhere); [|done..].
    eapply triple_bind; [apply poll_iteration_step|]. intros w'. apply IH.
Qed.

Lemma poll_step_all fuel w :
  triple R any_exn anywhere anywhere
    (poll exec_poll is_complete is_failure fuel w) (λ _, anywhere).
Proof.
  unfold poll. eapply triple_bind; [apply poll_loop_step|]. intros ?.
  apply triple_get_self. intros self. by apply triple_ret.
Qed.

End every_move.

(** ** Every step of [run] *)

Section every_step.
Context {ModuleSetting W : Type}.
Variable cpu_count : option Z.
Variable worker : Work → @Executor ModuleSetting → Builder → option Builder.
Variable latency : nat → nat.
Variable is_batch_job : W → Builder → bool.
Local Abbreviation Entry := (@Entry ModuleSetting).
Local Abbreviation anywhere := (@anywhere ModuleSetting).

(** A relation that holds for the effect of every event. *)
Variable R : Entry → Entry → Prop.
Hypothesis R_emit : ∀ (c : Event) (e : Entry) s',
  apply_event c (post e) = inr s' → R e (mkEntry c s').

Lemma emit_step (c : Event) :
  triple R any_exn anywhere anywhere (emit c) (λ _, anywhere).
Proof.
  apply triple_emit. intros e _.
  destruct (apply_event c (post e)) as [err|s'] eqn:Ha; [done|].
  split; [by apply R_emit|done].
Qed.

Lemma assign_step bs :
  triple R any_exn anywhere anywhere (assign bs) (λ _, anywhere).
Proof.
  unfold assign. apply (triple_for_each _ _ _ (λ _, anywhere)). intros x rest.
  eapply triple_bind; [apply choose_executor_anywhere|]. intros ex.
  eapply triple_bind; [apply emit_step|]. intros ?. apply emit_step.
Qed.

Lemma submit_step bs : ∀ results,
  triple R any_exn anywhere anywhere (submit worker latency bs results)
    (λ _, anywhere).
Proof.
  induction bs as [|x bs IH]; intros results; simpl; [by apply triple_ret|].
  eapply triple_bind; [apply choose_executor_anywhere|]. intros ex.
  eapply triple_bind with (Q1 := λ _, anywhere); [|intros ?; apply IH].
  unfold apply_async. eapply triple_bind; [apply emit_step|].
  intros ?. by apply triple_ret.
Qed.

Lemma collect_pass_step rs : ∀ clock ready,
  triple R any_exn anywhere anywhere (collect_pass rs clock ready)
    (λ _, anywhere).
Proof.
  induction rs as [|r rs IH]; intros clock ready; simpl; [by apply triple_ret|].
  destruct (decide _); [|apply IH].
  eapply triple_bind with (Q1 := λ _, anywhere); [|intros ?; apply IH].
  destruct (task r); [apply emit_step|by apply triple_ret].
Qed.

Lemma collect_step fuel : ∀ clock results,
  triple R any_exn anywhere anywhere (collect fuel clock results)
    (λ _, anywhere).
Proof.
  induction fuel as [|fuel IH]; intros clock [|r results]; cbn [collect];
    try (by apply triple_ret); try (by apply triple_out_of_fuel).
  eapply triple_bind with (Q1 := λ _, anywhere).
  - apply (collect_pass_step (r :: results)).
  - intros cr. destruct (remove_ready _ _); [by apply triple_raise|apply IH].
Qed.

Lemma partition_step w :
  triple R any_exn anywhere anywhere (partition is_batch_job w)
    (λ _, anywhere).
Proof.
  unfold partition. apply triple_get_self. intros self.
  eapply triple_conseq with (P := anywhere) (Q := λ _, anywhere); [|done..].
  apply (triple_for_each _ _ _ (λ _, anywhere)). intros x rest.
  destruct (is_batch_job w x); [apply emit_step|by apply triple_ret].
Qed.

Lemma run_step w fuel bs :
  triple R any_exn anywhere anywhere
    (run cpu_count worker latency is_batch_job w fuel bs) (λ _, anywhere).
Proof.
  unfold run.
  eapply triple_bind; [apply assign_step|]. intros ?.
  apply triple_get_self. intros self.
  destruct (compute_num_workers _ _) as [err|n] eqn:Hn; [by apply triple_raise|].
  eapply triple_conseq with (P := anywhere) (Q := λ _, anywhere); [|done..].
  eapply triple_bind with (Q1 := λ _, anywhere).
  { unfold Pool. destruct (n <? 1)%Z; [by apply triple_raise|apply emit_step]. }
  intros ?. apply triple_get_self. intros self'.
  eapply triple_conseq with (P := anywhere) (Q := λ _, anywhere); [|done..].
  eapply triple_bind; [apply submit_step|]. intros rs.
  eapply triple_bind; [apply collect_step|]. intros ?. apply partition_step.
Qed.

End every_step.

Section frame.
Context {ModuleSetting W : Type}.
Variable cpu_count : option Z.
Variable worker : Work → @Executor ModuleSetting → Builder → option Builder.
Variable latency : nat → nat.
Variable is_batch_job : W → Builder → bool.
Variable exec_poll : @Executor ModuleSetting → Builder → W → W.
Variable is_complete : W → Builder → bool.
Variable is_failure : W → Builder → bool.
Local Abbreviation BuildExecutor := (@BuildExecutor ModuleSetting).
Local Abbreviation Entry := (@Entry ModuleSetting).
Local Abbreviation settings_step := (@settings_step ModuleSetting).
Local Abbreviation run := (run cpu_count worker latency is_batch_job).
Local Abbreviation poll := (poll exec_poll is_complete is_failure).
Implicit Types (s : BuildExecutor).

Lemma apply_event_settings (c : Event) (e : Entry) s' :
  apply_event c (post e) = inr s' → settings_step e (mkEntry c s').
Proof.
  unfold settings_step, names. simpl.
  destruct c; simpl; repeat case_match; intros [= <-]; try done.
  simpl. split_and!; [done..|].
  rewrite dict_keys_set, decide_True; [done|]. by eapply dict_get_Some_keys.
Qed.

Lemma chain_settings (e : Entry) l :
  chain settings_step e l →
  Forall (λ e', configuration (post e') = configuration (post e) ∧
                pollinterval (post e') = pollinterval (post e) ∧
                names (post e') = names (post e)) l.
Proof.
  revert e. induction l as [|e' l IH]; intros e; [done|].
  intros [(Hc & Hp & Hn) Hl]. constructor; [done|].
  eapply Forall_impl; [by apply IH|]. simpl. intros e'' (? & ? & ?).
  split_and!; congruence.
Qed.

(** X7: no step of [run] and no step of [poll] changes the configuration,
    the poll interval or the names of the registry. *)
Theorem run_and_poll_keep_settings s (w : W) fuel bs :
  let kept := λ e : Entry,
    configuration (post e) = configuration s ∧
    pollinterval (post e) = pollinterval s ∧
    names (post e) = names s in
  Forall kept (run w fuel bs s).2 ∧ Forall kept (poll fuel w s).2.
Proof.
  intros kept. split.
  - destruct (triple_elim _ _ _ _ _ _ s
      (run_step cpu_count worker latency is_batch_job _ apply_event_settings w fuel bs) I)
      as [Hc _].
    by apply chain_settings in Hc.
  - destruct (triple_elim _ _ _ _ _ _ s
      (poll_step_all exec_poll is_complete is_failure _
         (λ c e s' _, apply_event_settings c e s') fuel w) I)
      as [Hc _].
    by apply chain_settings in Hc.
Qed.

End frame.

(** ** What [poll] leaves behind *)

Section stages.
Context {ModuleSetting : Type}.
Local Abbreviation BuildExecutor := (@BuildExecutor ModuleSetting).
Local Abbreviation Entry := (@Entry ModuleSetting).
Local Abbreviation good_step := (@good_step ModuleSetting).
Local Abbreviation poll_step := (@poll_step ModuleSetting).
Implicit Types (e : Entry) (b x : Builder) (s : BuildExecutor).

Lemma chain_invariant (R : Entry → Entry → Prop) (J : Entry → Prop) e l :
  (∀ e1 e2, R e1 e2 → J e1 → J e2) →
  chain R e l → J e → J (last_entry e l).
Proof.
  intros Hstep. revert e. induction l as [|e' l IH]; intros e; [done|].
  intros [HR Hl] HJ. change (e' :: l) with ([e'] ++ l).
  rewrite last_entry_app. apply IH; [done|]. by eapply Hstep.
Qed.

Lemma follows_CompletedAdd_inv (c : Event) b :
  follows c (CompletedAdd b) → c = PendingRemove b.
Proof. destruct c; simpl; try done; intros [?|?]; congruence. Qed.

(** A builder at rest stays where it is. *)
Lemma settled_step b (v c k : Prop) e e' :
  poll_step e e' → settled b v c k e → settled b v c k e'.
Proof.
  intros [(Ha & HI & HI' & Hf & _) Hm] (Hp & He1 & He2 & Hv & Hc & Hk).
  destruct e' as [c' s']. simpl in *. unfold settled. simpl.
  destruct c' as [|? ?|?|?|? ? ?|?|?|x|x|x|x]; simpl in Hm; try done; simpl in Ha.
  - destruct (list_remove x (_pending (post e))) as [l|] eqn:Hr; [|done].
    injection Ha as <-. simpl.
    assert (x ≠ b) as Hne.
    { intros ->. apply list_remove_Some in Hr as (l1 & l2 & Hl & _).
      apply Hp. rewrite Hl. apply elem_of_app. right. by left. }
    split_and!; [|congruence|try done..].
    intros Hb. apply Hp. by eapply list_remove_elem_of.
  - injection Ha as <-. simpl.
    apply follows_CompletedAdd_inv in Hf.
    assert (x ≠ b) as Hne by congruence.
    split_and!; try done; set_solver.
  - injection Ha as <-. simpl.
    apply follows_CancelledAdd_inv in Hf.
    assert (x ≠ b) as Hne by congruence.
    split_and!; try done; try congruence; set_solver.
  - destruct (list_remove x (_validbuilders (post e))) as [l|] eqn:Hr; [|done].
    injection Ha as <-. simpl.
    apply follows_ValidRemove_inv in Hf.
    assert (b ≠ x) as Hne by congruence.
    split_and!; try done. rewrite <-Hv. split.
    + by eapply list_remove_elem_of.
    + by eapply list_remove_elem_of_ne.
Qed.

(** A builder that was pending goes through its stages in order. *)
Lemma stage_step b e e' : poll_step e e' → stage b e → stage b e'.
Proof.
  intros Hstep [Hst|[Hst|[Hst|[Hst|Hst]]]].
  - (* pending *)
    destruct Hstep as [(Ha & HI & HI' & Hf & _) Hm].
    destruct Hst as (Hp & Hv & Hc & Hk).
    destruct e' as [c' s']. simpl in *. unfold stage. simpl.
    destruct HI as (Hndv & Hndp & _ & _).
    destruct HI' as (_ & _ & Hsub' & Hone').
    destruct c' as [|? ?|?|?|? ? ?|?|?|x|x|x|x]; simpl in Hm; try done; simpl in Ha.
    + destruct (list_remove x (_pending (post e))) as [l|] eqn:Hr; [|done].
      injection Ha as <-. simpl in *.
      destruct (decide (x = b)) as [->|Hne].
      * right; left. split_and!; [done| |done..].
        by apply (list_remove_NoDup _ _ _ Hr Hndp).
      * left. split_and!; [|done..]. by eapply list_remove_elem_of_ne.
    + injection Ha as <-. simpl in *.
      destruct (decide (x = b)) as [->|Hne].
      * destruct (Hone' b) as (H1 & _). simpl in H1. destruct H1. set_solver.
      * left. split_and!; [done..| |done]. set_solver.
    + injection Ha as <-. simpl in *.
      destruct (decide (x = b)) as [->|Hne].
      * destruct (Hone' b) as (_ & H2 & _). simpl in H2. destruct H2. set_solver.
      * left. split_and!; [done..|]. set_solver.
    + destruct (list_remove x (_validbuilders (post e))) as [l|] eqn:Hr; [|done].
      injection Ha as <-. simpl in *.
      destruct (decide (x = b)) as [->|Hne].
      * destruct (list_remove_NoDup _ _ _ Hr Hndv) as [_ Hout].
        destruct Hout. by apply Hsub'.
      * left. split_and!; [done| |done..]. by eapply list_remove_elem_of_ne.
  - (* removed from the pending ones *)
    destruct Hstep as [(Ha & HI & HI' & Hf & _) Hm].
    destruct Hst as (He & Hp & Hv & Hc & Hk).
    destruct e' as [c' s']. simpl in *. unfold stage, settled. simpl.
    rewrite He in Hf. simpl in Hf. destruct Hf as [-> | ->]; simpl in Ha;
      injection Ha as <-; simpl.
    + right; right; left. split_and!; [done..| | |done]; set_solver.
    + right; right; right; left. split_and!; [done..|]. set_solver.
  - right; right; left. by eapply settled_step.
  - (* added to the cancelled ones *)
    destruct Hstep as [(Ha & HI & HI' & Hf & _) Hm].
    destruct Hst as (He & Hp & Hv & Hc & Hk).
    destruct e' as [c' s']. simpl in *. unfold stage, settled. simpl.
    rewrite He in Hf. simpl in Hf. subst c'. simpl in Ha.
    destruct (list_remove b (_validbuilders (post e))) as [l|] eqn:Hr; [|done].
    injection Ha as <-. simpl.
    destruct HI as (Hndv & _).
    destruct (list_remove_NoDup _ _ _ Hr Hndv) as [_ Hout].
    right; right; right; right. split_and!; [done..| | |]; tauto.
  - right; right; right; right. by eapply settled_step.
Qed.

(** At rest, a builder that was pending is completed and valid, or
    cancelled and not valid, or still pending. *)
Lemma stage_quiescent b e :
  stage b e → quiescent (ev e) →
  (b ∈ _pending (post e) ∧ b ∈ _validbuilders (post e) ∧
   (b ∉ _completed (post e)) ∧ (b ∉ _cancelled (post e))) ∨
  ((b ∉ _pending (post e)) ∧ b ∈ _validbuilders (post e) ∧
   b ∈ _completed (post e) ∧ (b ∉ _cancelled (post e))) ∨
  ((b ∉ _pending (post e)) ∧ (b ∉ _validbuilders (post e)) ∧
   (b ∉ _completed (post e)) ∧ b ∈ _cancelled (post e)).
Proof.
  intros [Hst|[Hst|[Hst|[Hst|Hst]]]] Hq.
  - by left.
  - destruct Hst as (He & _). by rewrite He in Hq.
  - destruct Hst as (? & _ & _ & ? & ? & ?). right; left. tauto.
  - destruct Hst as (He & _). by rewrite He in Hq.
  - destruct Hst as (? & _ & _ & ? & ? & ?). right; right. tauto.
Qed.

Lemma stage_start s b :
  Inv s → b ∈ _pending s → stage b (start s).
Proof.
  intros (_ & _ & Hsub & Hone) Hb. left. simpl.
  destruct (Hone b) as (H1 & H2 & _). split_and!; [done|by apply Hsub|tauto|tauto].
Qed.

Lemma settled_start s b :
  b ∉ _pending s →
  settled b (b ∈ _validbuilders s) (b ∈ _completed s) (b ∈ _cancelled s) (start s).
Proof. intros Hb. by split_and!. Qed.

End stages.

Section poll_result.
Context {ModuleSetting W : Type}.
Variable exec_poll : @Executor ModuleSetting → Builder → W → W.
Variable is_complete : W → Builder → bool.
Variable is_failure : W → Builder → bool.
Variable host_refuses : Z → bool.
Local Abbreviation BuildExecutor := (@BuildExecutor ModuleSetting).
Local Abbreviation Entry := (@Entry ModuleSetting).
Local Abbreviation M := (@M ModuleSetting).
Local Abbreviation anywhere := (@anywhere ModuleSetting).
Local Abbreviation stable := (@stable ModuleSetting).
Local Abbreviation good_step := (@good_step ModuleSetting).
Local Abbreviation poll_step := (@poll_step ModuleSetting).
Local Abbreviation settings_step := (@settings_step ModuleSetting).
Local Abbreviation poll_iteration := (poll_iteration exec_poll is_complete is_failure).
Local Abbreviation poll_loop := (poll_loop exec_poll is_complete is_failure).
Local Abbreviation poll := (poll exec_poll is_complete is_failure).
Local Abbreviation sleep_then_poll :=
  (sleep_then_poll exec_poll is_complete is_failure host_refuses).
Local Abbreviation poll_loop_sleeping :=
  (poll_loop_sleeping exec_poll is_complete is_failure host_refuses).
Local Abbreviation poll_sleeping :=
  (poll_sleeping exec_poll is_complete is_failure host_refuses).
Local Abbreviation sleepable := (sleepable host_refuses).
Local Abbreviation moving := (λ (_ e' : Entry), move (ev e')).
Implicit Types (s : BuildExecutor) (b x : Builder) (w : W).

(** *** The [time.sleep] of the loop *)

Lemma sleep_Done secs s :
  sleepable secs → sleep host_refuses secs s = (Done tt, []).
Proof.
  intros (Hlo & Hhi & Hhost). unfold sleep.
  destruct (Z.ltb_spec secs 0); [lia|].
  destruct (Z.ltb_spec PyTime_MAX (secs * 1000000000)); [lia|].
  by rewrite Hhost.
Qed.

(** [time.sleep] sleeps or raises, and what it raises is not the error of
    a failed [remove]. *)
Lemma sleep_cases secs s :
  sleepable secs ∨
  ∃ err : exn, sleep host_refuses secs s = (Raise err, []) ∧ no_remove_error err.
Proof.
  unfold sleep, sleepable.
  destruct (Z.ltb_spec secs 0);
    [right; eexists; split; [done|by intros [=]]|].
  destruct (Z.ltb_spec PyTime_MAX (secs * 1000000000));
    [right; eexists; split; [done|by intros [=]]|].
  destruct (host_refuses secs);
    [right; eexists; split; [done|by intros [=]]|].
  left. by split_and!.
Qed.

Lemma sleep_then_poll_eq w s :
  sleepable (pollinterval s) → sleep_then_poll w s = poll_iteration w s.
Proof.
  intros Hp. unfold sleep_then_poll, bind at 1, get_self. rewrite final_nil.
  unfold bind. rewrite (sleep_Done _ _ Hp), final_nil.
  by destruct (poll_iteration w s).
Qed.

Lemma sleep_then_poll_raises w s (err : exn) :
  sleep host_refuses (pollinterval s) s = (Raise err, []) →
  sleep_then_poll w s = (Raise err, []).
Proof.
  intros Hx. unfold sleep_then_poll, bind at 1, get_self. rewrite final_nil.
  unfold bind. by rewrite Hx.
Qed.

Lemma poll_iteration_interval w s :
  pollinterval (final s (poll_iteration w s).2) = pollinterval s.
Proof.
  destruct (triple_elim _ _ _ _ _ _ s
    (poll_iteration_step exec_poll is_complete is_failure _
       (λ c e s' _, apply_event_settings c e s') w) I) as [Hc _].
  rewrite (final_last_entry (start s)).
  apply (chain_invariant settings_step
           (λ e, pollinterval (post e) = pollinterval s) _ _) in Hc; [done| |done].
  intros e1 e2 (_ & Hp & _) H1. congruence.
Qed.

Lemma poll_loop_sleeping_eq fuel : ∀ w s,
  sleepable (pollinterval s) → poll_loop_sleeping fuel w s = poll_loop fuel w s.
Proof.
  induction fuel as [|fuel IH]; intros w s Hp; [done|].
  cbn [poll_loop poll_loop_sleeping].
  unfold bind at 1 3, get_self. rewrite final_nil.
  destruct (_pending s); [done|].
  assert ((let* w' := sleep_then_poll w in poll_loop_sleeping fuel w') s =
          (let* w' := poll_iteration w in poll_loop fuel w') s) as ->; [|done].
  unfold bind. rewrite sleep_then_poll_eq by done.
  pose proof (poll_iteration_interval w s) as Hi.
  destruct (poll_iteration w s) as [[w'| |] tr]; [|done..].
  simpl in Hi. rewrite IH; [done|by rewrite Hi].
Qed.

Lemma poll_sleeping_eq fuel w s :
  sleepable (pollinterval s) → poll_sleeping fuel w s = poll fuel w s.
Proof.
  intros Hp. unfold poll_sleeping, poll, bind at 1 3.
  by rewrite poll_loop_sleeping_eq.
Qed.

Lemma poll_loop_nothing_pending fuel w s :
  _pending s = [] →
  poll_loop_sleeping fuel w s = (Done w, []) ∧ poll_loop fuel w s = (Done w, []).
Proof.
  intros Hp. destruct fuel; simpl; unfold bind, get_self; rewrite final_nil, Hp;
    done.
Qed.

(** When something is pending and the first sleep raises, [poll] raises
    what the sleep raised, before anything is polled. *)
Lemma poll_sleeping_raises fuel w s (err : exn) :
  _pending s ≠ [] →
  sleep host_refuses (pollinterval s) s = (Raise err, []) →
  poll_sleeping (S fuel) w s = (Raise err, []).
Proof.
  intros Hp Hx. unfold poll_sleeping. cbn [poll_loop_sleeping].
  unfold bind at 1. unfold bind at 1. unfold get_self. rewrite final_nil.
  destruct (_pending s); [done|].
  unfold bind. by rewrite (sleep_then_poll_raises _ _ _ Hx).
Qed.


Lemma poll_sleeping_Done fuel w s r l :
  poll_sleeping fuel w s = (Done r, l) → poll fuel w s = (Done r, l).
Proof.
  destruct (sleep_cases (pollinterval s) s) as [Hp|(err & Hx & _)].
  { by rewrite poll_sleeping_eq. }
  destruct (_pending s) as [|y pend] eqn:Hpend.
  { unfold poll_sleeping, poll, bind at 1 3.
    by destruct (poll_loop_nothing_pending fuel w s Hpend) as [-> ->]. }
  destruct fuel as [|fuel].
  - unfold poll_sleeping. cbn [poll_loop_sleeping].
    unfold bind at 1. unfold bind at 1. unfold get_self.
    rewrite final_nil, Hpend. done.
  - rewrite (poll_sleeping_raises fuel w s err); [done|by rewrite Hpend|done].
Qed.


(** *** The state in which [poll] returns *)

Lemma poll_iteration_chain w s :
  Inv s →
  chain poll_step (start s) (poll_iteration w s).2 ∧
  ∀ w', (poll_iteration w s).1 = Done w' →
        stable (last_entry (start s) (poll_iteration w s).2).
Proof.
  intros HI.
  destruct (triple_elim _ _ _ _ _ _ s
    (poll_iteration_good exec_poll is_complete is_failure w)) as [Hg Hr];
    [done|].
  destruct (triple_elim _ _ _ _ _ _ s
    (poll_iteration_step exec_poll is_complete is_failure moving
       (λ c e s' Hc _, Hc) w) I) as [Hm _].
  split; [by apply chain_and|]. intros w' Hw. by rewrite Hw in Hr.
Qed.

Lemma poll_chain fuel w s :
  Inv s →
  chain poll_step (start s) (poll fuel w s).2 ∧
  ∀ r, (poll fuel w s).1 = Done r →
       stable (last_entry (start s) (poll fuel w s).2).
Proof.
  intros HI.
  assert (triple good_step no_remove_error stable stable (poll fuel w)
            (λ _, stable)) as Hgood.
  { unfold poll. eapply triple_bind; [apply poll_loop_good|]. intros ?.
    apply triple_get_self. intros self. apply triple_ret. tauto. }
  destruct (triple_elim _ _ _ _ _ _ s Hgood) as [Hg Hr]; [done|].
  destruct (triple_elim _ _ _ _ _ _ s
    (poll_step_all exec_poll is_complete is_failure moving
       (λ c e s' Hc _, Hc) fuel w) I) as [Hm _].
  split; [by apply chain_and|]. intros r Hd. by rewrite Hd in Hr.
Qed.

Lemma poll_loop_empties fuel : ∀ w,
  triple (λ _ _, True) any_exn anywhere anywhere (poll_loop fuel w)
    (λ _ e, _pending (post e) = []).
Proof.
  induction fuel as [|fuel IH]; intros w; simpl;
    apply triple_get_self; intros self; destruct (_pending self) eqn:Hp.
  - apply triple_ret. by intros e [_ ->].
  - by apply triple_out_of_fuel.
  - apply triple_ret. by intros e [_ ->].
  - eapply triple_conseq with (P := anywhere); [|done|intros a e H; exact H].
    eapply triple_bind; [|intros w'; apply IH].
    by apply poll_iteration_step.
Qed.

Lemma poll_empties fuel w :
  triple (λ _ _, True) any_exn anywhere anywhere (poll fuel w)
    (λ r e, _pending (post e) = [] ∧
            r = if decide (_cancelled (post e) = ∅) then None
                else Some (elements (_cancelled (post e)))).
Proof.
  unfold poll. eapply triple_bind; [apply poll_loop_empties|]. intros ?.
  apply triple_get_self. intros self. apply triple_ret. by intros e [Hp <-].
Qed.

(** Where the builders are when the trace of some steps of [poll] ends at
    rest. *)
Lemma poll_steps_outcome s l :
  Inv s → chain poll_step (start s) l →
  quiescent (ev (last_entry (start s) l)) →
  let s' := final s l in
  (∀ b, b ∈ _pending s →
     (b ∈ _pending s' ∧ b ∈ _validbuilders s' ∧
      (b ∉ _completed s') ∧ (b ∉ _cancelled s')) ∨
     ((b ∉ _pending s') ∧ b ∈ _validbuilders s' ∧
      b ∈ _completed s' ∧ (b ∉ _cancelled s')) ∨
     ((b ∉ _pending s') ∧ (b ∉ _validbuilders s') ∧
      (b ∉ _completed s') ∧ b ∈ _cancelled s')) ∧
  (∀ b, b ∉ _pending s →
     (b ∉ _pending s') ∧
     (b ∈ _validbuilders s' ↔ b ∈ _validbuilders s) ∧
     (b ∈ _completed s' ↔ b ∈ _completed s) ∧
     (b ∈ _cancelled s' ↔ b ∈ _cancelled s)).
Proof.
  intros HI Hc Hq s'. unfold s'.
  rewrite (final_last_entry (start s)). split.
  - intros b Hb. apply stage_quiescent; [|done].
    eapply chain_invariant; [apply stage_step|done|by apply stage_start].
  - intros b Hb.
    pose proof (chain_invariant poll_step _ _ _
      (settled_step b _ _ _) Hc (settled_start s b Hb)) as (? & _ & _ & ? & ? & ?).
    done.
Qed.

(** X10: when [poll] returns, nothing is pending; every builder that was
    pending is completed and still a valid builder, or cancelled and no
    longer a valid builder; every other builder is where it was; the
    report lists the cancelled builders. *)
Theorem poll_postcondition fuel w s r l :
  Inv s →
  poll_sleeping fuel w s = (Done r, l) →
  let s' := final s l in
  _pending s' = [] ∧
  (∀ b, b ∈ _pending s →
     (b ∈ _validbuilders s' ∧ b ∈ _completed s' ∧ (b ∉ _cancelled s')) ∨
     ((b ∉ _validbuilders s') ∧ (b ∉ _completed s') ∧ b ∈ _cancelled s')) ∧
  (∀ b, b ∉ _pending s →
     (b ∈ _validbuilders s' ↔ b ∈ _validbuilders s) ∧
     (b ∈ _completed s' ↔ b ∈ _completed s) ∧
     (b ∈ _cancelled s' ↔ b ∈ _cancelled s)) ∧
  r = (if decide (_cancelled s' = ∅) then None
       else Some (elements (_cancelled s'))).
Proof.
  intros HI Hd%poll_sleeping_Done s'.
  destruct (poll_chain fuel w s HI) as [Hc Hst]. rewrite Hd in Hc, Hst.
  simpl in Hc, Hst. destruct (Hst r eq_refl) as [Hq _].
  destruct (triple_elim _ _ _ _ _ _ s (poll_empties fuel w) I) as [_ He].
  rewrite Hd in He. simpl in He. destruct He as [Hp Hr].
  rewrite <-(final_last_entry (start s)) in Hp, Hr. simpl in Hp, Hr.
  destruct (poll_steps_outcome s l HI Hc Hq) as [Hin Hout].
  split_and!; [done| | |done].
  - intros b Hb. destruct (Hin b Hb) as [(Hb' & _)|[?|?]]; [|tauto..].
    rewrite Hp in Hb'. by apply elem_of_nil in Hb'.
  - intros b Hb. destruct (Hout b Hb) as (_ & ? & ? & ?). done.
Qed.


(** *** One iteration *)

Local Abbreviation poll_scan := (poll_scan exec_poll is_complete is_failure).
Local Abbreviation polled_world := (polled_world exec_poll).

(** What the scan finds: a builder is in [completed] when [is_complete]
    holds after its poll, in [cancelled] when it does not and [is_failure]
    holds. *)
Lemma poll_scan_spec self bs : ∀ w c0 d0 w' cs ds,
  NoDup bs →
  poll_scan self bs w c0 d0 = inr (w', cs, ds) →
  ∀ b, b ∈ bs →
    ∃ wb, polled_world self bs w b = Some wb ∧
          (b ∈ ds ↔ b ∈ d0 ∨ is_complete wb b = true) ∧
          (b ∈ cs ↔ b ∈ c0 ∨ (is_complete wb b = false ∧ is_failure wb b = true)).
Proof.
  induction bs as [|x bs IH]; intros w c0 d0 w' cs ds Hnd Hscan b Hb.
  { by apply elem_of_nil in Hb. }
  apply NoDup_cons in Hnd as [Hx Hnd]. simpl in Hscan. simpl.
  destruct (get self (executor x)) as [ex|]; [|done].
  set (w1 := exec_poll ex x w) in *.
  destruct (decide (x = b)) as [->|Hne].
  - exists w1. split; [done|].
    assert (∀ c1 d1, poll_scan self bs w1 c1 d1 = inr (w', cs, ds) →
              (b ∈ ds ↔ b ∈ d1) ∧ (b ∈ cs ↔ b ∈ c1)) as Hrest.
    { intros c1 d1 (c & d & -> & -> & Hsub)%poll_scan_submseteq.
      assert (b ∉ d ++ c) as Hout.
      { intros Hin. apply Hx. by eapply elem_of_submseteq. }
      rewrite !elem_of_app. apply not_elem_of_app in Hout as [? ?]. tauto. }
    destruct (is_complete w1 b) eqn:Hc; [|destruct (is_failure w1 b) eqn:Hf];
      apply Hrest in Hscan as [-> ->]; rewrite ?elem_of_app, ?list_elem_of_singleton;
      split; naive_solver.
  - assert (b ∈ bs) as Hb' by (by apply elem_of_cons in Hb as [->|?]).
    destruct (is_complete w1 x) eqn:Hc; [|destruct (is_failure w1 x) eqn:Hf];
      destruct (IH _ _ _ _ _ _ Hnd Hscan b Hb') as (wb & Hwb & Hd & Hcs);
      exists wb; (split; [done|]);
      rewrite Hd, Hcs, ?elem_of_app, ?list_elem_of_singleton; naive_solver.
Qed.

Lemma poll_scan_unregistered self bs : ∀ w c0 d0 b,
  b ∈ bs → get self (executor b) = None →
  poll_scan self bs w c0 d0 =
    inl (AttributeError "'NoneType' object has no attribute 'poll'").
Proof.
  induction bs as [|x bs IH]; intros w c0 d0 b Hb Hnone.
  { by apply elem_of_nil in Hb. }
  simpl. destruct (get self (executor x)) as [ex|] eqn:Hx; [|done].
  assert (b ∈ bs) as Hb'.
  { apply elem_of_cons in Hb as [->|?]; [congruence|done]. }
  repeat case_match; by eapply IH.
Qed.

(** One iteration from a state with the invariant, when the executors of
    the pending builders are registered. *)
Lemma poll_iteration_classifies w s :
  Inv s →
  (∀ x, x ∈ _pending s → is_Some (get s (executor x))) →
  ∃ w' l, poll_iteration w s = (Done w', l) ∧
    _pending (final s l) `sublist_of` _pending s ∧
    (∀ b, b ∈ _pending s →
       ∃ wb, polled_world s (_pending s) w b = Some wb ∧
         if is_complete wb b
         then (b ∉ _pending (final s l)) ∧ b ∈ _validbuilders (final s l) ∧
              b ∈ _completed (final s l) ∧ (b ∉ _cancelled (final s l))
         else if is_failure wb b
         then (b ∉ _pending (final s l)) ∧ (b ∉ _validbuilders (final s l)) ∧
              (b ∉ _completed (final s l)) ∧ b ∈ _cancelled (final s l)
         else b ∈ _pending (final s l) ∧ b ∈ _validbuilders (final s l) ∧
              (b ∉ _completed (final s l)) ∧ (b ∉ _cancelled (final s l))) ∧
    (∀ b, b ∉ _pending s →
       (b ∉ _pending (final s l)) ∧
       (b ∈ _validbuilders (final s l) ↔ b ∈ _validbuilders s) ∧
       (b ∈ _completed (final s l) ↔ b ∈ _completed s) ∧
       (b ∈ _cancelled (final s l) ↔ b ∈ _cancelled s)).
Proof.
  intros HI Hreg.
  destruct (poll_scan_ok exec_poll is_complete is_failure s (_pending s) w [] [] Hreg)
    as [[[w' cs] ds] Hscan].
  destruct (triple_elim _ _ _ _ _ _ s
    (poll_iteration_moves exec_poll is_complete is_failure w s w' cs ds Hscan))
    as [_ Hr]; [done|].
  destruct (poll_iteration_chain w s HI) as [Hc Hst].
  destruct (triple_elim _ _ _ _ _ _ s
    (shrink_poll_iteration exec_poll is_complete is_failure w) I) as [Hsh _].
  apply chain_shrink_sublist in Hsh.
  destruct (poll_iteration w s) as [[r| |] l] eqn:Hit; simpl in *; [|by destruct Hr..].
  destruct Hr as (-> & [Hq HI'] & Hcomp & Hcanc).
  rewrite <-(final_last_entry (start s)) in Hsh, Hcomp, Hcanc. simpl in *.
  destruct (poll_steps_outcome s l HI Hc Hq) as [Hin Hout].
  exists w', l. split_and!; [done..| |done].
  intros b Hb.
  destruct HI as (_ & Hnd & _ & Hone). destruct (Hone b) as (H1 & H2 & _).
  destruct (poll_scan_spec s (_pending s) w [] [] w' cs ds Hnd Hscan b Hb)
    as (wb & Hwb & Hds & Hcs).
  exists wb. split; [done|].
  assert (b ∈ _completed (final s l) ↔ is_complete wb b = true) as Hcompl.
  { rewrite Hcomp, elem_of_union, elem_of_list_to_set, Hds, elem_of_nil. tauto. }
  assert (b ∈ _cancelled (final s l) ↔
          is_complete wb b = false ∧ is_failure wb b = true) as Hcancl.
  { rewrite Hcanc, elem_of_union, elem_of_list_to_set, Hcs, elem_of_nil. tauto. }
  specialize (Hin b Hb).
  destruct (is_complete wb b); [|destruct (is_failure wb b)]; naive_solver.
Qed.

(** X9: an iteration of the loop of [poll], with a poll interval that is
    slept, sorts every pending builder by its state after its poll:
    complete, it is moved to the completed ones
    and stays a valid builder; failed and not complete, it is moved to the
    cancelled ones and is no longer a valid builder; neither, it stays
    pending. *)
Theorem poll_iteration_outcome w s :
  Inv s →
  sleepable (pollinterval s) →
  (∀ x, x ∈ _pending s → is_Some (get s (executor x))) →
  ∃ w' l, sleep_then_poll w s = (Done w', l) ∧
    ∀ b, b ∈ _pending s →
      ∃ wb, polled_world s (_pending s) w b = Some wb ∧
        if is_complete wb b
        then (b ∉ _pending (final s l)) ∧ b ∈ _validbuilders (final s l) ∧
             b ∈ _completed (final s l) ∧ (b ∉ _cancelled (final s l))
        else if is_failure wb b
        then (b ∉ _pending (final s l)) ∧ (b ∉ _validbuilders (final s l)) ∧
             (b ∉ _completed (final s l)) ∧ b ∈ _cancelled (final s l)
        else b ∈ _pending (final s l) ∧ b ∈ _validbuilders (final s l) ∧
             (b ∉ _completed (final s l)) ∧ (b ∉ _cancelled (final s l)).
Proof.
  intros HI Hp Hreg. rewrite sleep_then_poll_eq by done.
  destruct (poll_iteration_classifies w s HI Hreg) as (w' & l & Hit & _ & Hin & _).
  by exists w', l.
Qed.

(** X11: when every pending job is complete or has failed by the time it is
    polled, [poll], with a poll interval that is slept, returns after one
    iteration and nothing is pending. *)
Theorem poll_returns_when_jobs_finished fuel w s :
  Inv s →
  sleepable (pollinterval s) →
  (∀ x, x ∈ _pending s → is_Some (get s (executor x))) →
  (∀ b wb, b ∈ _pending s → polled_world s (_pending s) w b = Some wb →
           is_complete wb b = true ∨ is_failure wb b = true) →
  ∃ r l, poll_sleeping (S fuel) w s = (Done r, l) ∧ _pending (final s l) = [].
Proof.
  intros HI Hp Hreg Hfin. rewrite poll_sleeping_eq by done.
  destruct (poll_iteration_classifies w s HI Hreg)
    as (w' & l & Hit & Hsub & Hin & _).
  assert (_pending s ≠ [] → _pending (final s l) = []) as Hempty.
  { intros _. destruct (_pending (final s l)) as [|b rest] eqn:Hpend; [done|].
    assert (b ∈ _pending s) as Hb.
    { eapply elem_of_sublist; [|done]. by left. }
    destruct (Hin b Hb) as (wb & Hwb & Hcase).
    destruct (Hfin b wb Hb Hwb) as [Hc|Hf].
    - rewrite Hc in Hcase. destruct Hcase as [Hout _]. destruct Hout. by left.
    - rewrite Hf in Hcase. destruct (is_complete wb b);
        destruct Hcase as [Hout _]; destruct Hout; by left. }
  destruct (_pending s) as [|y pend] eqn:Hpend.
  - eexists _, []. split; [|by rewrite final_nil].
    unfold poll. eapply (bind_Done_eq _ _ _ _ []).
    { by apply poll_loop_nothing_pending. }
    reflexivity.
  - eexists _, (([] ++ l ++ []) ++ [] ++ []). split.
    + unfold poll. eapply bind_Done_eq.
      { cbn [poll_loop]. eapply bind_Done_eq; [reflexivity|].
        rewrite final_nil, Hpend.
        eapply bind_Done_eq; [exact Hit|].
        apply poll_loop_nothing_pending. by apply Hempty. }
      eapply bind_Done_eq; reflexivity.
    + rewrite !app_nil_r. simpl. by apply Hempty.
Qed.

(** X12: a pending builder whose executor is not registered makes the
    iteration raise an [AttributeError] at its poll, once the poll interval
    is slept; no builder is moved. *)
Theorem poll_unregistered_executor fuel w s b :
  sleepable (pollinterval s) →
  b ∈ _pending s → get s (executor b) = None →
  sleep_then_poll w s =
    (Raise (AttributeError "'NoneType' object has no attribute 'poll'"), []) ∧
  poll_sleeping (S fuel) w s =
    (Raise (AttributeError "'NoneType' object has no attribute 'poll'"), []).
Proof.
  intros Hp Hb Hnone.
  assert (poll_iteration w s =
    (Raise (AttributeError "'NoneType' object has no attribute 'poll'"), []))
    as Hit.
  { unfold poll_iteration, bind, get_self. rewrite final_nil.
    by rewrite (poll_scan_unregistered s _ w [] [] b Hb Hnone). }
  split; [by rewrite sleep_then_poll_eq|].
  rewrite poll_sleeping_eq by done. unfold poll. cbn [poll_loop].
  unfold bind at 1. unfold bind at 1. unfold get_self. rewrite final_nil.
  destruct (_pending s); [by apply elem_of_nil in Hb|].
  unfold bind. by rewrite Hit.
Qed.

End poll_result.

(** *** A cancelled builder that is not a valid builder *)

Section unguarded_remove.
Context {ModuleSetting W : Type}.
Variable exec_poll : @Executor ModuleSetting → Builder → W → W.
Variable is_complete : W → Builder → bool.
Variable is_failure : W → Builder → bool.
Variable host_refuses : Z → bool.
Local Abbreviation BuildExecutor := (@BuildExecutor ModuleSetting).
Local Abbreviation Entry := (@Entry ModuleSetting).
Local Abbreviation M := (@M ModuleSetting).
Local Abbreviation poll_iteration := (poll_iteration exec_poll is_complete is_failure).
Local Abbreviation sleep_then_poll :=
  (sleep_then_poll exec_poll is_complete is_failure host_refuses).
Local Abbreviation sleepable := (sleepable host_refuses).
Local Abbreviation poll_scan := (poll_scan exec_poll is_complete is_failure).
Local Abbreviation polled_world := (polled_world exec_poll).
Implicit Types (s : BuildExecutor) (b x y : Builder) (w : W).

(** The loop over the completed builders of an iteration. *)
Lemma completed_loop ds : ∀ s,
  NoDup ds → NoDup (_pending s) → (∀ x, x ∈ ds → x ∈ _pending s) →
  ∃ l, for_each ds (λ builder,
         emit (PendingRemove builder) >> emit (CompletedAdd builder)) s =
       (Done tt, l) ∧
       _validbuilders (final s l) = _validbuilders s ∧
       NoDup (_pending (final s l)) ∧
       (∀ x, x ∈ _pending s → x ∉ ds → x ∈ _pending (final s l)).
Proof.
  induction ds as [|y ds IH]; intros s Hnd Hp Hin.
  { exists []. by rewrite final_nil. }
  apply NoDup_cons in Hnd as [Hy Hnd]. cbn [for_each].
  destruct (list_remove_is_Some y (_pending s)) as [p Hr]; [apply Hin; by left|].
  set (s1 := set_pending p s).
  set (s2 := set_completed ({[y]} ∪ _completed s1) s1).
  assert ((emit (PendingRemove y) >> emit (CompletedAdd y)) s =
          (Done tt, [mkEntry (PendingRemove y) s1; mkEntry (CompletedAdd y) s2]))
    as Hbody.
  { unfold bind, emit. simpl. by rewrite Hr. }
  destruct (list_remove_NoDup _ _ _ Hr Hp) as [Hp1 _].
  destruct (IH s2 Hnd Hp1) as (l & Hl & Hv & Hp2 & Hkeep).
  { intros x Hx. simpl. eapply list_remove_elem_of_ne; [done| |].
    - by intros ->.
    - apply Hin. by right. }
  eexists. split; [eapply bind_Done_eq; [exact Hbody|exact Hl]|].
  rewrite final_app. change (final s [_; _]) with s2. split_and!; [done..|].
  intros x Hx Hout. apply not_elem_of_cons in Hout as [Hne Hout].
  apply Hkeep; [|done]. simpl. by eapply list_remove_elem_of_ne.
Qed.

(** The loop over the cancelled builders stops at the first one that is
    not a valid builder, after it has moved it. *)
Lemma cancelled_loop_raises cs : ∀ s,
  NoDup cs → NoDup (_pending s) → (∀ x, x ∈ cs → x ∈ _pending s) →
  (∃ b, b ∈ cs ∧ b ∉ _validbuilders s) →
  ∃ l x, for_each cs (λ builder,
           emit (PendingRemove builder) >> emit (CancelledAdd builder) >>
           emit (ValidRemove builder)) s =
         (Raise remove_error, l) ∧
         x ∈ cs ∧ (x ∉ _validbuilders s) ∧
         (x ∉ _pending (final s l)) ∧ x ∈ _cancelled (final s l).
Proof.
  induction cs as [|y cs IH]; intros s Hnd Hp Hin (b & Hb & Hbv).
  { by apply elem_of_nil in Hb. }
  apply NoDup_cons in Hnd as [Hy Hnd]. cbn [for_each].
  destruct (list_remove_is_Some y (_pending s)) as [p Hr]; [apply Hin; by left|].
  destruct (list_remove_NoDup _ _ _ Hr Hp) as [Hp1 Hyp].
  set (s1 := set_pending p s).
  set (s2 := set_cancelled ({[y]} ∪ _cancelled s1) s1).
  destruct (list_remove y (_validbuilders s)) as [v|] eqn:Hv.
  - set (s3 := set_validbuilders v s2).
    assert ((emit (PendingRemove y) >> emit (CancelledAdd y) >>
             emit (ValidRemove y)) s =
            (Done tt, [mkEntry (PendingRemove y) s1; mkEntry (CancelledAdd y) s2;
                       mkEntry (ValidRemove y) s3])) as Hbody.
    { unfold bind, emit. simpl. rewrite Hr. simpl. by rewrite Hv. }
    assert (b ≠ y) as Hne.
    { intros ->. apply Hbv. apply list_remove_Some in Hv as (l1 & l2 & -> & _).
      apply elem_of_app. right. by left. }
    destruct (IH s3 Hnd Hp1) as (l & x & Hl & Hx & Hxv & Hxp & Hxk).
    { intros x Hx. simpl. eapply list_remove_elem_of_ne; [done| |].
      - by intros ->.
      - apply Hin. by right. }
    { exists b. split.
      - by apply elem_of_cons in Hb as [?|?].
      - simpl. intros Hbv'. apply Hbv. by eapply list_remove_elem_of. }
    exists ([mkEntry (PendingRemove y) s1; mkEntry (CancelledAdd y) s2;
             mkEntry (ValidRemove y) s3] ++ l), x.
    split; [eapply bind_Done_eq; [exact Hbody|exact Hl]|].
    rewrite final_app. change (final s [_; _; _]) with s3.
    split_and!; [by right| |done|done].
    intros Hxv'. apply Hxv. simpl. eapply list_remove_elem_of_ne; [done| |done].
    by intros ->.
  - exists [mkEntry (PendingRemove y) s1; mkEntry (CancelledAdd y) s2], y.
    split_and!.
    + unfold bind, emit. simpl. rewrite Hr. simpl. by rewrite Hv.
    + by left.
    + by apply list_remove_None.
    + done.
    + simpl. set_solver.
Qed.

(** X13: the removal from the valid builders is not guarded: when a pending
    builder that has failed is not a valid builder, the iteration, once the
    poll interval is slept, raises the
    [ValueError] of [list.remove], and the builder it stops at has already
    left the pending builders and entered the cancelled ones. *)
Theorem poll_cancels_before_remove_fails w s b wb :
  NoDup (_pending s) →
  sleepable (pollinterval s) →
  (∀ x, x ∈ _pending s → is_Some (get s (executor x))) →
  b ∈ _pending s → b ∉ _validbuilders s →
  polled_world s (_pending s) w b = Some wb →
  is_complete wb b = false → is_failure wb b = true →
  ∃ l x, sleep_then_poll w s = (Raise remove_error, l) ∧
         x ∈ _pending s ∧ (x ∉ _validbuilders s) ∧
         (x ∉ _pending (final s l)) ∧ x ∈ _cancelled (final s l).
Proof.
  intros Hnd Hp Hreg Hb Hbv Hwb Hc Hf. rewrite sleep_then_poll_eq by done.
  destruct (poll_scan_ok exec_poll is_complete is_failure s (_pending s) w [] [] Hreg)
    as [[[w' cs] ds] Hscan].
  destruct (poll_scan_spec exec_poll is_complete is_failure s (_pending s)
              w [] [] w' cs ds Hnd Hscan b Hb) as (wb' & Hwb' & _ & Hcs).
  assert (wb' = wb) as -> by congruence.
  assert (b ∈ cs) as Hbcs by (apply Hcs; by right).
  destruct (poll_scan_submseteq _ _ _ _ _ _ _ _ _ _ _ Hscan)
    as (c & d & -> & -> & Hsub). simpl in *.
  assert (NoDup (d ++ c)) as Hdc.
  { apply submseteq_Permutation in Hsub as [k Hk]. rewrite Hk in Hnd.
    by apply NoDup_app in Hnd as [? _]. }
  apply NoDup_app in Hdc as (Hd & Hdisj & Hcnd).
  destruct (completed_loop d s Hd Hnd) as (l1 & Hl1 & Hv1 & Hp1 & Hkeep).
  { intros x Hx. eapply elem_of_submseteq; [|done]. apply elem_of_app. by left. }
  destruct (cancelled_loop_raises c (final s l1) Hcnd Hp1)
    as (l2 & x & Hl2 & Hx & Hxv & Hxp & Hxk).
  { intros x Hx. apply Hkeep.
    - eapply elem_of_submseteq; [|done]. apply elem_of_app. by right.
    - intros Hxd. by apply (Hdisj x). }
  { exists b. split; [done|]. by rewrite Hv1. }
  exists (l1 ++ l2), x. split_and!.
  - unfold poll_iteration. change (l1 ++ l2) with ([] ++ l1 ++ l2).
    eapply bind_Done_eq; [reflexivity|]. rewrite final_nil, Hscan.
    rewrite !guarded_for_each.
    eapply bind_Done_eq; [exact Hl1|]. by apply bind_Raise.
  - eapply elem_of_submseteq; [|done]. apply elem_of_app. by right.
  - by rewrite <-Hv1.
  - by rewrite final_app.
  - by rewrite final_app.
Qed.

End unguarded_remove.

(** ** Builders that are cancelled *)

Section cancelled_once.
Context {ModuleSetting W : Type}.
Variable cpu_count : option Z.
Variable worker : Work → @Executor ModuleSetting → Builder → option Builder.
Variable latency : nat → nat.
Variable is_batch_job : W → Builder → bool.
Variable exec_poll : @Executor ModuleSetting → Builder → W → W.
Variable is_complete : W → Builder → bool.
Variable is_failure : W → Builder → bool.
Variable host_refuses : Z → bool.
Local Abbreviation BuildExecutor := (@BuildExecutor ModuleSetting).
Local Abbreviation SiteConfiguration := (@SiteConfiguration ModuleSetting).
Local Abbreviation Entry := (@Entry ModuleSetting).
Local Abbreviation M := (@M ModuleSetting).
Local Abbreviation stable := (@stable ModuleSetting).
Local Abbreviation good_step := (@good_step ModuleSetting).
Local Abbreviation settings_step := (@settings_step ModuleSetting).
Local Abbreviation returns_own_builder := (returns_own_builder worker).
Local Abbreviation run := (run cpu_count worker latency is_batch_job).
Local Abbreviation submit := (submit worker latency).
Local Abbreviation outcome := (outcome worker).
Local Abbreviation polled_world := (polled_world exec_poll).
Local Abbreviation poll_iteration := (poll_iteration exec_poll is_complete is_failure).
Local Abbreviation sleep_then_poll :=
  (sleep_then_poll exec_poll is_complete is_failure host_refuses).
Local Abbreviation poll_loop_sleeping :=
  (poll_loop_sleeping exec_poll is_complete is_failure host_refuses).
Local Abbreviation poll_sleeping :=
  (poll_sleeping exec_poll is_complete is_failure host_refuses).
Local Abbreviation run_then_poll_sleeping :=
  (run_then_poll_sleeping cpu_count worker latency is_batch_job
     exec_poll is_complete is_failure host_refuses).
Local Abbreviation iteration_head :=
  (iteration_head exec_poll is_complete is_failure host_refuses).
Local Abbreviation sleepable := (sleepable host_refuses).
Local Abbreviation ready := (ready host_refuses).
Implicit Types (s self : BuildExecutor) (e : Entry) (b x y : Builder) (w : W).
Implicit Types (bs : list Builder) (cfg : SiteConfiguration).

(** *** The invariant, with the sleeps *)

Lemma sleep_good secs :
  triple good_step no_remove_error stable stable (sleep host_refuses secs)
    (λ _, stable).
Proof.
  intros e He.
  destruct (sleep_cases host_refuses secs (post e)) as [Hs|(err & -> & Herr)].
  - by rewrite (sleep_Done host_refuses _ _ Hs).
  - done.
Qed.

Lemma sleep_then_poll_good w :
  triple good_step no_remove_error stable stable (sleep_then_poll w) (λ _, stable).
Proof.
  unfold sleep_then_poll. apply triple_get_self. intros self.
  eapply triple_conseq with (P := stable) (Q := λ _, stable); [|tauto|done].
  eapply triple_bind; [apply sleep_good|]. intros ?. apply poll_iteration_good.
Qed.

Lemma poll_loop_sleeping_good fuel w :
  triple good_step no_remove_error stable stable (poll_loop_sleeping fuel w)
    (λ _, stable).
Proof.
  revert w. induction fuel as [|fuel IH]; intros w; simpl;
    apply triple_get_self; intros self.
  - destruct (_pending self); [apply triple_ret|apply triple_out_of_fuel]; tauto.
  - destruct (_pending self); [apply triple_ret; tauto|].
    eapply triple_conseq with (P := stable) (Q := λ _, stable); [|tauto|done].
    eapply triple_bind; [apply sleep_then_poll_good|]. intros w'. apply IH.
Qed.

Lemma poll_sleeping_good fuel w :
  triple good_step no_remove_error stable stable (poll_sleeping fuel w)
    (λ _, stable).
Proof.
  unfold poll_sleeping. eapply triple_bind; [apply poll_loop_sleeping_good|].
  intros ?. apply triple_get_self. intros self. apply triple_ret. tauto.
Qed.

(** What the invariant gives for a whole execution from a new object. *)
Lemma run_then_poll_sleeping_trace cfg acct mpt pint w fuel bs fuel' w' :
  returns_own_builder → NoDup bs →
  let s0 := init_state cfg acct mpt pint in
  let out := run_then_poll_sleeping w fuel bs fuel' w' s0 in
  chain good_step (start s0) out.2 ∧
  out.1 ≠ Raise remove_error ∧
  quiescent (ev (last_entry (start s0) out.2)).
Proof.
  intros Hown Hnd s0 out.
  assert (triple good_step no_remove_error stable
            (λ e, quiescent (ev e) ∧ fresh_tracking (post e) ∧ builders (post e) = [])
            (run_then_poll_sleeping w fuel bs fuel' w') (λ _, stable)) as Ht.
  { unfold run_then_poll_sleeping.
    eapply triple_bind; [by apply run_good|]. intros ?. apply poll_sleeping_good. }
  destruct (triple_elim _ _ _ _ _ _ s0 Ht) as [Hc Hr].
  { split; [done|]. apply init_state_fresh. }
  fold out in Hc, Hr. split_and!; [done|..].
  - destruct out.1; [done| |done]. intros [= ->]. by destruct Hr as [Hr _].
  - destruct out.1; [by destruct Hr|by destruct Hr as [_ [? _]]|by destruct Hr].
Qed.

(** In a trace of good steps that starts and ends at rest, a builder is
    added to [_cancelled] at most once, and as often as it is removed from
    [_validbuilders]. *)
Lemma cancelled_matched s (l : list Entry) b :
  chain good_step (start s) l →
  quiescent (ev (last_entry (start s) l)) →
  occurrences (CancelledAdd b) l ≤ 1 ∧
  occurrences (ValidRemove b) l = occurrences (CancelledAdd b) l.
Proof.
  intros Hc Hq.
  assert (occurrences (CancelledAdd b) l ≤ occurrences (PendingRemove b) l) as H1.
  { pose proof (occurrences_follows (PendingRemove b) (CancelledAdd b) _ _
      (λ c, follows_CancelledAdd_inv c b) Hc) as H.
    simpl in H. lia. }
  assert (occurrences (ValidRemove b) l ≤ occurrences (CancelledAdd b) l) as H2.
  { pose proof (occurrences_follows (CancelledAdd b) (ValidRemove b) _ _
      (λ c, follows_ValidRemove_inv c b) Hc) as H.
    simpl in H. lia. }
  assert (occurrences (CancelledAdd b) l ≤ occurrences (ValidRemove b) l) as H3.
  { pose proof (occurrences_followed (CancelledAdd b) (ValidRemove b) _ _
      (λ c, follows_CancelledAdd c b) Hc) as H.
    simpl in H.
    assert (ev (last_entry (start s) l) ≠ CancelledAdd b) as Hne.
    { intros Heq. by rewrite Heq in Hq. }
    specialize (H Hne). lia. }
  pose proof (remove_at_most_once _ _ b Hc) as H4.
  lia.
Qed.

(** *** The builders that [run] leaves pending *)

(** Either every builder resolves, or there is a first one that does
    not. *)
Lemma first_unregistered s bs :
  (∀ b, b ∈ bs → is_Some (get s (executor b))) ∨
  ∃ pre b post, bs = pre ++ b :: post ∧
    (∀ x, x ∈ pre → is_Some (get s (executor x))) ∧
    get s (executor b) = None.
Proof.
  induction bs as [|y bs IH].
  { left. by intros b ?%elem_of_nil. }
  destruct (get s (executor y)) as [ex|] eqn:Hy.
  - destruct IH as [IH|(pre & b & post & -> & Hpre & Hb)].
    + left. intros b [->|?]%elem_of_cons; [by eexists|by apply IH].
    + right. exists (y :: pre), b, post. split_and!; [done| |done].
      intros x [->|?]%elem_of_cons; [by eexists|by apply Hpre].
  - right. exists [], y, bs. split_and!; [done| |done].
    by intros x ?%elem_of_nil.
Qed.

(** [run] returns only when every builder it was given resolves. *)
Lemma run_Done_registered s w fuel bs l :
  run w fuel bs s = (Done tt, l) →
  ∀ b, b ∈ bs → is_Some (get s (executor b)).
Proof.
  intros Hrun.
  destruct (first_unregistered s bs) as [?|(pre & b & post & -> & Hpre & Hb)];
    [done|].
  destruct (assign_stops pre s b post Hpre Hb) as (l' & Hl' & _).
  unfold run in Hrun. by rewrite (bind_Raise _ _ _ _ _ Hl') in Hrun.
Qed.

(** Whatever the collection loop does, the valid builders it leaves are
    the old ones followed by tasks of the results. *)
Lemma collect_valid fuel : ∀ clock rs s,
  ∃ L, (∀ t, t ∈ L → t ∈ omap task rs) ∧
       final s (collect fuel clock rs s).2 =
         set_validbuilders (_validbuilders s ++ L) s.
Proof.
  assert (∀ (rdy rs : list AsyncResult) t,
            rdy `sublist_of` rs → t ∈ omap task rdy → t ∈ omap task rs) as Hsubl.
  { intros rdy rs t Hsub (r & Hr & Ht)%list_elem_of_omap.
    apply list_elem_of_omap. exists r. split; [|done].
    by eapply elem_of_sublist. }
  induction fuel as [|fuel IH]; intros clock rs s.
  { exists []. split; [by intros t ?%elem_of_nil|].
    destruct rs; simpl; by rewrite final_nil, set_validbuilders_same. }
  destruct rs as [|r rs].
  { exists []. split; [by intros t ?%elem_of_nil|].
    simpl. by rewrite final_nil, set_validbuilders_same. }
  cbn [collect].
  destruct (collect_pass_Done (r :: rs) clock [] s)
    as (clock' & rdy & l1 & Hl1 & Hsub & _ & _ & Hf1 & _).
  rewrite (bind_Done _ _ _ _ _ Hl1). cbn [fst snd].
  destruct (remove_ready ([] ++ rdy) (r :: rs)) as [err|results'] eqn:Hrem.
  - exists (omap task rdy). split; [intros t; by apply Hsubl|].
    simpl. by rewrite app_nil_r.
  - destruct (IH clock' results' (final s l1)) as (L' & HL' & Hf').
    exists (omap task rdy ++ L'). split.
    + intros t [Ht|Ht]%elem_of_app; [by eapply Hsubl|].
      eapply Hsubl; [by eapply remove_ready_sublist|by apply HL'].
    + rewrite final_app, Hf', Hf1. simpl. by rewrite app_assoc.
Qed.

(** When [run] returns on an orchestrator that has no builders yet, the
    valid and the pending builders it adds are builders it was given, and
    their executors are registered. *)
Lemma run_Done_tracked s w fuel bs l :
  returns_own_builder → builders s = [] →
  run w fuel bs s = (Done tt, l) →
  (∀ x, x ∈ _validbuilders (final s l) → x ∈ _validbuilders s ∨ x ∈ bs) ∧
  (∀ x, x ∈ _pending (final s l) →
        x ∈ _pending s ∨ x ∈ _validbuilders (final s l)) ∧
  (∀ b, b ∈ bs → is_Some (get s (executor b))).
Proof.
  intros Hown Hnil Hrun.
  pose proof (run_Done_registered _ _ _ _ _ Hrun) as Hreg.
  destruct (assign_Done bs s Hreg) as (l1 & Hl1 & Hb & Ht & Hc & Hk & _).
  unfold run in Hrun.
  apply bind_Done_inv in Hrun as (? & la & lb & Ha & Hrun & ->).
  rewrite Hl1 in Ha. injection Ha as <- <-.
  set (s1 := final s l1) in *.
  apply bind_Done_inv in Hrun as (? & ? & lc & Hself & Hrun & ->).
  injection Hself as <- <-. rewrite final_nil in Hrun.
  destruct (compute_num_workers cpu_count (target_config (configuration s1)))
    as [err|n]; [discriminate Hrun|].
  apply bind_Done_inv in Hrun as (? & lp & ld & Hpool & Hrun & ->).
  unfold Pool in Hpool. destruct (n <? 1)%Z; [discriminate Hpool|].
  injection Hpool as <- <-. change (final s1 [_]) with s1 in Hrun.
  apply bind_Done_inv in Hrun as (? & ? & le & Hself & Hrun & ->).
  injection Hself as <- <-. rewrite final_nil in Hrun.
  apply bind_Done_inv in Hrun as (rs & l3 & lf & Hsub & Hrun & ->).
  apply bind_Done_inv in Hrun as ([] & l4 & l5 & Hcol & Hpart & ->).
  destruct (submit_Done worker latency (builders s1) [] s1)
    as (rs' & l3' & Hl3 & Hf3 & Htask & _).
  { intros b Hin. apply Hk, Hreg. by rewrite Hb, Hnil in Hin. }
  rewrite Hl3 in Hsub. injection Hsub as <- <-. rewrite Hf3 in Hcol, Hpart.
  destruct (collect_valid fuel 0 rs' s1) as (L & HL & Hf4).
  rewrite Hcol in Hf4. simpl in Hf4.
  destruct (partition_Done is_batch_job w (final s1 l4)) as (l5' & Hl5 & Hf5 & _).
  rewrite Hl5 in Hpart. injection Hpart as <-.
  assert (final s (l1 ++ [] ++ [mkEntry (PoolCreate n) s1] ++ [] ++ l3' ++ l4 ++ l5') =
          final (final s1 l4) l5') as ->.
  { rewrite !final_app. fold s1. rewrite !final_nil.
    change (final s1 [_]) with s1. by rewrite Hf3. }
  rewrite Hf5, Hf4. simpl. destruct Ht as (Hv & Hp & _).
  rewrite Hv, Hp. split_and!; [| |done].
  - intros x [?|Hx]%elem_of_app; [by left|]. right.
    apply HL in Hx. rewrite Htask, Hb, Hnil in Hx. simpl in Hx.
    apply list_elem_of_omap in Hx as (b & Hb' & Hout).
    unfold outcome in Hout. destruct (get s1 (executor b)); [|done].
    by rewrite (Hown _ _ _ _ Hout).
  - intros x [?|Hx]%elem_of_app; [by left|]. right.
    by apply list_elem_of_filter in Hx as [_ ?].
Qed.

(** *** The iterations of the loop *)

Lemma names_get s s' k :
  names s' = names s → is_Some (get s' k) ↔ is_Some (get s k).
Proof. unfold names, get. rewrite !dict_get_is_Some. by intros ->. Qed.

Lemma run_settings s w fuel bs :
  pollinterval (final s (run w fuel bs s).2) = pollinterval s ∧
  names (final s (run w fuel bs s).2) = names s.
Proof.
  destruct (triple_elim _ _ _ _ _ _ s
    (run_step cpu_count worker latency is_batch_job _ apply_event_settings
       w fuel bs) I) as [Hc _].
  rewrite (final_last_entry (start s)).
  apply (chain_invariant settings_step
           (λ e, pollinterval (post e) = pollinterval s ∧
                 names (post e) = names s) _ _) in Hc; [done| |done].
  intros e1 e2 (_ & Hp & Hn) [H1 H2]. split; congruence.
Qed.

Lemma poll_iteration_settings w s :
  pollinterval (final s (poll_iteration w s).2) = pollinterval s ∧
  names (final s (poll_iteration w s).2) = names s.
Proof.
  destruct (triple_elim _ _ _ _ _ _ s
    (poll_iteration_step exec_poll is_complete is_failure _
       (λ c e s' _, apply_event_settings c e s') w) I) as [Hc _].
  rewrite (final_last_entry (start s)).
  apply (chain_invariant settings_step
           (λ e, pollinterval (post e) = pollinterval s ∧
                 names (post e) = names s) _ _) in Hc; [done| |done].
  intros e1 e2 (_ & Hp & Hn) [H1 H2]. split; congruence.
Qed.

Lemma polled_world_elem s bs : ∀ w b wb,
  polled_world s bs w b = Some wb → b ∈ bs.
Proof.
  induction bs as [|y bs IH]; intros w b wb; simpl; [done|].
  destruct (get s (executor y)); [|done].
  destruct (decide (y = b)) as [->|]; [by left|].
  intros ?%IH. by right.
Qed.

(** An iteration from such a state returns, leaves such a state, and adds
    to [_cancelled] every builder that has failed and is not complete
    after its poll. *)
Lemma sleep_then_poll_ready w s :
  ready s →
  ∃ w' l, sleep_then_poll w s = (Done w', l) ∧ ready (final s l) ∧
    ∀ b wb, polled_world s (_pending s) w b = Some wb →
            is_complete wb b = false → is_failure wb b = true →
            1 ≤ occurrences (CancelledAdd b) l.
Proof.
  intros (HI & Hreg & Hs). rewrite (sleep_then_poll_eq _ _ _ _ _ _ Hs).
  destruct (poll_iteration_classifies exec_poll is_complete is_failure w s HI Hreg)
    as (w' & l & Hit & Hsub & Hin & _).
  destruct (triple_elim _ _ _ _ _ _ s
    (poll_iteration_good exec_poll is_complete is_failure w)) as [Hg Hr];
    [done|].
  pose proof (poll_iteration_settings w s) as [Hp Hn].
  rewrite Hit in Hg, Hr, Hp, Hn. simpl in Hg, Hr, Hp, Hn.
  exists w', l. split; [done|]. split.
  - split_and!.
    + rewrite (final_last_entry (start s)). by destruct Hr.
    + intros x Hx. apply (names_get _ _ _ Hn), Hreg.
      by eapply elem_of_sublist.
    + by rewrite Hp.
  - intros b wb Hwb Hc Hf.
    pose proof (polled_world_elem _ _ _ _ _ Hwb) as Hb.
    destruct (Hin b Hb) as (wb' & Hwb' & Hcase).
    assert (wb' = wb) as -> by congruence. rewrite Hc, Hf in Hcase.
    destruct Hcase as (_ & _ & _ & Hk).
    apply (cancelled_by_add (start s) l b Hg).
    + destruct HI as (_ & _ & _ & Hone). destruct (Hone b) as (_ & Hpk & _).
      simpl. tauto.
    + by rewrite <-(final_last_entry (start s)).
Qed.

(** The trace of the loop up to the head of iteration [k], and from
    there. *)
Lemma iteration_split k : ∀ w s fuel wk sk,
  ready s →
  iteration_head k w s = Some (wk, sk) →
  ready sk ∧
  ∃ l1, (poll_loop_sleeping (k + fuel) w s).2 =
        l1 ++ (poll_loop_sleeping fuel wk sk).2.
Proof.
  induction k as [|k IH]; intros w s fuel wk sk Hs; simpl.
  { intros [= <- <-]. split; [done|]. by exists []. }
  destruct (_pending s) as [|y pend] eqn:Hpend; [done|].
  destruct (sleep_then_poll_ready w s Hs) as (w1 & l & Hit & Hs1 & _).
  rewrite Hit. intros Hhead.
  destruct (IH w1 (final s l) fuel wk sk Hs1 Hhead) as (Hsk & l1 & Hl1).
  split; [done|]. exists (l ++ l1).
  unfold bind at 1. unfold get_self at 1. rewrite final_nil, Hpend.
  rewrite (bind_Done _ _ _ _ _ Hit). simpl. by rewrite Hl1, app_assoc.
Qed.

(** C7: on a new orchestrator, in a [run] of distinct builders, with
    backends that return the builder they were given, followed by a
    [poll]: no [remove] raises; a builder is added to [_cancelled] at most
    once and removed from [_validbuilders] as often as it is added to
    [_cancelled]; and a builder that an iteration of the loop finds failed
    and not complete after its poll is added to [_cancelled] once and
    removed from [_validbuilders] once in the whole execution. *)
Theorem cancelled_removed_once cfg acct mpt pint (w w' : W) fuel fuel' bs :
  returns_own_builder → NoDup bs →
  let s0 := init_state cfg acct mpt pint in
  let out := run_then_poll_sleeping w fuel bs fuel' w' s0 in
  out.1 ≠ Raise remove_error ∧
  (∀ b, occurrences (CancelledAdd b) out.2 ≤ 1 ∧
        occurrences (ValidRemove b) out.2 = occurrences (CancelledAdd b) out.2 ∧
        (b ∈ _cancelled (final s0 out.2) → occurrences (ValidRemove b) out.2 = 1)) ∧
  (∀ k wk sk b wb,
     sleepable (pollinterval s0) →
     (run w fuel bs s0).1 = Done tt →
     k < fuel' →
     iteration_head k w' (final s0 (run w fuel bs s0).2) = Some (wk, sk) →
     polled_world sk (_pending sk) wk b = Some wb →
     is_complete wb b = false → is_failure wb b = true →
     occurrences (CancelledAdd b) out.2 = 1 ∧
     occurrences (ValidRemove b) out.2 = 1).
Proof.
  intros Hown Hnd s0 out.
  destruct (run_then_poll_sleeping_trace cfg acct mpt pint w fuel bs fuel' w'
              Hown Hnd) as (Hc & Hr & Hq).
  fold s0 in Hc, Hq. fold out in Hc, Hr, Hq.
  assert (∀ b, occurrences (CancelledAdd b) out.2 ≤ 1 ∧
               occurrences (ValidRemove b) out.2 =
                 occurrences (CancelledAdd b) out.2) as Hm.
  { intros b. by apply (cancelled_matched s0). }
  split; [done|]. split.
  { intros b. destruct (Hm b) as [H1 H2]. split_and!; [done..|]. intros Hb.
    pose proof (cancelled_by_add (start s0) out.2 b Hc) as H5.
    rewrite (final_last_entry (start s0)) in Hb.
    specialize (H5 ltac:(apply not_elem_of_empty) Hb). lia. }
  intros k wk sk b wb Hs Hrun Hk Hhead Hwb Hcompl Hfail.
  destruct (run w fuel bs s0) as [r lrun] eqn:Erun. simpl in Hrun, Hhead.
  subst r. set (s1 := final s0 lrun) in *.
  assert (ready s1) as Hs1.
  { destruct (triple_elim _ _ _ _ _ _ s0
      (run_good cpu_count worker latency is_batch_job w fuel bs Hown Hnd))
      as [_ Hst]; [split; [done|apply init_state_fresh]|].
    rewrite Erun in Hst. cbn [fst snd] in Hst.
    pose proof (run_settings s0 w fuel bs) as [Hp Hn].
    rewrite Erun in Hp, Hn. simpl in Hp, Hn. fold s1 in Hp, Hn.
    destruct (run_Done_tracked s0 w fuel bs lrun Hown eq_refl Erun)
      as (Hv & Hpend & Hreg).
    fold s1 in Hv, Hpend. split_and!.
    - unfold s1. rewrite (final_last_entry (start s0)). by destruct Hst.
    - intros x Hx. apply (names_get _ _ _ Hn), Hreg.
      destruct (Hpend x Hx) as [[]%elem_of_nil|Hx'].
      by destruct (Hv x Hx') as [[]%elem_of_nil|?].
    - by rewrite Hp. }
  assert (∃ f, fuel' = k + S f) as [f ->] by (exists (fuel' - S k); lia).
  destruct (iteration_split k w' s1 (S f) wk sk Hs1 Hhead) as (Hsk & l1 & Hl1).
  destruct (sleep_then_poll_ready wk sk Hsk) as (w2 & lk & Hit & _ & Hocc).
  specialize (Hocc b wb Hwb Hcompl Hfail).
  assert (∃ l2, out.2 = lrun ++ l1 ++ lk ++ l2) as [l2 Hout].
  { unfold out, run_then_poll_sleeping. rewrite (bind_Done _ _ _ _ _ Erun).
    fold s1. cbn [snd]. unfold poll_sleeping.
    assert (∃ l2, (poll_loop_sleeping (k + S f) w' s1).2 = l1 ++ lk ++ l2)
      as [l2 Hloop].
    { rewrite Hl1. cbn [poll_loop_sleeping].
      unfold bind at 1. unfold get_self at 1. rewrite final_nil.
      pose proof (polled_world_elem _ _ _ _ _ Hwb) as Hb.
      destruct (_pending sk); [by apply elem_of_nil in Hb|].
      rewrite (bind_Done _ _ _ _ _ Hit). by eexists. }
    unfold bind at 1.
    destruct (poll_loop_sleeping (k + S f) w' s1) as [[w3| |] lp];
      cbn [snd] in Hloop; subst lp; [|by eexists..].
    simpl. exists l2. by rewrite !app_nil_r. }
  destruct (Hm b) as [H1 H2]. rewrite Hout in H1, H2 |- *.
  rewrite ?occurrences_app in H1. rewrite ?occurrences_app in H2.
  split; rewrite ?occurrences_app; lia.
Qed.

End cancelled_once.

(** ** Examples on the demo site *)

Lemma demo_worker_returns_own_builder : returns_own_builder demo_worker.
Proof.
  intros wk ex b t. unfold demo_worker. destruct (decide _); congruence.
Defined.

Lemma demo_builders_NoDup : NoDup demo_builders.
Proof. unfold demo_builders. repeat constructor; set_solver. Defined.

Lemma tracking_sets_one_way_demo :
  returns_own_builder demo_worker ∧ NoDup demo_builders ∧
  let tr := (demo_run_then_poll demo_self).2 in
  (∀ b, at_most_one demo_self b) ∧
  Forall (λ e, ∀ b, at_most_one (post e) b) tr ∧
  chain lifecycle_step (start demo_self) tr.
Proof.
  split; [exact demo_worker_returns_own_builder|].
  split; [exact demo_builders_NoDup|].
  apply (tracking_sets_one_way (Some 8%Z) demo_worker demo_latency
           demo_is_batch_job demo_poll demo_is_complete demo_is_failure
           (demo_config (Some 2%Z) None) None None None 0 0 20 20 demo_builders
           demo_worker_returns_own_builder demo_builders_NoDup).
Defined.

(** The demo execution returns, with builder 3 reported as cancelled. *)
Example demo_run_then_poll_result :
  (demo_run_then_poll demo_self).1 = Done (Some [mkBuilder 3 slurm_debug]).
Proof. vm_compute. reflexivity. Qed.

(** A second round on the same orchestrator appends builder 2, which the
    first round completed, to the pending builders again. *)
Lemma completed_builder_pending_again :
  let b := mkBuilder 2 slurm_debug in
  let s1 := final demo_self (demo_first_round demo_self).2 in
  let tr := (demo_second_round s1).2 in
  (demo_first_round demo_self).1 = Done None ∧
  b ∈ _completed s1 ∧ (b ∉ _pending s1) ∧
  Exists (λ e, ev e = PendingAppend b ∧
               b ∈ _pending (post e) ∧ b ∈ _completed (post e)) tr ∧
  ¬ Forall (λ e, ∀ x, at_most_one (post e) x) tr.
Proof.
  intros b s1 tr.
  assert (Exists (λ e, ev e = PendingAppend b ∧
               b ∈ _pending (post e) ∧ b ∈ _completed (post e)) tr) as Hex.
  { apply (bool_decide_unpack _). by vm_compute. }
  split_and!.
  - by vm_compute.
  - apply (bool_decide_unpack _). by vm_compute.
  - apply (bool_decide_unpack _). by vm_compute.
  - done.
  - intros Hall. apply Exists_exists in Hex as (e & He & _ & Hp & Hc).
    rewrite Forall_forall in Hall. destruct (Hall e He b) as (Hno & _).
    by apply Hno.
Qed.

(** The poll interval of the demo site, thirty seconds, is slept. *)
Lemma demo_sleepable : sleepable demo_refuses 30.
Proof. repeat split; vm_compute; congruence. Defined.

(** In the demo execution builder 3 has failed and is not complete after
    its poll in the first iteration: it is added to [_cancelled] once and
    removed from [_validbuilders] once. *)
Lemma cancelled_removed_once_demo :
  let b := mkBuilder 3 slurm_debug in
  let ran := run (Some 8%Z) demo_worker demo_latency demo_is_batch_job
               0 20 demo_builders demo_self in
  let s1 := final demo_self ran.2 in
  let out := demo_run_then_poll_sleeping demo_self in
  returns_own_builder demo_worker ∧ NoDup demo_builders ∧
  sleepable demo_refuses (pollinterval demo_self) ∧
  ran.1 = Done tt ∧
  polled_world demo_poll s1 (_pending s1) 0 b = Some 3 ∧
  demo_is_complete 3 b = false ∧ demo_is_failure 3 b = true ∧
  out.1 ≠ Raise remove_error ∧
  occurrences (CancelledAdd b) out.2 = 1 ∧
  occurrences (ValidRemove b) out.2 = 1.
Proof.
  intros b ran s1 out.
  destruct (cancelled_removed_once (Some 8%Z) demo_worker demo_latency
              demo_is_batch_job demo_poll demo_is_complete demo_is_failure
              demo_refuses (demo_config (Some 2%Z) None) None None None
              0 0 20 20 demo_builders
              demo_worker_returns_own_builder demo_builders_NoDup)
    as (Hr & _ & Hcls).
  assert (ran.1 = Done tt) as Hran by (vm_compute; reflexivity).
  assert (polled_world demo_poll s1 (_pending s1) 0 b = Some 3) as Hwb
    by (vm_compute; reflexivity).
  split; [exact demo_worker_returns_own_builder|].
  split; [exact demo_builders_NoDup|].
  split; [exact demo_sleepable|].
  split; [exact Hran|]. split; [exact Hwb|].
  split; [reflexivity|]. split; [reflexivity|]. split; [exact Hr|].
  apply (Hcls 0 0 s1 b 3 demo_sleepable Hran); [lia|reflexivity|exact Hwb|..];
    reflexivity.
Defined.

(** When [run] is called twice before [poll], builder 3 is pending more
    often than it is a valid builder: it is added to [_cancelled] more
    than once and its last removal from [_validbuilders] raises. *)
Lemma second_run_makes_remove_raise :
  let b := mkBuilder 3 slurm_debug in
  let out := demo_run_twice_then_poll demo_self in
  out.1 = Raise remove_error ∧
  1 < occurrences (CancelledAdd b) out.2 ∧
  occurrences (ValidRemove b) out.2 < occurrences (CancelledAdd b) out.2.
Proof. vm_compute. split_and!; [reflexivity|lia..]. Qed.

Lemma demo_polling_Inv : Inv demo_polling.
Proof.
  unfold Inv, at_most_one. simpl. split_and!.
  - repeat constructor; set_solver.
  - repeat constructor; set_solver.
  - set_solver.
  - intros b. split_and!; set_solver.
Defined.

Lemma complete_before_failure_demo :
  let b := mkBuilder 6 slurm_debug in
  polled_world demo_poll demo_polling (_pending demo_polling) 10 b = Some 11 ∧
  demo_is_complete 11 b = true ∧ demo_is_failure 11 b = true ∧
  let out := poll_iteration demo_poll demo_is_complete demo_is_failure 10 demo_polling in
  (∃ w', out.1 = Done w') ∧
  b ∈ _completed (final demo_polling out.2) ∧
  (b ∉ _cancelled (final demo_polling out.2)) ∧
  b ∉ _pending (final demo_polling out.2).
Proof.
  split; [reflexivity|]. split; [reflexivity|]. split; [reflexivity|].
  apply (complete_before_failure demo_poll demo_is_complete demo_is_failure
           demo_polling 10 11 (mkBuilder 6 slurm_debug) demo_polling_Inv).
  - intros x ->%list_elem_of_singleton. by eexists.
  - by left.
  - reflexivity.
  - reflexivity.
  - reflexivity.
Defined.



(** A negative configured count makes the computed width negative: no
    pool is created, [mp.Pool] raises. *)
Example negative_numprocs_creates_no_pool :
  let s := init_state (demo_config (Some (-1)%Z) None) None None None in
  let out := run (Some 8%Z) demo_worker demo_latency demo_is_batch_job
               0 20 demo_builders s in
  compute_num_workers (Some 8%Z) (target_config (configuration s)) = inr (-1)%Z ∧
  out.1 = Raise (ValueError "Number of processes must be at least 1"%string) ∧
  ∀ n, occurrences (PoolCreate n) out.2 = 0.
Proof.
  split; [reflexivity|]. split; [reflexivity|]. intros n.
  vm_compute. reflexivity.
Qed.

Lemma unknown_executor_aborts_run_demo :
  let b := mkBuilder 7 "ghost"%string in
  let bs := [mkBuilder 1 local_bash; b] in
  let out := run (Some 8%Z) demo_worker demo_latency demo_is_batch_job
               0 20 bs demo_self in
  b ∈ bs ∧ get demo_self (executor b) = None ∧
  out.1 = Raise not_an_executor ∧
  (∀ n, occurrences (PoolCreate n) out.2 = 0) ∧
  (∀ wk k x, occurrences (ApplyAsync wk k x) out.2 = 0).
Proof.
  split; [set_solver|]. split; [reflexivity|].
  apply (unknown_executor_aborts_run (Some 8%Z) demo_worker demo_latency
           demo_is_batch_job demo_self 0 20
           [mkBuilder 1 local_bash; mkBuilder 7 "ghost"%string]
           (mkBuilder 7 "ghost"%string)); [set_solver|reflexivity].
Defined.

(** The exception of an unresolved executor is [ExecutorError], not
    [ConfigurationError]. *)
Lemma unknown_executor_raises_ExecutorError :
  let out := run (Some 8%Z) demo_worker demo_latency demo_is_batch_job
               0 20 [mkBuilder 1 local_bash; mkBuilder 7 "ghost"%string] demo_self in
  get demo_self "ghost"%string = None ∧
  out.1 = Raise (ExecutorError
    "None is not a valid executor because it is not of type BaseExecutor class."%string) ∧
  ¬ ∃ msg, out.1 = Raise (ConfigurationError msg).
Proof.
  split; [reflexivity|]. split; [reflexivity|]. intros [msg Hmsg].
  vm_compute in Hmsg. discriminate Hmsg.
Qed.


Lemma pollinterval_choice_demo :
  pollinterval (init_state (demo_config None (Some 10%Z)) None None (Some 5%Z)) = 5%Z ∧
  pollinterval (init_state (demo_config None None) None None None) = 30%Z.
Proof.
  destruct (pollinterval_choice (demo_config None (Some 10%Z)) None None (Some 5%Z))
    as (_ & Harg & _).
  destruct (pollinterval_choice (demo_config None None) None None None)
    as (Hdefault & _).
  split; [by apply Harg|by apply Hdefault].
Defined.

(** An explicit argument of [0] does not take priority: the configured
    value is chosen. *)
Lemma explicit_zero_pollinterval_is_ignored :
  pollinterval (init_state (demo_config None (Some 10%Z)) None None (Some 0%Z)) = 10%Z ∧
  pollinterval (init_state (demo_config None (Some 10%Z)) None None (Some 0%Z)) ≠ 0%Z.
Proof. split; [reflexivity|discriminate]. Qed.

Lemma get_unknown_returns_None_demo :
  ("ghost"%string ∉ names demo_self) ∧
  get demo_self "ghost"%string = None ∧
  ∀ b, executor b = "ghost"%string →
       _choose_executor b demo_self = (Raise not_an_executor, []).
Proof.
  assert ("ghost"%string ∉ names demo_self) as Hn by set_solver.
  split; [exact Hn|].
  apply (get_unknown_returns_None demo_self "ghost"%string Hn).
Defined.

(** ** Examples for the further properties *)

Lemma demo_builders_registered b :
  b ∈ demo_builders → is_Some (get demo_self (executor b)).
Proof.
  unfold demo_builders. intros Hb.
  repeat (apply elem_of_cons in Hb as [->|Hb]; [by eexists|]).
  by apply elem_of_nil in Hb.
Defined.

Lemma run_returns_demo :
  returns
    (run (Some 8%Z) demo_worker demo_latency demo_is_batch_job
       0 (run_fuel demo_latency 5) demo_builders)
    demo_self.
Proof. apply run_returns. vm_compute. lia. Defined.

Lemma run_submits_every_builder_demo :
  ∃ l, run (Some 8%Z) demo_worker demo_latency demo_is_batch_job
         0 21 demo_builders demo_self = (Done tt, l) ∧
       builders (final demo_self l) = demo_builders ∧
       Forall2 (λ sub b, ∃ ex, get (final demo_self l) (executor b) = Some ex ∧
                               sub = (work_of ex, name ex, b))
               (submissions l) demo_builders.
Proof.
  apply (run_submits_every_builder (Some 8%Z) demo_worker demo_latency
           demo_is_batch_job demo_self 0 21 demo_builders 2).
  - apply demo_builders_registered.
  - reflexivity.
  - lia.
  - vm_compute. lia.
Defined.

Lemma run_postcondition_demo :
  ∃ l L, run (Some 8%Z) demo_worker demo_latency demo_is_batch_job
           0 21 demo_builders demo_self = (Done tt, l) ∧
    let s' := final demo_self l in
    L ≡ₚ omap (outcome demo_worker s') demo_builders ∧
    _validbuilders s' = L ∧
    _pending s' = filter (λ b, demo_is_batch_job 0 b = true) (_validbuilders s') ∧
    _completed s' = ∅ ∧ _cancelled s' = ∅.
Proof.
  apply (run_postcondition (Some 8%Z) demo_worker demo_latency
           demo_is_batch_job demo_self 0 21 demo_builders 2).
  - apply demo_builders_registered.
  - reflexivity.
  - lia.
  - vm_compute. lia.
Defined.

Lemma run_keeps_builders_before_unknown_demo :
  let pre := [mkBuilder 1 local_bash] in
  let b := mkBuilder 7 "ghost"%string in
  let post := [mkBuilder 2 slurm_debug] in
  ∃ l, run (Some 8%Z) demo_worker demo_latency demo_is_batch_job
         0 21 (pre ++ b :: post) demo_self = (Raise not_an_executor, l) ∧
       builders (final demo_self l) = builders demo_self ++ pre ∧
       same_tracking demo_self (final demo_self l) ∧
       submissions l = [] ∧
       ∀ n, occurrences (PoolCreate n) l = 0.
Proof.
  intros pre b post.
  apply (run_keeps_builders_before_unknown (Some 8%Z) demo_worker demo_latency
           demo_is_batch_job demo_self 0 21 pre b post).
  - intros x Hx. apply demo_builders_registered.
    apply list_elem_of_singleton in Hx as ->. by left.
  - reflexivity.
Defined.

Lemma run_refuses_width_below_one_demo :
  ∃ l, run (Some 8%Z) demo_worker demo_latency demo_is_batch_job
         0 21 demo_builders demo_negative =
         (Raise (ValueError "Number of processes must be at least 1"), l) ∧
       builders (final demo_negative l) = builders demo_negative ++ demo_builders ∧
       same_tracking demo_negative (final demo_negative l) ∧
       submissions l = [] ∧
       ∀ k, occurrences (PoolCreate k) l = 0.
Proof.
  apply (run_refuses_width_below_one (Some 8%Z) demo_worker demo_latency
           demo_is_batch_job demo_negative 0 21 demo_builders (-1)).
  - apply demo_builders_registered.
  - reflexivity.
  - lia.
Defined.

Lemma run_without_cpu_count_demo :
  ∃ msg l,
    run None demo_worker demo_latency demo_is_batch_job 0 21 demo_builders demo_self =
      (Raise (TypeError msg), l) ∧
    builders (final demo_self l) = builders demo_self ++ demo_builders ∧
    same_tracking demo_self (final demo_self l) ∧
    submissions l = [] ∧
    ∀ n, occurrences (PoolCreate n) l = 0.
Proof.
  apply (run_without_cpu_count demo_worker demo_latency demo_is_batch_job
           demo_self 0 21 demo_builders).
  apply demo_builders_registered.
Defined.

Lemma demo_polling_registered x :
  x ∈ _pending demo_polling → is_Some (get demo_polling (executor x)).
Proof.
  intros Hx. apply list_elem_of_singleton in Hx as ->. by eexists.
Defined.

Lemma poll_iteration_outcome_demo :
  ∃ w' l,
    sleep_then_poll demo_poll demo_is_complete demo_is_failure demo_refuses 10 demo_polling =
      (Done w', l) ∧
    ∀ b, b ∈ _pending demo_polling →
      ∃ wb, polled_world demo_poll demo_polling (_pending demo_polling) 10 b = Some wb ∧
        if demo_is_complete wb b
        then (b ∉ _pending (final demo_polling l)) ∧
             b ∈ _validbuilders (final demo_polling l) ∧
             b ∈ _completed (final demo_polling l) ∧
             (b ∉ _cancelled (final demo_polling l))
        else if demo_is_failure wb b
        then (b ∉ _pending (final demo_polling l)) ∧
             (b ∉ _validbuilders (final demo_polling l)) ∧
             (b ∉ _completed (final demo_polling l)) ∧
             b ∈ _cancelled (final demo_polling l)
        else b ∈ _pending (final demo_polling l) ∧
             b ∈ _validbuilders (final demo_polling l) ∧
             (b ∉ _completed (final demo_polling l)) ∧
             (b ∉ _cancelled (final demo_polling l)).
Proof.
  apply (poll_iteration_outcome demo_poll demo_is_complete demo_is_failure demo_refuses
           10 demo_polling).
  - apply demo_polling_Inv.
  - exact demo_sleepable.
  - apply demo_polling_registered.
Defined.

Lemma poll_postcondition_demo :
  let out := poll_sleeping demo_poll demo_is_complete demo_is_failure demo_refuses
               20 10 demo_polling in
  let s' := final demo_polling out.2 in
  out.1 = Done None ∧
  _pending s' = [] ∧
  (∀ b, b ∈ _pending demo_polling →
     (b ∈ _validbuilders s' ∧ b ∈ _completed s' ∧ (b ∉ _cancelled s')) ∨
     ((b ∉ _validbuilders s') ∧ (b ∉ _completed s') ∧ b ∈ _cancelled s')) ∧
  (∀ b, b ∉ _pending demo_polling →
     (b ∈ _validbuilders s' ↔ b ∈ _validbuilders demo_polling) ∧
     (b ∈ _completed s' ↔ b ∈ _completed demo_polling) ∧
     (b ∈ _cancelled s' ↔ b ∈ _cancelled demo_polling)) ∧
  None = (if decide (_cancelled s' = ∅) then None
          else Some (elements (_cancelled s'))).
Proof.
  intros out s'.
  assert (out = (Done None, out.2)) as Hout by (vm_compute; reflexivity).
  split; [by rewrite Hout|].
  exact (poll_postcondition demo_poll demo_is_complete demo_is_failure demo_refuses
           20 10 demo_polling None out.2 demo_polling_Inv Hout).
Defined.

Lemma poll_returns_when_jobs_finished_demo :
  ∃ r l,
    poll_sleeping demo_poll demo_is_complete demo_is_failure demo_refuses 1 10 demo_polling =
      (Done r, l) ∧
    _pending (final demo_polling l) = [].
Proof.
  apply (poll_returns_when_jobs_finished demo_poll demo_is_complete
           demo_is_failure demo_refuses 0 10 demo_polling).
  - apply demo_polling_Inv.
  - exact demo_sleepable.
  - apply demo_polling_registered.
  - intros b wb Hb Hwb. apply list_elem_of_singleton in Hb as ->.
    vm_compute in Hwb. injection Hwb as <-. by left.
Defined.

Lemma poll_unregistered_executor_demo :
  let err := AttributeError "'NoneType' object has no attribute 'poll'" in
  sleep_then_poll demo_poll demo_is_complete demo_is_failure demo_refuses 10 demo_ghost_pending =
    (Raise err, []) ∧
  poll_sleeping demo_poll demo_is_complete demo_is_failure demo_refuses 5 10 demo_ghost_pending =
    (Raise err, []).
Proof.
  intros err.
  apply (poll_unregistered_executor demo_poll demo_is_complete demo_is_failure demo_refuses
           4 10 demo_ghost_pending (mkBuilder 7 "ghost")).
  - exact demo_sleepable.
  - by left.
  - reflexivity.
Defined.

Lemma poll_cancels_before_remove_fails_demo :
  ∃ l x,
    sleep_then_poll demo_poll demo_is_complete demo_is_failure demo_refuses 10 demo_lost =
      (Raise remove_error, l) ∧
    x ∈ _pending demo_lost ∧ (x ∉ _validbuilders demo_lost) ∧
    (x ∉ _pending (final demo_lost l)) ∧ x ∈ _cancelled (final demo_lost l).
Proof.
  apply (poll_cancels_before_remove_fails demo_poll demo_is_complete
           demo_is_failure demo_refuses 10 demo_lost (mkBuilder 3 slurm_debug) 11).
  - apply NoDup_singleton.
  - exact demo_sleepable.
  - intros x Hx. apply list_elem_of_singleton in Hx as ->. by eexists.
  - by left.
  - by intros ?%elem_of_nil.
  - reflexivity.
  - reflexivity.
  - reflexivity.
Defined.

Lemma init_last_kind_wins_demo :
  ∃ st, (("shared"%string, st) ∈
           [("shared"%string, mkSettings (Some ["gcc"%string]) None)]) ∧
        get (init_state demo_clash_config (Some "acct"%string) (Some 60%Z) None)
          "shared" =
          Some (mkExecutor "shared" "pbs" st (Some "acct"%string) (Some 60%Z) []).
Proof.
  apply (init_last_kind_wins demo_clash_config (Some "acct"%string) (Some 60%Z)
           None "shared"
           [("local"%string, None, None,
             [("shared"%string, mkSettings None (Some "export A=1"%string))]);
            ("slurm"%string, Some "acct"%string, Some 60%Z, []);
            ("lsf"%string, Some "acct"%string, Some 60%Z, [])]
           ("pbs"%string, Some "acct"%string, Some 60%Z,
            [("shared"%string, mkSettings (Some ["gcc"%string]) None)])
           [("cobalt"%string, Some "acct"%string, Some 60%Z, [])]).
  - reflexivity.
  - by left.
  - intros k' Hk. apply list_elem_of_singleton in Hk as ->. by intros ?%elem_of_nil.
Defined.


Lemma script_paths_distinct_demo :
  (local_bash ≠ ""%string →
   bool_decide (demo_dir = ""%string) = false →
   ends_with_sep demo_dir = false →
   executor_dir demo_dir local_bash = (demo_dir +:+ "/" +:+ local_bash)%string ∧
   script_path demo_dir local_bash =
     (demo_dir +:+ "/" +:+ local_bash +:+ "/before_script.sh")%string) ∧
  (script_path demo_dir local_bash = script_path demo_dir slurm_debug →
   local_bash = slurm_debug).
Proof.
  apply (script_paths_distinct demo_dir local_bash slurm_debug); reflexivity.
Defined.

Lemma absolute_name_ignores_executor_dir_demo :
  executor_dir demo_dir "/opt/site" = "/opt/site"%string ∧
  script_path demo_dir "/opt/site" = "/opt/site/before_script.sh"%string.
Proof.
  apply (absolute_name_ignores_executor_dir demo_dir "/opt/site"). reflexivity.
Defined.
